(** * AttackedText: a text under word-level rewriting, with its bookkeeping

    Shallow embedding of [textattack/shared/attacked_text.py] and the
    properties of its rewrite engine, equality and query helpers.

    Conventions of the embedding:
    - a Python [str] is a [string] of 8-bit characters (the ASCII fragment);
    - a Python [int] is a [Z]; positions produced by [enumerate], [len] and
      [str.index] are [nat] and are injected with [Z.of_nat] where the code
      mixes them with signed values;
    - a one-dimensional integer [np.ndarray] is a [list Z];
    - a [set] of integers is a [gset Z];
    - a [dict] is an association list in insertion order;
    - an exception is a value of [exn] carried by [result]. *)

From Stdlib Require Import ZArith Ascii String List Lia Bool.
From stdpp Require Import base decidable option list gmap strings.

Set Warnings "-clear-no-such-hyp".
Set Warnings "-notation-incompatible-prefix".

Open Scope string_scope.
Open Scope Z_scope.

(** ** Exceptions and results *)

Inductive exn : Type :=
| ValueError
| TypeError
| IndexError
| KeyError
| AttributeError.

Inductive result (A : Type) : Type :=
| Ok (a : A)
| Raise (e : exn).
Arguments Ok {A} a.
Arguments Raise {A} e.

#[export] Instance result_ret : MRet result := @Ok.
#[export] Instance result_bind : MBind result := fun A B k m =>
  match m with
  | Ok a => k a
  | Raise e => Raise e
  end.

Definition is_ok {A : Type} (m : result A) : bool :=
  match m with Ok _ => true | Raise _ => false end.

(** ** The Python string primitives the class uses *)

Module Py.

(** [len(s)] *)
Definition len (s : string) : nat := String.length s.

(** [s[:n]] for [0 <= n] *)
Fixpoint take (n : nat) (s : string) : string :=
  match n, s with
  | O, _ => ""
  | S _, EmptyString => ""
  | S k, String c s' => String c (take k s')
  end.

(** [s[n:]] for [0 <= n] *)
Fixpoint drop (n : nat) (s : string) : string :=
  match n, s with
  | O, _ => s
  | S _, EmptyString => ""
  | S k, String _ s' => drop k s'
  end.

(** Python's normalisation of a slice bound against a length. *)
Definition clamp (n : nat) (i : Z) : nat :=
  let j := if i <? 0 then i + Z.of_nat n else i in
  if j <? 0 then O else Nat.min (Z.to_nat j) n.

(** [s[lo:hi]] for arbitrary integers *)
Definition slice (s : string) (lo hi : Z) : string :=
  let a := clamp (len s) lo in
  let b := clamp (len s) hi in
  take (b - a) (drop a s).

(** [s.startswith(p)] *)
Fixpoint startswith (p s : string) : bool :=
  match p, s with
  | EmptyString, _ => true
  | String _ _, EmptyString => false
  | String a p', String b s' => if Ascii.eqb a b then startswith p' s' else false
  end.

(** Position of the first occurrence of [sub] in [s], if any. *)
Fixpoint find0 (sub s : string) : option nat :=
  if startswith sub s then Some O
  else match s with
       | EmptyString => None
       | String _ s' => S <$> find0 sub s'
       end.

(** [s.index(sub)] raises [ValueError] when [sub] does not occur. *)
Definition index (s sub : string) : result nat :=
  match find0 sub s with
  | Some k => Ok k
  | None => Raise ValueError
  end.

(** [s.find(sub, start)] returns [-1] when [sub] does not occur at or
    after [start]; a negative [start] counts from the end. *)
Definition find (s sub : string) (start : Z) : Z :=
  let j := if start <? 0 then Z.max 0 (start + Z.of_nat (len s)) else start in
  if Z.of_nat (len s) <? j then -1
  else match find0 sub (drop (Z.to_nat j) s) with
       | Some k => j + Z.of_nat k
       | None => -1
       end.

Definition is_upper (c : ascii) : bool :=
  let n := nat_of_ascii c in (65 <=? n)%nat && (n <=? 90)%nat.

Definition is_lower (c : ascii) : bool :=
  let n := nat_of_ascii c in (97 <=? n)%nat && (n <=? 122)%nat.

(** [c.isalpha()] *)
Definition isalpha (c : ascii) : bool := is_upper c || is_lower c.

(** [c.isspace()] *)
Definition isspace (c : ascii) : bool :=
  let n := nat_of_ascii c in
  ((9 <=? n)%nat && (n <=? 13)%nat) || ((28 <=? n)%nat && (n <=? 32)%nat).

Definition lower_char (c : ascii) : ascii :=
  if is_upper c then ascii_of_nat (nat_of_ascii c + 32) else c.

(** [s.lower()], as it is on ASCII text: there Python lowers the letters
    [A] to [Z] and nothing else, one character for one.  On other text it
    lowers other letters as well and can make the string longer. *)
Fixpoint lower (s : string) : string :=
  match s with
  | EmptyString => ""
  | String c s' => String (lower_char c) (lower s')
  end.

Definition is_ascii_char (c : ascii) : bool := (nat_of_ascii c <? 128)%nat.

(** [s.isascii()] *)
Fixpoint isascii (s : string) : bool :=
  match s with
  | EmptyString => true
  | String c s' => is_ascii_char c && isascii s'
  end.

(** [s.lstrip()] *)
Fixpoint lstrip (s : string) : string :=
  match s with
  | EmptyString => ""
  | String c s' => if isspace c then lstrip s' else s
  end.

(** [s.rstrip()] *)
Fixpoint rstrip (s : string) : string :=
  match s with
  | EmptyString => ""
  | String c s' =>
      match rstrip s' with
      | EmptyString => if isspace c then "" else String c ""
      | r => String c r
      end
  end.

(** [s.strip()] *)
Definition strip (s : string) : string := rstrip (lstrip s).

(** [sep.join(l)] *)
Fixpoint join (sep : string) (l : list string) : string :=
  match l with
  | [] => ""
  | [x] => x
  | x :: l' => x +:+ sep +:+ join sep l'
  end.

(** [s.split(sep)] for a non-empty [sep]: scan left to right, cut at
    every occurrence of [sep] that does not overlap the previous one.
    [skip] counts the characters of a matched separator still to pass,
    [cur] is the piece being collected. *)
Fixpoint split_go (sep : string) (skip : nat) (cur : string) (s : string)
  : list string :=
  match s with
  | EmptyString => [cur]
  | String c s' =>
      match skip with
      | S k => split_go sep k cur s'
      | O =>
          if startswith sep s
          then cur :: split_go sep (len sep - 1) "" s'
          else split_go sep O (cur +:+ String c "") s'
      end
  end.

Definition split (s sep : string) : list string := split_go sep O "" s.

(** [s[i]] for a non-negative [i]; [IndexError] past the end. *)
Definition char_at (s : string) (i : nat) : result ascii :=
  match String.get i s with
  | Some c => Ok c
  | None => Raise IndexError
  end.

(** [s[-1]]; [IndexError] on the empty string. *)
Definition last_char (s : string) : result ascii :=
  match len s with
  | O => Raise IndexError
  | S k => char_at s k
  end.

(** [l[i]] on a list, a negative [i] counting from the end. *)
Definition getitem {A : Type} (l : list A) (i : Z) : result A :=
  let j := if i <? 0 then i + Z.of_nat (length l) else i in
  if j <? 0 then Raise IndexError
  else match l !! Z.to_nat j with
       | Some x => Ok x
       | None => Raise IndexError
       end.

(** [l[i] = x] on a list, for a non-negative [i]. *)
Definition setitem {A : Type} (l : list A) (i : nat) (x : A) : result (list A) :=
  if (i <? length l)%nat then Ok (<[i:=x]> l) else Raise IndexError.

(** [np.arange(n)] *)
Definition arange (n : nat) : list Z := Z.of_nat <$> seq 0 n.

End Py.

(** ** Dictionaries in insertion order *)

Section Dict.
Context {V : Type}.

Fixpoint dict_get (k : string) (d : list (string * V)) : option V :=
  match d with
  | [] => None
  | (k', v) :: d' => if String.eqb k k' then Some v else dict_get k d'
  end.

(** [d[k] = v]: overwrite in place, or append a new key. *)
Fixpoint dict_set (k : string) (v : V) (d : list (string * V)) : list (string * V) :=
  match d with
  | [] => [(k, v)]
  | (k', v') :: d' =>
      if String.eqb k k' then (k, v) :: d' else (k', v') :: dict_set k v d'
  end.

(** [d.setdefault(k, v)] *)
Definition dict_setdefault (k : string) (v : V) (d : list (string * V))
  : list (string * V) :=
  match dict_get k d with
  | Some _ => d
  | None => dict_set k v d
  end.

Definition dict_keys (d : list (string * V)) : list string := fst <$> d.
Definition dict_values (d : list (string * V)) : list V := snd <$> d.
End Dict.

(** ** The data model *)

(** An [AttackedText] instance: the ordered segments [_text_input], the
    [words] of the joined text, and the [attack_attrs] dictionary.  The
    values this class stores in [attack_attrs] are an index array
    ([original_index_map]), sets of indices ([modified_indices],
    [newly_modified_indices]) and the parent instance
    ([previous_attacked_text]). *)
Inductive AttackedText : Type :=
| Build_AttackedText
    (text_input : list (string * string))
    (ws : list string)
    (attrs : list (string * attr))
with attr : Type :=
| Ndarray (a : list Z)
| PySet (s : gset Z)
| Instance_ (t : AttackedText).

Definition _text_input (t : AttackedText) : list (string * string) :=
  let 'Build_AttackedText ti _ _ := t in ti.
Definition words (t : AttackedText) : list string :=
  let 'Build_AttackedText _ ws _ := t in ws.
Definition attack_attrs (t : AttackedText) : list (string * attr) :=
  let 'Build_AttackedText _ _ attrs := t in attrs.

Definition SPLIT_TOKEN : string := ">>>>".
Definition newline : string := String (ascii_of_nat 10) "".
Definition space : ascii := ascii_of_nat 32.

(** The [text] property: the segments joined with a line break. *)
Definition text (self : AttackedText) : string :=
  Py.join newline (dict_values (_text_input self)).

(** Reading a bookkeeping field at the type the class stores under it.
    An absent key is Python's [KeyError]; a value of another type is not
    something this class ever stores and is reported as [TypeError]. *)
Definition attr_set (d : list (string * attr)) (k : string) : result (gset Z) :=
  match dict_get k d with
  | None => Raise KeyError
  | Some (PySet s) => Ok s
  | Some _ => Raise TypeError
  end.

Definition attr_array (d : list (string * attr)) (k : string) : result (list Z) :=
  match dict_get k d with
  | None => Raise KeyError
  | Some (Ndarray a) => Ok a
  | Some _ => Raise TypeError
  end.

(** What a caller may pass as [text_input] and as [attack_attrs]. *)
Inductive text_input_arg : Type :=
| InStr (s : string)
| InOrderedDict (d : list (string * string))
| InOther.

Inductive attack_attrs_arg : Type :=
| AttrsNone
| AttrsDict (d : list (string * attr))
| AttrsOther.

(** What a caller may pass as an index and as a replacement word. *)
Inductive index_arg : Type :=
| IdxInt (i : Z)          (* an [int] *)
| IdxConvertible (i : Z)  (* not an [int], but [int(i)] succeeds *)
| IdxOther.               (* [int(i)] raises *)

Inductive word_arg : Type :=
| WordStr (s : string)
| WordOther.

(** The state of the loop of [replace_new_words]. *)
Record rewrite_state : Type := {
  perturbed_text : string;
  original_text : string;
  modified_indices : gset Z;
  newly_modified_indices : gset Z;
  original_index_map : list Z;
  new_i : Z
}.

(** ** The class, over a tokenizer *)

Section Engine.

(** [words_from_text] lives in [utils]; the class only calls it. *)
Variable words_from_text : string -> list string.

(** [AttackedText.__init__] *)
Definition init (text_input : text_input_arg) (attrs : attack_attrs_arg)
  : result AttackedText :=
  ti ← match text_input with
       | InStr s => Ok [("text", s)]
       | InOrderedDict d => Ok d
       | InOther => Raise TypeError
       end;
  let ti := (fun kv : string * string => (kv.1, Py.strip kv.2)) <$> ti in
  let ws := words_from_text (Py.join newline (dict_values ti)) in
  d ← match attrs with
      | AttrsNone => Ok []
      | AttrsDict d => Ok d
      | AttrsOther => Raise TypeError
      end;
  let d := dict_setdefault "original_index_map"
             (Ndarray (Py.arange (length ws))) d in
  let d := dict_setdefault "modified_indices" (PySet ∅) d in
  Ok (Build_AttackedText ti ws d).

(** The loop over [modified_indices] that rebuilds the set after an
    edit at [i] changed the word count by [num_words_diff]. *)
Definition shift_modified_indices (i num_words_diff : Z) (m : gset Z) : gset Z :=
  set_fold (fun modified_idx (shifted : gset Z) =>
              if modified_idx <? i then {[modified_idx]} ∪ shifted
              else if i <? modified_idx then {[modified_idx + num_words_diff]} ∪ shifted
              else shifted) ∅ m.

(** [a[mask(a)] = f(a)] on an array, element by element. *)
Definition masked (mask : Z -> bool) (f : Z -> Z) (a : list Z) : list Z :=
  (fun x => if mask x then f x else x) <$> a.

(** The update of [original_index_map] after such an edit. *)
Definition shift_index_map (i num_words_diff : Z) (a : list Z) : list Z :=
  let new_idx_map :=
    if num_words_diff =? -1 then masked (fun x => x =? i) (fun _ => -1) a else a in
  masked (fun x => i <? x) (fun x => x + num_words_diff) new_idx_map.

(** [for j in range(i, i + adv_num_words)]: record the new positions. *)
Fixpoint mark_new_words (n : nat) (changed : bool) (st : rewrite_state)
  : rewrite_state :=
  match n with
  | O => st
  | S k =>
      let st1 :=
        if changed
        then {| perturbed_text := perturbed_text st;
                original_text := original_text st;
                modified_indices := {[new_i st]} ∪ modified_indices st;
                newly_modified_indices := {[new_i st]} ∪ newly_modified_indices st;
                original_index_map := original_index_map st;
                new_i := new_i st |}
        else st in
      mark_new_words k changed
        {| perturbed_text := perturbed_text st1;
           original_text := original_text st1;
           modified_indices := modified_indices st1;
           newly_modified_indices := newly_modified_indices st1;
           original_index_map := original_index_map st1;
           new_i := new_i st1 + 1 |}
  end.

(** The removal of one space next to a deleted word. *)
Definition drop_deletion_space (i : nat) (perturbed original : string)
  : result (string * string) :=
  match i with
  | O =>
      c ← Py.char_at original 0;
      if Ascii.eqb c space then Ok (perturbed, Py.drop 1 original)
      else Ok (perturbed, original)
  | S _ =>
      c ← Py.last_char perturbed;
      if Ascii.eqb c space then Ok (Py.take (Py.len perturbed - 1) perturbed, original)
      else Ok (perturbed, original)
  end.

(** One iteration of the loop of [replace_new_words]. *)
Definition rewrite_step (i : nat) (input_word adv_word_seq : string)
    (st : rewrite_state) : result rewrite_state :=
  word_start ← Py.index (original_text st) input_word;
  let word_end := (word_start + Py.len input_word)%nat in
  let perturbed := perturbed_text st +:+ Py.take word_start (original_text st) in
  let original := Py.drop word_end (original_text st) in
  let adv_num_words := length (words_from_text adv_word_seq) in
  let num_words_diff :=
    Z.of_nat adv_num_words - Z.of_nat (length (words_from_text input_word)) in
  let shifted := negb (num_words_diff =? 0) in
  let st1 :=
    {| perturbed_text := perturbed;
       original_text := original;
       modified_indices :=
         if shifted
         then shift_modified_indices (Z.of_nat i) num_words_diff (modified_indices st)
         else modified_indices st;
       newly_modified_indices := newly_modified_indices st;
       original_index_map :=
         if shifted
         then shift_index_map (Z.of_nat i) num_words_diff (original_index_map st)
         else original_index_map st;
       new_i := new_i st |} in
  let st2 := mark_new_words adv_num_words
               (negb (String.eqb input_word adv_word_seq)) st1 in
  '(perturbed, original) ←
    (if (adv_num_words =? 0)%nat
     then drop_deletion_space i (perturbed_text st2) (original_text st2)
     else Ok (perturbed_text st2, original_text st2));
  Ok {| perturbed_text := perturbed +:+ adv_word_seq;
        original_text := original;
        modified_indices := modified_indices st2;
        newly_modified_indices := newly_modified_indices st2;
        original_index_map := original_index_map st2;
        new_i := new_i st2 |}.

(** [for i, (input_word, adv_word_seq) in enumerate(zip(...))] *)
Fixpoint rewrite_loop (i : nat) (pairs : list (string * string))
    (st : rewrite_state) : result rewrite_state :=
  match pairs with
  | [] => Ok st
  | (input_word, adv_word_seq) :: rest =>
      st' ← rewrite_step i input_word adv_word_seq st;
      rewrite_loop (S i) rest st'
  end.

(** [AttackedText.replace_new_words] *)
Definition replace_new_words (self : AttackedText) (new_words : list string)
  : result AttackedText :=
  let original := Py.join SPLIT_TOKEN (dict_values (_text_input self)) in
  modified ← attr_set (attack_attrs self) "modified_indices";
  index_map ← attr_array (attack_attrs self) "original_index_map";
  st ← rewrite_loop 0 (zip (words self) new_words)
         {| perturbed_text := "";
            original_text := original;
            modified_indices := modified;
            newly_modified_indices := ∅;
            original_index_map := index_map;
            new_i := 0 |};
  let new_attack_attrs :=
    [("newly_modified_indices", PySet (newly_modified_indices st));
     ("previous_attacked_text", Instance_ self);
     ("modified_indices", PySet (modified_indices st));
     ("original_index_map", Ndarray (original_index_map st))] in
  let perturbed := perturbed_text st +:+ original_text st in
  let perturbed_input_texts := Py.split perturbed SPLIT_TOKEN in
  let perturbed_input :=
    zip (dict_keys (_text_input self)) perturbed_input_texts in
  init (InOrderedDict perturbed_input) (AttrsDict new_attack_attrs).

(** The loop of [replace_words_at_indices] over [zip(indices, new_words)]. *)
Fixpoint assign_words (edits : list (index_arg * word_arg)) (ws : list string)
  : result (list string) :=
  match edits with
  | [] => Ok ws
  | (i, new_word) :: rest =>
      i ← match i with
          | IdxInt i => Ok i
          | IdxConvertible i => Ok i
          | IdxOther => Raise TypeError
          end;
      new_word ← match new_word with
                 | WordStr s => Ok s
                 | WordOther => Raise TypeError
                 end;
      if (i <? 0) || (Z.of_nat (length ws) <? i) then Raise ValueError
      else ws' ← Py.setitem ws (Z.to_nat i) new_word; assign_words rest ws'
  end.

(** [AttackedText.replace_words_at_indices] *)
Definition replace_words_at_indices (self : AttackedText)
    (indices : list index_arg) (new_words : list word_arg)
  : result AttackedText :=
  if negb (length indices =? length new_words)%nat then Raise ValueError
  else
    ws ← assign_words (zip indices new_words) (words self);
    replace_new_words self ws.

(** [AttackedText.replace_word_at_index] *)
Definition replace_word_at_index (self : AttackedText)
    (index : index_arg) (new_word : word_arg) : result AttackedText :=
  index ← match index with
          | IdxInt i => Ok i
          | IdxConvertible i => Ok i
          | IdxOther => Raise TypeError
          end;
  new_word ← match new_word with
             | WordStr s => Ok s
             | WordOther => Raise TypeError
             end;
  replace_words_at_indices self [IdxInt index] [WordStr new_word].

(** [AttackedText.get_deletion_indices] *)
Definition get_deletion_indices (self : AttackedText) : result (list Z) :=
  index_map ← attr_array (attack_attrs self) "original_index_map";
  Ok (filter (fun x => x = -1) index_map).

(** [AttackedText.delete_word_at_index] *)
Definition delete_word_at_index (self : AttackedText) (index : index_arg)
  : result AttackedText :=
  replace_word_at_index self index (WordStr "").

End Engine.

(** ** A tokenizer to run the class on *)

Module Tokenizer.

Definition is_joiner (c : ascii) : bool :=
  Ascii.eqb c (ascii_of_nat 39) || Ascii.eqb c (ascii_of_nat 45).

Definition nonempty (s : string) : bool :=
  match s with EmptyString => false | String _ _ => true end.

Fixpoint scan (word : string) (s : string) : list string :=
  match s with
  | EmptyString => if nonempty word then [word] else []
  | String c s' =>
      if Py.isalpha c then scan (word +:+ String c "") s'
      else if is_joiner c && nonempty word then scan (word +:+ String c "") s'
      else if nonempty word then word :: scan "" s'
      else scan "" s'
  end.

(** Modelled from the spec: [words_from_text] belongs to [utils], which
    is not among the sources; the spec gives its interface (a text to
    the ordered sequence of its word strings, deterministic) and its
    value on ["The quick fox jumps."].  Here a word is a maximal run of
    letters, inside which an apostrophe or a hyphen may follow a letter. *)
Definition words_from_text (s : string) : list string := scan "" s.

End Tokenizer.

(** ** Queries *)

(** [AttackedText._text_index_of_word_index] *)
Definition _text_index_of_word_index (self : AttackedText) (i : Z) : Z :=
  let pre_words := take (Py.clamp (length (words self)) (i + 1)) (words self) in
  let lower_text := Py.lower (text self) in
  foldl (fun look_after_index word =>
           Py.find lower_text (Py.lower word) look_after_index)
        0 pre_words.

(** The bounds of the word window of [text_window_around_index].
    [half_size] is [(window_size - 1) / 2.0]; the comparisons and roundings
    of that half-integer are written on its double [window_size - 1].
    This is what the float computation gives as long as the integers and the
    halves it forms are floats without rounding, which they are up to
    [float_exact]; beyond, Python rounds, and for an integer too large for
    a float it raises [OverflowError]. *)
Definition window_bounds (length index window_size : Z) : Z * Z :=
  let twice_half_size := window_size - 1 in
  if 2 * index - twice_half_size <? 0 then
    (0, Z.min (window_size - 1) (length - 1))
  else if 2 * length <=? 2 * index + twice_half_size then
    (Z.max 0 (length - window_size), length - 1)
  else
    (index - (twice_half_size + 1) / 2, index + twice_half_size / 2).

(** [AttackedText.text_window_around_index] *)
Definition text_window_around_index (self : AttackedText)
    (index window_size : Z) : result string :=
  let '(start, end_) :=
    window_bounds (Z.of_nat (length (words self))) index window_size in
  let text_idx_start := _text_index_of_word_index self start in
  let idx_end := _text_index_of_word_index self end_ in
  word ← Py.getitem (words self) end_;
  let text_idx_end := idx_end + Z.of_nat (Py.len word) in
  Ok (Py.slice (text self) text_idx_start text_idx_end).

(** The loop of [first_word_diff] over [range(min(len(w1), len(w2)))]:
    [Some w1] is [return w1], [None] is falling out of the loop. *)
Fixpoint first_word_diff_loop (w1 : list string) (rest1 rest2 : list string)
  : option (list string) :=
  match rest1, rest2 with
  | a :: rest1', b :: rest2' =>
      if negb (String.eqb a b) then Some w1
      else first_word_diff_loop w1 rest1' rest2'
  | _, _ => None
  end.

(** [AttackedText.first_word_diff] *)
Definition first_word_diff (self other_attacked_text : AttackedText)
  : option (list string) :=
  let w1 := words self in
  let w2 := words other_attacked_text in
  first_word_diff_loop w1 w1 w2.

(** ** Equality *)

(** [(a == b).all()] for two arrays of one shape *)
Definition array_all_eq (a b : list Z) : bool :=
  forallb (fun xy : Z * Z => xy.1 =? xy.2) (zip a b).

(** [AttackedText.__eq__].  The inner loop is [for key in
    self.attack_attrs].  Where the two values under a key are of
    different kinds Python's own rules apply: [.shape] and [.text] raise
    [AttributeError] on a value without them, and a set compared with an
    array gives numpy's element-wise array of [False], whose truth value
    is an error unless it has at most one element. *)
Fixpoint AttackedText_eq (self other : AttackedText) {struct self}
  : result bool :=
  let 'Build_AttackedText text_input _ attrs := self in
  if negb (String.eqb (Py.join newline (dict_values text_input)) (text other))
  then Ok false
  else
    (fix keys (d : list (string * attr)) : result bool :=
       match d with
       | [] => Ok true
       | (key, v) :: d' =>
           match dict_get key (attack_attrs other) with
           | None => Ok false
           | Some v' =>
               match v with
               | Ndarray a =>
                   match v' with
                   | Ndarray a' =>
                       if negb (length a =? length a')%nat then Ok false
                       else if negb (array_all_eq a a') then Ok false
                       else keys d'
                   | _ => Raise AttributeError
                   end
               | PySet s =>
                   match v' with
                   | PySet s' =>
                       if negb (bool_decide (s = s')) then Ok false else keys d'
                   | Ndarray a' =>
                       if (length a' <=? 1)%nat then Ok false else Raise ValueError
                   | Instance_ _ => Raise AttributeError
                   end
               | Instance_ t =>
                   match v' with
                   | Instance_ t' =>
                       same ← AttackedText_eq t t';
                       if negb same then Ok false else keys d'
                   | _ => Raise AttributeError
                   end
               end
           end
       end) attrs.

(** ** The class on a store of mutable objects

    The functions above return fresh values.  Python's lists, sets,
    dictionaries, arrays and instances are objects that several names can
    refer to and that are updated in place, so what a call does to the
    objects it was given is read off a second embedding, in which every
    such object lives in a store and every attribute and dictionary entry
    is a reference.  Strings and integers are immutable and stay values. *)

Module Store.

Abbreviation loc := nat.

Inductive obj : Type :=
| ONdarray (a : list Z)
| OSet (s : gset Z)
| OList (l : list string)
| OSegments (d : list (string * string))
| OAttrs (d : list (string * loc))
| OInstance (text_input ws attrs : loc).

(** Allocation appends, so a reference is an index into the store. *)
Abbreviation heap := (list obj).

(** A computation reads and updates the store; an exception leaves the
    store as it is when it is raised. *)
Definition M (A : Type) : Type := heap -> result A * heap.

#[global] Instance M_ret : MRet M := fun A a h => (Ok a, h).
#[global] Instance M_bind : MBind M := fun A B k m h =>
  match m h with
  | (Ok a, h') => k a h'
  | (Raise e, h') => (Raise e, h')
  end.

Definition raise {A : Type} (e : exn) : M A := fun h => (Raise e, h).

Definition lift {A : Type} (r : result A) : M A := fun h => (r, h).

Definition alloc (o : obj) : M loc := fun h => (Ok (length h), (h ++ [o])%list).

(** A reference always denotes an object in Python; a reference outside
    the store is refused like an object of the wrong kind. *)
Definition read (l : loc) : M obj := fun h =>
  match h !! l with
  | Some o => (Ok o, h)
  | None => (Raise TypeError, h)
  end.

Definition write (l : loc) (o : obj) : M unit := fun h => (Ok tt, <[l:=o]> h).

Definition read_array (l : loc) : M (list Z) :=
  o ← read l; match o with ONdarray a => mret a | _ => raise TypeError end.
Definition read_set (l : loc) : M (gset Z) :=
  o ← read l; match o with OSet s => mret s | _ => raise TypeError end.
Definition read_list (l : loc) : M (list string) :=
  o ← read l; match o with OList ws => mret ws | _ => raise TypeError end.
Definition read_segments (l : loc) : M (list (string * string)) :=
  o ← read l; match o with OSegments d => mret d | _ => raise TypeError end.
Definition read_attrs (l : loc) : M (list (string * loc)) :=
  o ← read l; match o with OAttrs d => mret d | _ => raise TypeError end.
Definition read_instance (l : loc) : M (loc * loc * loc) :=
  o ← read l;
  match o with OInstance ti ws attrs => mret (ti, ws, attrs) | _ => raise TypeError end.

(** [d[k]] *)
Definition attrs_get (d : loc) (k : string) : M loc :=
  dd ← read_attrs d;
  match dict_get k dd with
  | Some l => mret l
  | None => raise KeyError
  end.

(** [d[k] = l] *)
Definition attrs_set (d : loc) (k : string) (l : loc) : M unit :=
  dd ← read_attrs d; write d (OAttrs (dict_set k l dd)).

(** [d.setdefault(k, l)] *)
Definition attrs_setdefault (d : loc) (k : string) (l : loc) : M unit :=
  dd ← read_attrs d; write d (OAttrs (dict_setdefault k l dd)).

Inductive text_input_arg : Type :=
| InStr (s : string)
| InOrderedDict (d : loc)
| InOther.

Inductive attack_attrs_arg : Type :=
| AttrsNone
| AttrsDict (d : loc)
| AttrsOther.

Section Engine.

Variable words_from_text : string -> list string.

(** [AttackedText.__init__]: [attack_attrs] is kept by reference, and
    [setdefault] updates that very dictionary. *)
Definition init (text_input : text_input_arg) (attrs : attack_attrs_arg)
  : M loc :=
  d0 ← match text_input with
       | InStr s => alloc (OSegments [("text", s)])
       | InOrderedDict d => mret d
       | InOther => raise TypeError
       end;
  segments ← read_segments d0;
  let stripped := (fun kv : string * string => (kv.1, Py.strip kv.2)) <$> segments in
  ti ← alloc (OSegments stripped);
  let ws := words_from_text (Py.join newline (dict_values stripped)) in
  wl ← alloc (OList ws);
  d ← match attrs with
      | AttrsNone => alloc (OAttrs [])
      | AttrsDict d => _ ← read_attrs d; mret d
      | AttrsOther => raise TypeError
      end;
  arange ← alloc (ONdarray (Py.arange (length ws)));
  _ ← attrs_setdefault d "original_index_map" arange;
  empty ← alloc (OSet ∅);
  _ ← attrs_setdefault d "modified_indices" empty;
  alloc (OInstance ti wl d).

(** [new_attack_attrs[k].add(new_i)] *)
Definition attrs_set_add (d : loc) (k : string) (x : Z) : M unit :=
  l ← attrs_get d k;
  s ← read_set l;
  write l (OSet ({[x]} ∪ s)).

(** [for j in range(i, i + adv_num_words)] *)
Fixpoint mark_new_words (d : loc) (n : nat) (changed : bool) (new_i : Z)
  : M Z :=
  match n with
  | O => mret new_i
  | S k =>
      _ ← (if changed
           then _ ← attrs_set_add d "modified_indices" new_i;
                attrs_set_add d "newly_modified_indices" new_i
           else mret tt);
      mark_new_words d k changed (new_i + 1)
  end.

(** The block under [if num_words_diff != 0]. *)
Definition shift_bookkeeping (d : loc) (i num_words_diff : Z) : M unit :=
  ml ← attrs_get d "modified_indices";
  m ← read_set ml;
  shifted ← alloc (OSet (shift_modified_indices i num_words_diff m));
  _ ← attrs_set d "modified_indices" shifted;
  al ← attrs_get d "original_index_map";
  a ← read_array al;
  new_idx_map ← alloc (ONdarray a);
  _ ← (if num_words_diff =? -1
       then a1 ← read_array new_idx_map;
            write new_idx_map (ONdarray (masked (fun x => x =? i) (fun _ => -1) a1))
       else mret tt);
  a2 ← read_array new_idx_map;
  _ ← write new_idx_map
        (ONdarray (masked (fun x => i <? x) (fun x => x + num_words_diff) a2));
  attrs_set d "original_index_map" new_idx_map.

(** One iteration of the loop of [replace_new_words]; the strings and
    the counter are locals, the bookkeeping is reached through the
    dictionary [d]. *)
Definition rewrite_step (d : loc) (i : nat) (input_word adv_word_seq : string)
    (st : string * string * Z) : M (string * string * Z) :=
  let '(perturbed_text, original_text, new_i) := st in
  word_start ← lift (Py.index original_text input_word);
  let word_end := (word_start + Py.len input_word)%nat in
  let perturbed_text := perturbed_text +:+ Py.take word_start original_text in
  let original_text := Py.drop word_end original_text in
  let adv_num_words := length (words_from_text adv_word_seq) in
  let num_words_diff :=
    Z.of_nat adv_num_words - Z.of_nat (length (words_from_text input_word)) in
  _ ← (if negb (num_words_diff =? 0)
       then shift_bookkeeping d (Z.of_nat i) num_words_diff
       else mret tt);
  new_i ← mark_new_words d adv_num_words
            (negb (String.eqb input_word adv_word_seq)) new_i;
  '(perturbed_text, original_text) ←
    lift (if (adv_num_words =? 0)%nat
          then drop_deletion_space i perturbed_text original_text
          else Ok (perturbed_text, original_text));
  mret (perturbed_text +:+ adv_word_seq, original_text, new_i).

Fixpoint rewrite_loop (d : loc) (i : nat) (pairs : list (string * string))
    (st : string * string * Z) : M (string * string * Z) :=
  match pairs with
  | [] => mret st
  | (input_word, adv_word_seq) :: rest =>
      st' ← rewrite_step d i input_word adv_word_seq st;
      rewrite_loop d (S i) rest st'
  end.

(** [AttackedText.replace_new_words]; [new_words] is a list object. *)
Definition replace_new_words (self : loc) (new_words : loc) : M loc :=
  '(ti, wl, attrs) ← read_instance self;
  segments ← read_segments ti;
  let original_text := Py.join SPLIT_TOKEN (dict_values segments) in
  d ← alloc (OAttrs []);
  newly ← alloc (OSet ∅);
  _ ← attrs_set d "newly_modified_indices" newly;
  _ ← attrs_set d "previous_attacked_text" self;
  ml ← attrs_get attrs "modified_indices";
  m ← read_set ml;
  m_copy ← alloc (OSet m);
  _ ← attrs_set d "modified_indices" m_copy;
  al ← attrs_get attrs "original_index_map";
  a ← read_array al;
  a_copy ← alloc (ONdarray a);
  _ ← attrs_set d "original_index_map" a_copy;
  ws ← read_list wl;
  nws ← read_list new_words;
  '(perturbed_text, original_text, _) ←
    rewrite_loop d 0 (zip ws nws) ("", original_text, 0);
  let perturbed_text := perturbed_text +:+ original_text in
  let perturbed_input_texts := Py.split perturbed_text SPLIT_TOKEN in
  perturbed_input ←
    alloc (OSegments (zip (dict_keys segments) perturbed_input_texts));
  init (InOrderedDict perturbed_input) (AttrsDict d).

(** The loop of [replace_words_at_indices]; [ws] is the copy
    [self.words[:]], assigned in place. *)
Fixpoint assign_words (edits : list (index_arg * word_arg)) (ws : loc)
  : M unit :=
  match edits with
  | [] => mret tt
  | (i, new_word) :: rest =>
      i ← match i with
          | IdxInt i => mret i
          | IdxConvertible i => mret i
          | IdxOther => raise TypeError
          end;
      new_word ← match new_word with
                 | WordStr s => mret s
                 | WordOther => raise TypeError
                 end;
      l ← read_list ws;
      if (i <? 0) || (Z.of_nat (length l) <? i) then raise ValueError
      else
        l' ← lift (Py.setitem l (Z.to_nat i) new_word);
        _ ← write ws (OList l');
        assign_words rest ws
  end.

(** [AttackedText.replace_words_at_indices] *)
Definition replace_words_at_indices (self : loc)
    (indices : list index_arg) (new_words : list word_arg) : M loc :=
  if negb (length indices =? length new_words)%nat then raise ValueError
  else
    '(_, wl, _) ← read_instance self;
    l ← read_list wl;
    ws ← alloc (OList l);
    _ ← assign_words (zip indices new_words) ws;
    replace_new_words self ws.

End Engine.

(** What a caller sees of an instance: its text, its words, and the two
    bookkeeping fields every instance has. *)
Record view : Type := {
  view_text : string;
  view_words : list string;
  view_original_index_map : list Z;
  view_modified_indices : gset Z
}.

Definition observe (self : loc) : M view :=
  '(ti, wl, attrs) ← read_instance self;
  segments ← read_segments ti;
  ws ← read_list wl;
  al ← attrs_get attrs "original_index_map";
  a ← read_array al;
  ml ← attrs_get attrs "modified_indices";
  m ← read_set ml;
  mret {| view_text := Py.join newline (dict_values segments);
          view_words := ws;
          view_original_index_map := a;
          view_modified_indices := m |}.

(** *** Assertions about stores *)

(** The objects below [n] are what they were, and nothing was freed. *)
Definition stable (n : nat) (h h' : heap) : Prop :=
  (length h <= length h')%nat /\ forall l, (l < n)%nat -> h' !! l = h !! l.

(** From a store of at least [n] objects satisfying [P], the computation
    [m] leaves the objects below [n] alone, whatever its outcome, and
    establishes [Q] when it returns. *)
Definition triple (n : nat) {A : Type} (P : heap -> Prop) (m : M A)
    (Q : A -> heap -> Prop) : Prop :=
  forall h, (n <= length h)%nat -> P h ->
    stable n h (m h).2 /\ forall a, (m h).1 = Ok a -> Q a (m h).2.

(** The dictionary at [d] was allocated after the first [n] objects, and
    so was everything it refers to, the parent instance excepted. *)
Definition own (n : nat) (d : loc) (h : heap) : Prop :=
  (n <= d)%nat /\
  exists dd, h !! d = Some (OAttrs dd) /\
    forall k l, dict_get k dd = Some l -> k <> "previous_attacked_text" ->
                (n <= l)%nat.

(** The object at [l] is the instance [s], with all it refers to. *)
Fixpoint repr (h : heap) (s : AttackedText) (l : loc) {struct s} : Prop :=
  let 'Build_AttackedText ti ws attrs := s in
  exists (lti lws lattrs : loc) (dd : list (string * loc)),
    h !! l = Some (OInstance lti lws lattrs) /\
    h !! lti = Some (OSegments ti) /\
    h !! lws = Some (OList ws) /\
    h !! lattrs = Some (OAttrs dd) /\
    (fix entries (attrs : list (string * attr)) (dd : list (string * loc))
       {struct attrs} : Prop :=
       match attrs, dd with
       | [], [] => True
       | (k, v) :: attrs', (k', lv) :: dd' =>
           k = k' /\
           match v with
           | Ndarray a => h !! lv = Some (ONdarray a)
           | PySet s => h !! lv = Some (OSet s)
           | Instance_ t => repr h t lv
           end /\
           entries attrs' dd'
       | _, _ => False
       end) attrs dd.

(** The object at [lv] is the value [v]. *)
Definition value_repr (h : heap) (v : attr) (lv : loc) : Prop :=
  match v with
  | Ndarray a => h !! lv = Some (ONdarray a)
  | PySet s => h !! lv = Some (OSet s)
  | Instance_ t => repr h t lv
  end.

(** The dictionary of references [dd] is the dictionary of values [attrs]. *)
Fixpoint attrs_repr (h : heap) (attrs : list (string * attr))
    (dd : list (string * loc)) {struct attrs} : Prop :=
  match attrs, dd with
  | [], [] => True
  | (k, v) :: attrs', (k', lv) :: dd' =>
      k = k' /\ value_repr h v lv /\ attrs_repr h attrs' dd'
  | _, _ => False
  end.

(** The bookkeeping a rewrite is building: the dictionary [d] with its
    four entries, and the set and array objects they refer to, all
    allocated after the first [n] objects. *)
Definition book (n : nat) (self d : loc) (h : heap)
    (m nw : gset Z) (a : list Z) : Prop :=
  exists lm lnw la : loc,
    h !! d = Some (OAttrs [("newly_modified_indices", lnw);
                           ("previous_attacked_text", self);
                           ("modified_indices", lm);
                           ("original_index_map", la)]) /\
    h !! lm = Some (OSet m) /\
    h !! lnw = Some (OSet nw) /\
    h !! la = Some (ONdarray a) /\
    lm <> lnw /\
    (n <= d)%nat /\ (n <= lm)%nat /\ (n <= lnw)%nat /\ (n <= la)%nat.

(** The segments as [__init__] keeps them. *)
Definition strip_segments (segs : list (string * string)) : list (string * string) :=
  (fun kv : string * string => (kv.1, Py.strip kv.2)) <$> segs.

(** A computation that only reads returns the same value from any store
    that has at least the same objects. *)
Definition reads_only {A : Type} (m : M A) : Prop :=
  forall h h' a,
    (forall l o, h !! l = Some o -> h' !! l = Some o) ->
    (m h).1 = Ok a -> (m h).2 = h /\ m h' = (Ok a, h').

End Store.

(** ** Instances and predicates the properties are stated on *)

(** A tokenizer agrees with a table of texts and their words. *)
Definition tokenizes (words_from_text : string -> list string)
    (table : list (string * list string)) : Prop :=
  Forall (fun row : string * list string => words_from_text row.1 = row.2) table.

(** The tokenizer a table defines; a text outside the table has no words. *)
Definition table_tokenizer (table : list (string * list string)) (s : string)
  : list string :=
  default [] (dict_get s table).

(** The root instance of ["The quick fox jumps."]. *)
Definition fox (words_from_text : string -> list string) : result AttackedText :=
  init words_from_text (InStr "The quick fox jumps.") AttrsNone.

Definition fox_root : AttackedText :=
  Build_AttackedText [("text", "The quick fox jumps.")]
    ["The"; "quick"; "fox"; "jumps"]
    [("original_index_map", Ndarray [0; 1; 2; 3]);
     ("modified_indices", PySet ∅)].

Definition fox_words : list (string * list string) :=
  [("The quick fox jumps.", ["The"; "quick"; "fox"; "jumps"]);
   ("The", ["The"]); ("quick", ["quick"]); ("fox", ["fox"]);
   ("jumps", ["jumps"])].

Definition very_slow_words : list (string * list string) :=
  (fox_words ++
   [("very slow", ["very"; "slow"]);
    ("The very slow fox jumps.", ["The"; "very"; "slow"; "fox"; "jumps"])])%list.

Definition deletion_words : list (string * list string) :=
  (fox_words ++
   [("", []); ("The fox jumps.", ["The"; "fox"; "jumps"])])%list.

(** The words are found one after the other, as the loop of
    [replace_new_words] looks for them. *)
Fixpoint located (t : string) (ws : list string) : bool :=
  match ws with
  | [] => true
  | w :: ws' =>
      match Py.find0 w t with
      | Some k => located (Py.drop (k + Py.len w) t) ws'
      | None => false
      end
  end.

(** [s] descends from the root instance [root] by rewrites. *)
Inductive lineage (words_from_text : string -> list string)
  : AttackedText -> AttackedText -> Prop :=
| lineage_root (ti : text_input_arg) (root : AttackedText) :
    init words_from_text ti AttrsNone = Ok root ->
    lineage words_from_text root root
| lineage_new_words (root s s' : AttackedText) (new_words : list string) :
    lineage words_from_text root s ->
    replace_new_words words_from_text s new_words = Ok s' ->
    lineage words_from_text root s'
| lineage_at_indices (root s s' : AttackedText)
    (indices : list index_arg) (new_words : list word_arg) :
    lineage words_from_text root s ->
    replace_words_at_indices words_from_text s indices new_words = Ok s' ->
    lineage words_from_text root s'.

(** Two word sequences differ at some index both have. *)
Definition differ_at (w1 w2 : list string) : Prop :=
  exists (i : nat) (x y : string), w1 !! i = Some x /\ w2 !! i = Some y /\ x <> y.

(** The edit list that replaces every word by itself. *)
Definition identity_indices (ws : list string) : list index_arg :=
  (fun i : nat => IdxInt (Z.of_nat i)) <$> seq 0 (length ws).

Definition identity_words (ws : list string) : list word_arg :=
  WordStr <$> ws.

(** The store after constructing the root instance of
    ["The quick fox jumps."] in an empty store; the instance is object 6. *)
Definition fox_store : list Store.obj :=
  (Store.init Tokenizer.words_from_text
     (Store.InStr "The quick fox jumps.") Store.AttrsNone []).2.

Definition fox_loc : nat := 6%nat.

(** ** The other queries of the class *)

(** [AttackedText.text_until_word_index] *)
Definition text_until_word_index (self : AttackedText) (i : Z) : string :=
  let look_after_index := _text_index_of_word_index self i in
  Py.slice (text self) 0 look_after_index.

(** [AttackedText.text_after_word_index] *)
Definition text_after_word_index (self : AttackedText) (i : Z) : result string :=
  let idx := _text_index_of_word_index self i in
  word ← Py.getitem (words self) i;
  let look_after_index := idx + Z.of_nat (Py.len word) in
  Ok (Py.slice (text self) look_after_index (Z.of_nat (Py.len (text self)))).

(** The loop of [first_word_diff_index]: [Some i] is [return i]. *)
Fixpoint first_word_diff_index_loop (i : nat) (rest1 rest2 : list string)
  : option nat :=
  match rest1, rest2 with
  | a :: rest1', b :: rest2' =>
      if negb (String.eqb a b) then Some i
      else first_word_diff_index_loop (S i) rest1' rest2'
  | _, _ => None
  end.

(** [AttackedText.first_word_diff_index] *)
Definition first_word_diff_index (self other_attacked_text : AttackedText)
  : option nat :=
  first_word_diff_index_loop 0 (words self) (words other_attacked_text).

(** The loop of [all_words_diff], adding to the set [indices]. *)
Fixpoint all_words_diff_loop (i : nat) (rest1 rest2 : list string)
    (indices : gset Z) : gset Z :=
  match rest1, rest2 with
  | a :: rest1', b :: rest2' =>
      all_words_diff_loop (S i) rest1' rest2'
        (if negb (String.eqb a b) then {[Z.of_nat i]} ∪ indices else indices)
  | _, _ => indices
  end.

(** [AttackedText.all_words_diff] *)
Definition all_words_diff (self other_attacked_text : AttackedText) : gset Z :=
  all_words_diff_loop 0 (words self) (words other_attacked_text) ∅.

(** [AttackedText.ith_word_diff] *)
Definition ith_word_diff (self other_attacked_text : AttackedText) (i : Z)
  : result bool :=
  let w1 := words self in
  let w2 := words other_attacked_text in
  if (Z.of_nat (length w1) - 1 <? i) || (Z.of_nat (length w2) - 1 <? i)
  then Ok true
  else
    a ← Py.getitem w1 i;
    b ← Py.getitem w2 i;
    Ok (negb (String.eqb a b)).

(** What a caller may pass as [idxs] to [convert_from_original_idxs], and
    what the method returns: the list it builds, or its argument. *)
Inductive idxs_arg : Type :=
| IdxsSet (s : gset Z)
| IdxsList (l : list Z)
| IdxsArray (l : list Z)
| IdxsTensor (l : list Z)
| IdxsOther.

Section Conversions.

(** [list(idxs)] on a set: the order in which Python enumerates it. *)
Variable list_of_set : gset Z -> list Z.

(** [hash] on strings. *)
Variable hash : string -> Z.

(** [AttackedText.convert_from_original_idxs].  [torch.tensor(idxs)] keeps
    the values of indices within [int64]; for an index outside it raises
    before anything is looked up, which is not modelled here. *)
Definition convert_from_original_idxs (self : AttackedText) (idxs : idxs_arg)
  : result idxs_arg :=
  index_map ← attr_array (attack_attrs self) "original_index_map";
  if (length index_map =? 0)%nat then Ok idxs
  else
    idxs ← match idxs with
           | IdxsSet s => Ok (list_of_set s)
           | IdxsList l => Ok l
           | IdxsArray l => Ok l
           | IdxsTensor l => Ok l
           | IdxsOther => Raise TypeError
           end;
    converted ← mapM (fun i => Py.getitem index_map i) idxs;
    Ok (IdxsList converted).

(** [AttackedText.__hash__] *)
Definition AttackedText_hash (self : AttackedText) : Z := hash (text self).

End Conversions.

(** ** More predicates the properties are stated on *)

(** The integers from [start], [n] of them. *)
Definition range_set (start : Z) (n : nat) : gset Z :=
  list_to_set ((fun k : nat => start + Z.of_nat k) <$> seq 0 n).

(** The number of words the tokenizer counts in the first [i] words. *)
Definition words_before (words_from_text : string -> list string)
    (ws : list string) (i : nat) : nat :=
  sum_list ((fun w => length (words_from_text w)) <$> take i ws).

(** Integers up to this bound, and the halves and sums the window
    computation forms from two of them, are floats without rounding. *)
Definition float_exact : Z := 2 ^ 51.

(** The integers a 64-bit tensor holds. *)
Definition int64 (x : Z) : Prop := - 2 ^ 63 <= x < 2 ^ 63.


(** An instance whose second original word was deleted, and the instance
    a rewrite of it by its own words returns. *)
Definition after_deletion : AttackedText :=
  Build_AttackedText [("text", "a c")] ["a"; "c"]
    [("original_index_map", Ndarray [0; -1; 1]);
     ("modified_indices", PySet ∅)].

Definition after_deletion_again : AttackedText :=
  Build_AttackedText [("text", "a c")] ["a"; "c"]
    [("newly_modified_indices", PySet ∅);
     ("previous_attacked_text", Instance_ after_deletion);
     ("modified_indices", PySet ∅);
     ("original_index_map", Ndarray [0; -1; 1])].

(** * Properties *)

(** ** Results *)

Lemma bind_Ok {A B : Type} (m : result A) (k : A -> result B) (b : B) :
  (m ≫= k) = Ok b -> exists a, m = Ok a /\ k a = Ok b.
Proof. destruct m as [a|e]; simpl; [eauto | discriminate]. Qed.

(** ** Strings *)

Lemma append_cons (c : ascii) (s t : string) :
  String c s +:+ t = String c (s +:+ t).
Proof. reflexivity. Qed.

Lemma append_nil (t : string) : "" +:+ t = t.
Proof. reflexivity. Qed.

Lemma append_empty_r (s : string) : s +:+ "" = s.
Proof.
  induction s as [|c s IH]; [reflexivity|]. now rewrite append_cons, IH.
Qed.

Lemma append_assoc (a b c : string) : (a +:+ b) +:+ c = a +:+ (b +:+ c).
Proof.
  induction a as [|x a IH]; [reflexivity|]. now rewrite !append_cons, IH.
Qed.

Lemma take_drop (n : nat) (s : string) : Py.take n s +:+ Py.drop n s = s.
Proof.
  revert s; induction n as [|n IH]; intros [|c s]; simpl; try reflexivity.
  now rewrite append_cons, IH.
Qed.

Lemma drop_drop (n m : nat) (s : string) :
  Py.drop m (Py.drop n s) = Py.drop (n + m) s.
Proof.
  revert s; induction n as [|n IH]; intros s; simpl; [reflexivity|].
  destruct s as [|c s]; [now destruct m | apply IH].
Qed.

Lemma startswith_spec (p s : string) :
  Py.startswith p s = true -> s = p +:+ Py.drop (Py.len p) s.
Proof.
  revert s; induction p as [|a p IH]; intros s H; simpl in *; [reflexivity|].
  destruct s as [|b s]; [discriminate|].
  destruct (Ascii.eqb a b) eqn:E; [|discriminate].
  apply Ascii.eqb_eq in E; subst b. rewrite append_cons. f_equal. now apply IH.
Qed.

(** Where [index] finds the word, the text is what precedes it, the word,
    and what follows it. *)
Lemma find0_spec (w s : string) (k : nat) :
  Py.find0 w s = Some k ->
  s = Py.take k s +:+ w +:+ Py.drop (k + Py.len w) s.
Proof.
  revert k; induction s as [|c s IH]; intros k; simpl.
  - destruct (Py.startswith w "") eqn:E; [|discriminate].
    intros [= <-]. now apply startswith_spec in E.
  - destruct (Py.startswith w (String c s)) eqn:E.
    + intros [= <-]. now apply startswith_spec in E.
    + destruct (Py.find0 w s) as [j|] eqn:F; [|discriminate].
      simpl. intros [= <-]. simpl. rewrite append_cons. f_equal. now apply IH.
Qed.

(** ** Dictionaries *)

Lemma dict_get_set {V : Type} (k k' : string) (v : V) (d : list (string * V)) :
  dict_get k' (dict_set k v d) = if String.eqb k' k then Some v else dict_get k' d.
Proof.
  induction d as [|[k0 v0] d IH]; simpl.
  - reflexivity.
  - destruct (String.eqb_spec k k0) as [->|Hne]; simpl.
    + now destruct (String.eqb k' k0).
    + rewrite IH. destruct (String.eqb_spec k' k0) as [->|Hne'].
      * destruct (String.eqb_spec k0 k); [congruence | reflexivity].
      * reflexivity.
Qed.

Lemma dict_get_setdefault {V : Type} (k k' : string) (v : V) (d : list (string * V)) :
  dict_get k' (dict_setdefault k v d) =
    match dict_get k' d with
    | Some x => Some x
    | None => if String.eqb k' k then Some v else None
    end.
Proof.
  unfold dict_setdefault. destruct (dict_get k d) as [x|] eqn:E.
  - destruct (dict_get k' d) eqn:E'; [reflexivity|].
    destruct (String.eqb_spec k' k) as [->|]; [congruence | reflexivity].
  - rewrite dict_get_set. destruct (String.eqb_spec k' k) as [->|].
    + now rewrite E.
    + now destruct (dict_get k' d).
Qed.

(** ** Whitespace *)

Lemma lstrip_head (s : string) :
  match Py.lstrip s with
  | EmptyString => True
  | String c _ => Py.isspace c = false
  end.
Proof.
  induction s as [|c s IH]; simpl; [exact I|].
  destruct (Py.isspace c) eqn:E; [exact IH | exact E].
Qed.

Lemma rstrip_idem (s : string) : Py.rstrip (Py.rstrip s) = Py.rstrip s.
Proof.
  induction s as [|c s IH]; simpl; [reflexivity|].
  destruct (Py.rstrip s) as [|d r] eqn:E.
  - destruct (Py.isspace c) eqn:Ec; simpl; [reflexivity | now rewrite Ec].
  - simpl in *. now rewrite IH.
Qed.

Lemma lstrip_rstrip (s : string) :
  match s with
  | EmptyString => True
  | String c _ => Py.isspace c = false
  end ->
  Py.lstrip (Py.rstrip s) = Py.rstrip s.
Proof.
  destruct s as [|c s]; simpl; [reflexivity|]. intros Hc.
  destruct (Py.rstrip s); rewrite ?Hc; simpl; now rewrite Hc.
Qed.

(** [strip] is idempotent, so the segments of an instance are fixed by it. *)
Lemma strip_idem (s : string) : Py.strip (Py.strip s) = Py.strip s.
Proof.
  unfold Py.strip. rewrite (lstrip_rstrip _ (lstrip_head s)). apply rstrip_idem.
Qed.

Lemma stripped_fixed (d : list (string * string)) :
  Forall (fun kv : string * string => Py.strip kv.2 = kv.2) d ->
  (fun kv : string * string => (kv.1, Py.strip kv.2)) <$> d = d.
Proof.
  induction 1 as [|[k v] d Hv _ IH]; [reflexivity|].
  rewrite fmap_cons, IH. simpl in *. now rewrite Hv.
Qed.

(** ** The engine asks the tokenizer about few texts *)

Section Ext.
Variables f g : string -> list string.

Lemma rewrite_step_ext i w r st :
  f w = g w -> f r = g r -> rewrite_step f i w r st = rewrite_step g i w r st.
Proof. intros Hw Hr. unfold rewrite_step. now rewrite Hw, Hr. Qed.

Lemma rewrite_loop_ext pairs : forall i st,
  Forall (fun p : string * string => f p.1 = g p.1 /\ f p.2 = g p.2) pairs ->
  rewrite_loop f i pairs st = rewrite_loop g i pairs st.
Proof.
  induction pairs as [|[w r] pairs IH]; intros i st H; [reflexivity|].
  apply Forall_cons in H as [[Hw Hr] H]. simpl in *.
  rewrite (rewrite_step_ext i w r st Hw Hr).
  destruct (rewrite_step g i w r st); simpl; [now apply IH | reflexivity].
Qed.

Lemma init_ext ti attrs s :
  init g ti attrs = Ok s -> f (text s) = g (text s) -> init f ti attrs = Ok s.
Proof.
  unfold init. destruct ti as [x|d|]; simpl; try discriminate;
    destruct attrs as [|a|]; simpl; try discriminate;
    intros [= <-]; unfold text; simpl; intros ->; reflexivity.
Qed.

(** Two tokenizers that agree on the words of the instance, on the
    replacements and on the rebuilt text give the same rewrite. *)
Lemma replace_new_words_ext self new_words s' :
  Forall (fun p : string * string => f p.1 = g p.1 /\ f p.2 = g p.2)
         (zip (words self) new_words) ->
  replace_new_words g self new_words = Ok s' ->
  f (text s') = g (text s') ->
  replace_new_words f self new_words = Ok s'.
Proof.
  intros H. unfold replace_new_words.
  destruct (attr_set _ _); simpl; [|discriminate].
  destruct (attr_array _ _); simpl; [|discriminate].
  rewrite (rewrite_loop_ext _ _ _ H).
  destruct (rewrite_loop g _ _ _); simpl; [|discriminate].
  apply init_ext.
Qed.
End Ext.

Ltac split_table H :=
  unfold tokenizes in H; simpl in H;
  repeat (apply Forall_cons in H; destruct H as [? H]); clear H; simpl in *.

Ltac table_eq :=
  match goal with
  | |- ?f ?a = ?g ?b =>
      let a' := eval vm_compute in a in change (f a' = g a')
  end;
  match goal with
  | E : ?f ?s = _ |- ?f ?s = _ => rewrite E; vm_compute; reflexivity
  end.

Ltac table_all :=
  match goal with
  | |- Forall ?P ?l => let l' := eval vm_compute in l in change (Forall P l')
  end;
  repeat (constructor; [simpl; split; table_eq|]); constructor.

Lemma fox_eval (wft : string -> list string) :
  tokenizes wft fox_words -> fox wft = Ok fox_root.
Proof.
  intros H. split_table H.
  apply (init_ext wft (table_tokenizer fox_words)); [vm_compute; reflexivity|].
  table_eq.
Qed.

(** ** The bookkeeping of the loop *)

Lemma mark_new_words_locals n c st :
  perturbed_text (mark_new_words n c st) = perturbed_text st /\
  original_text (mark_new_words n c st) = original_text st /\
  original_index_map (mark_new_words n c st) = original_index_map st /\
  new_i (mark_new_words n c st) = new_i st + Z.of_nat n.
Proof.
  revert st; induction n as [|n IH]; intros st.
  - simpl. repeat split; lia.
  - cbn [mark_new_words].
    match goal with
    | |- context [mark_new_words n c ?s] => destruct (IH s) as (-> & -> & -> & ->)
    end.
    destruct c; simpl; repeat split; lia.
Qed.

Lemma mark_new_words_unchanged n st :
  modified_indices (mark_new_words n false st) = modified_indices st /\
  newly_modified_indices (mark_new_words n false st) = newly_modified_indices st.
Proof.
  revert st; induction n as [|n IH]; intros st; [now split|].
  cbn [mark_new_words].
  match goal with
  | |- context [mark_new_words n false ?s] => destruct (IH s) as (-> & ->)
  end.
  now split.
Qed.

Lemma masked_length mask f a : length (masked mask f a) = length a.
Proof. unfold masked. apply length_fmap. Qed.

Lemma shift_index_map_length i d a : length (shift_index_map i d a) = length a.
Proof.
  unfold shift_index_map. rewrite masked_length.
  destruct (d =? -1); [apply masked_length | reflexivity].
Qed.

(** After a deletion at [i] the entry [i] is [-1] and the later ones move
    down by one. *)
Lemma shift_index_map_deletion (i : Z) (a : list Z) :
  0 <= i ->
  shift_index_map i (-1) a =
    (fun x => if x =? i then -1 else if i <? x then x - 1 else x) <$> a.
Proof.
  intros Hi. unfold shift_index_map, masked. simpl.
  rewrite <- list_fmap_compose. apply list_fmap_ext. intros _ x _. simpl.
  destruct (Z.eqb_spec x i) as [->|Hne].
  - destruct (Z.ltb_spec i (-1)); [lia | reflexivity].
  - destruct (Z.ltb_spec i x); reflexivity.
Qed.

(** The shifted set: the indices below [i], and those above it moved. *)
Lemma shift_modified_indices_spec i d (m : gset Z) x :
  x ∈ shift_modified_indices i d m <->
  (x ∈ m /\ x < i) \/ (exists y, y ∈ m /\ i < y /\ x = y + d).
Proof.
  unfold shift_modified_indices.
  apply (set_fold_ind_L (fun (r : gset Z) (X : gset Z) =>
           x ∈ r <-> (x ∈ X /\ x < i) \/ (exists y, y ∈ X /\ i < y /\ x = y + d))).
  - set_solver.
  - intros y X r Hy IH.
    destruct (Z.ltb_spec y i); [|destruct (Z.ltb_spec i y)];
      set_unfold; rewrite ?IH; naive_solver lia.
Qed.

Lemma arange_length n : length (Py.arange n) = n.
Proof. unfold Py.arange. now rewrite length_fmap, length_seq. Qed.

Lemma zip_insert_middle (ws : list string) (i : nat) (w r : string) :
  ws !! i = Some w ->
  zip ws (<[i:=r]> ws) =
    (((fun x => (x, x)) <$> take i ws) ++ (w, r) ::
     ((fun x => (x, x)) <$> drop (S i) ws))%list.
Proof.
  intros H.
  assert (Hlt : (i < length ws)%nat) by (eapply lookup_lt_Some; eauto).
  rewrite insert_take_drop by exact Hlt.
  rewrite <- (take_drop_middle ws i w H) at 1.
  rewrite zip_with_app by reflexivity. simpl.
  now rewrite !zip_diag.
Qed.

Section Loop.
Variable wft : string -> list string.

Lemma rewrite_step_index_map i w r st st' :
  rewrite_step wft i w r st = Ok st' ->
  let diff := Z.of_nat (length (wft r)) - Z.of_nat (length (wft w)) in
  original_index_map st' =
    if negb (diff =? 0)
    then shift_index_map (Z.of_nat i) diff (original_index_map st)
    else original_index_map st.
Proof.
  unfold rewrite_step. intros H.
  apply bind_Ok in H as (k & _ & H).
  apply bind_Ok in H as ([p o] & _ & H). simpl in H.
  injection H as <-. simpl.
  match goal with
  | |- context [mark_new_words ?n ?c ?s] =>
      destruct (mark_new_words_locals n c s) as (_ & _ & -> & _)
  end.
  reflexivity.
Qed.

(** A word replaced by itself changes no bookkeeping. *)
Lemma rewrite_step_identity i w st st' :
  rewrite_step wft i w w st = Ok st' ->
  modified_indices st' = modified_indices st /\
  newly_modified_indices st' = newly_modified_indices st /\
  original_index_map st' = original_index_map st.
Proof.
  intros H. pose proof (rewrite_step_index_map _ _ _ _ _ H) as Hmap.
  simpl in Hmap. rewrite Z.sub_diag in Hmap. simpl in Hmap.
  split; [|split; [|exact Hmap]]; clear Hmap;
  unfold rewrite_step in H;
  apply bind_Ok in H as (k & _ & H);
  apply bind_Ok in H as ([p o] & _ & H); simpl in H;
  injection H as <-; simpl;
  rewrite String.eqb_refl, Z.sub_diag; simpl;
  match goal with
  | |- context [mark_new_words ?n false ?s] =>
      destruct (mark_new_words_unchanged n s) as (E1 & E2); rewrite ?E1, ?E2
  end; reflexivity.
Qed.

(** A word replaced by a text without words marks no position. *)
Lemma rewrite_step_no_words i w r st st' :
  wft r = [] ->
  rewrite_step wft i w r st = Ok st' ->
  let diff := - Z.of_nat (length (wft w)) in
  modified_indices st' =
    (if negb (diff =? 0)
     then shift_modified_indices (Z.of_nat i) diff (modified_indices st)
     else modified_indices st) /\
  newly_modified_indices st' = newly_modified_indices st /\
  original_index_map st' =
    (if negb (diff =? 0)
     then shift_index_map (Z.of_nat i) diff (original_index_map st)
     else original_index_map st).
Proof.
  intros Hr H. pose proof (rewrite_step_index_map _ _ _ _ _ H) as Hmap.
  simpl in Hmap. rewrite Hr in Hmap. simpl in Hmap.
  split; [|split; [|exact Hmap]]; clear Hmap;
  unfold rewrite_step in H;
  apply bind_Ok in H as (k & _ & H);
  apply bind_Ok in H as ([p o] & _ & H); simpl in H;
  injection H as <-; simpl;
  rewrite Hr; reflexivity.
Qed.

Lemma rewrite_loop_app l1 l2 : forall i st,
  rewrite_loop wft i (l1 ++ l2)%list st =
    (st1 ← rewrite_loop wft i l1 st; rewrite_loop wft (i + length l1) l2 st1).
Proof.
  induction l1 as [|[w r] l1 IH]; intros i st; simpl.
  - now rewrite Nat.add_0_r.
  - destruct (rewrite_step wft i w r st) as [st1|e]; simpl; [|reflexivity].
    rewrite IH. now replace (S i + length l1)%nat with (i + S (length l1))%nat by lia.
Qed.

Lemma rewrite_loop_index_map_length pairs : forall i st st',
  rewrite_loop wft i pairs st = Ok st' ->
  length (original_index_map st') = length (original_index_map st).
Proof.
  induction pairs as [|[w r] pairs IH]; intros i st st' H; simpl in H.
  - now injection H as <-.
  - apply bind_Ok in H as (st1 & H1 & H).
    rewrite (IH _ _ _ H), (rewrite_step_index_map _ _ _ _ _ H1).
    simpl. destruct (negb _); [apply shift_index_map_length | reflexivity].
Qed.

Lemma rewrite_loop_identity ws : forall i st st',
  rewrite_loop wft i ((fun w => (w, w)) <$> ws) st = Ok st' ->
  modified_indices st' = modified_indices st /\
  newly_modified_indices st' = newly_modified_indices st /\
  original_index_map st' = original_index_map st.
Proof.
  induction ws as [|w ws IH]; intros i st st' H; simpl in H.
  - now injection H as <-.
  - apply bind_Ok in H as (st1 & H1 & H).
    destruct (IH _ _ _ H) as (-> & -> & ->).
    now apply rewrite_step_identity in H1.
Qed.

(** Where the word is found and has words of its own, replacing it by
    itself succeeds and rebuilds the text read so far. *)
Lemma rewrite_step_identity_text i w st k :
  Py.find0 w (original_text st) = Some k ->
  wft w <> [] ->
  exists st',
    rewrite_step wft i w w st = Ok st' /\
    original_text st' = Py.drop (k + Py.len w) (original_text st) /\
    perturbed_text st' +:+ original_text st'
      = perturbed_text st +:+ original_text st.
Proof.
  intros Hk Hw. unfold rewrite_step, Py.index.
  rewrite Hk, String.eqb_refl. simpl.
  destruct (wft w) as [|x l] eqn:E; [congruence|].
  cbn [length Nat.eqb].
  eexists. split; [reflexivity|]. cbn [perturbed_text original_text].
  match goal with
  | |- context [mark_new_words ?n ?c ?s] =>
      destruct (mark_new_words_locals n c s) as (-> & -> & _ & _)
  end.
  simpl. split; [reflexivity|].
  rewrite !append_assoc. f_equal. symmetry. now apply find0_spec.
Qed.

Lemma rewrite_loop_identity_text ws : forall i st,
  located (original_text st) ws = true ->
  Forall (fun w => wft w <> []) ws ->
  exists st',
    rewrite_loop wft i ((fun w => (w, w)) <$> ws) st = Ok st' /\
    perturbed_text st' +:+ original_text st'
      = perturbed_text st +:+ original_text st.
Proof.
  induction ws as [|w ws IH]; intros i st Hloc Hne.
  - eexists. split; reflexivity.
  - simpl in Hloc. destruct (Py.find0 w (original_text st)) as [k|] eqn:Hk;
      [|discriminate].
    apply Forall_cons in Hne as [Hw Hne].
    destruct (rewrite_step_identity_text i w st k Hk Hw) as (st1 & H1 & Ho & Ht).
    rewrite <- Ho in Hloc.
    destruct (IH (S i) st1 Hloc Hne) as (st' & H' & Ht').
    exists st'. split; [|now rewrite Ht'].
    rewrite fmap_cons. cbn [rewrite_loop]. rewrite H1. exact H'.
Qed.

(** What [replace_new_words] returns, in terms of its loop. *)
Lemma replace_new_words_inv self new_words s' :
  replace_new_words wft self new_words = Ok s' ->
  exists m a st,
    attr_set (attack_attrs self) "modified_indices" = Ok m /\
    attr_array (attack_attrs self) "original_index_map" = Ok a /\
    rewrite_loop wft 0 (zip (words self) new_words)
      {| perturbed_text := "";
         original_text := Py.join SPLIT_TOKEN (dict_values (_text_input self));
         modified_indices := m;
         newly_modified_indices := ∅;
         original_index_map := a;
         new_i := 0 |} = Ok st /\
    _text_input s' =
      (fun kv : string * string => (kv.1, Py.strip kv.2)) <$>
        zip (dict_keys (_text_input self))
            (Py.split (perturbed_text st +:+ original_text st) SPLIT_TOKEN) /\
    words s' = wft (text s') /\
    attack_attrs s' =
      [("newly_modified_indices", PySet (newly_modified_indices st));
       ("previous_attacked_text", Instance_ self);
       ("modified_indices", PySet (modified_indices st));
       ("original_index_map", Ndarray (original_index_map st))].
Proof.
  unfold replace_new_words. intros H.
  apply bind_Ok in H as (m & Hm & H).
  apply bind_Ok in H as (a & Ha & H).
  apply bind_Ok in H as (st & Hst & H).
  exists m, a, st. repeat split; try assumption;
    unfold init in H; simpl in H; injection H as <-; reflexivity.
Qed.

Lemma init_root_index_map ti s :
  init wft ti AttrsNone = Ok s ->
  attr_array (attack_attrs s) "original_index_map"
    = Ok (Py.arange (length (words s))).
Proof.
  unfold init. intros H. apply bind_Ok in H as (d & _ & H).
  simpl in H. injection H as <-. reflexivity.
Qed.

Lemma init_stripped ti attrs s :
  init wft ti attrs = Ok s ->
  Forall (fun kv : string * string => Py.strip kv.2 = kv.2) (_text_input s).
Proof.
  unfold init. intros H.
  apply bind_Ok in H as (d & _ & H). apply bind_Ok in H as (a & _ & H).
  injection H as <-. simpl. apply Forall_fmap, Forall_forall.
  intros [k v] _. apply strip_idem.
Qed.

(** A rewrite returns an index map as long as the one it was given. *)
Lemma replace_new_words_index_map_length self new_words s' :
  replace_new_words wft self new_words = Ok s' ->
  exists a a',
    attr_array (attack_attrs self) "original_index_map" = Ok a /\
    attr_array (attack_attrs s') "original_index_map" = Ok a' /\
    length a' = length a.
Proof.
  intros H.
  apply replace_new_words_inv in H as (m & a & st & _ & Ha & Hst & _ & _ & Hattrs).
  exists a, (original_index_map st). split; [exact Ha|]. split.
  - rewrite Hattrs. reflexivity.
  - now apply rewrite_loop_index_map_length in Hst.
Qed.

Lemma replace_words_at_indices_index_map_length self indices new_words s' :
  replace_words_at_indices wft self indices new_words = Ok s' ->
  exists a a',
    attr_array (attack_attrs self) "original_index_map" = Ok a /\
    attr_array (attack_attrs s') "original_index_map" = Ok a' /\
    length a' = length a.
Proof.
  intros H. unfold replace_words_at_indices in H.
  destruct (negb _); [discriminate|].
  apply bind_Ok in H as (ws & _ & H).
  now apply replace_new_words_index_map_length in H.
Qed.

End Loop.

(** The identity edit list assigns every word to itself. *)
Lemma assign_words_identity_from (suf : list string) : forall pre : list string,
  assign_words
    (zip ((fun i : nat => IdxInt (Z.of_nat i)) <$> seq (length pre) (length suf))
         (WordStr <$> suf))
    (pre ++ suf)%list
  = Ok (pre ++ suf)%list.
Proof.
  induction suf as [|w suf IH]; intros pre; [reflexivity|].
  cbn [length seq fmap list_fmap zip zip_with assign_words mbind result_bind].
  destruct (Z.ltb_spec (Z.of_nat (length pre)) 0); [lia|].
  destruct (Z.ltb_spec (Z.of_nat (length (pre ++ w :: suf)%list)) (Z.of_nat (length pre))).
  { rewrite length_app in *. simpl in *. lia. }
  simpl. unfold Py.setitem. rewrite Nat2Z.id.
  destruct (Nat.ltb_spec (length pre) (length (pre ++ w :: suf)%list)).
  2:{ rewrite length_app in *. simpl in *. lia. }
  simpl. rewrite list_insert_id by (now rewrite list_lookup_middle).
  specialize (IH (pre ++ [w])%list).
  rewrite length_app, <- app_assoc in IH. simpl in IH.
  rewrite Nat.add_1_r in IH. exact IH.
Qed.

Lemma assign_words_identity (ws : list string) :
  assign_words (zip (identity_indices ws) (identity_words ws)) ws = Ok ws.
Proof. exact (assign_words_identity_from ws []). Qed.

Lemma identity_edits_length (ws : list string) :
  length (identity_indices ws) = length (identity_words ws).
Proof.
  unfold identity_indices, identity_words. now rewrite !length_fmap, length_seq.
Qed.

(** ** The length of the index map *)

(** C1, as the code has it: the index map of a root instance is as long
    as its words, and every instance that descends from a root by rewrites
    has an index map as long as the words of that root, whatever the
    number of its own words. *)
Theorem C1_index_map_length (wft : string -> list string)
    (root s : AttackedText) :
  lineage wft root s ->
  exists a,
    attr_array (attack_attrs s) "original_index_map" = Ok a /\
    length a = length (words root).
Proof.
  induction 1 as [ti root Hinit
                 | root s s' new_words _ (a & Ha & Hlen) Hrw
                 | root s s' indices new_words _ (a & Ha & Hlen) Hrw].
  - eexists. split; [exact (init_root_index_map wft _ _ Hinit)|].
    apply arange_length.
  - apply replace_new_words_index_map_length in Hrw as (b & b' & Hb & Hb' & Hl).
    exists b'. split; [exact Hb'|]. rewrite Hl. congruence.
  - apply replace_words_at_indices_index_map_length
      in Hrw as (b & b' & Hb & Hb' & Hl).
    exists b'. split; [exact Hb'|]. rewrite Hl. congruence.
Qed.

Lemma C1_index_map_length_witness :
  exists s',
    replace_words_at_indices Tokenizer.words_from_text fox_root
      [IdxInt 1] [WordStr "very slow"] = Ok s' /\
    lineage Tokenizer.words_from_text fox_root s' /\
    exists a,
      attr_array (attack_attrs s') "original_index_map" = Ok a /\
      length a = length (words fox_root).
Proof.
  eexists. split; [vm_compute; reflexivity|].
  assert (L : lineage Tokenizer.words_from_text fox_root fox_root).
  { apply (lineage_root _ (InStr "The quick fox jumps.")). vm_compute. reflexivity. }
  match goal with
  | |- lineage ?w ?r ?s' /\ _ =>
      assert (L' : lineage w r s')
        by (apply (lineage_at_indices w r r s' [IdxInt 1] [WordStr "very slow"] L);
            vm_compute; reflexivity)
  end.
  split; [exact L'|].
  exact (C1_index_map_length Tokenizer.words_from_text _ _ L').
Defined.

(** C1 as stated fails: after the insertion of ["very slow"] the instance
    has five words and an index map of four entries. *)
Lemma C1_counterexample :
  exists s s' a,
    fox Tokenizer.words_from_text = Ok s /\
    replace_words_at_indices Tokenizer.words_from_text s
      [IdxInt 1] [WordStr "very slow"] = Ok s' /\
    attr_array (attack_attrs s') "original_index_map" = Ok a /\
    length a = 4%nat /\ length (words s') = 5%nat /\
    length a <> length (words s').
Proof.
  eexists _, _, _. split; [vm_compute; reflexivity|].
  split; [vm_compute; reflexivity|].
  split; [vm_compute; reflexivity|].
  split; [reflexivity|]. split; [reflexivity|]. vm_compute. discriminate.
Qed.

(** ** Insertion and deletion on the example *)

(** C2, as the code has it: replacing word 1 of ["The quick fox jumps."]
    by ["very slow"] gives the words The, very, slow, fox, jumps, the index
    map [0; 1; 3; 4] (the entries above 1 moved up by one, the length
    unchanged), and the new positions 1 and 2 as modified indices. *)
Theorem C2_insertion (wft : string -> list string) :
  tokenizes wft very_slow_words ->
  exists s s',
    fox wft = Ok s /\
    words s = ["The"; "quick"; "fox"; "jumps"] /\
    replace_words_at_indices wft s [IdxInt 1] [WordStr "very slow"] = Ok s' /\
    words s' = ["The"; "very"; "slow"; "fox"; "jumps"] /\
    attr_array (attack_attrs s') "original_index_map" = Ok [0; 1; 3; 4] /\
    attr_set (attack_attrs s') "modified_indices" = Ok {[1; 2]} /\
    attr_set (attack_attrs s') "newly_modified_indices" = Ok {[1; 2]}.
Proof.
  intros H.
  assert (Hfox : tokenizes wft fox_words).
  { unfold tokenizes, very_slow_words in H. now apply Forall_app in H as [H _]. }
  split_table H.
  eexists _, _. split; [exact (fox_eval wft Hfox)|].
  split; [reflexivity|].
  split.
  { apply (replace_new_words_ext wft (table_tokenizer very_slow_words)).
    - table_all.
    - vm_compute. reflexivity.
    - table_eq. }
  repeat split; vm_compute; reflexivity.
Qed.

Lemma C2_insertion_witness :
  tokenizes Tokenizer.words_from_text very_slow_words /\
  exists s s',
    fox Tokenizer.words_from_text = Ok s /\
    words s = ["The"; "quick"; "fox"; "jumps"] /\
    replace_words_at_indices Tokenizer.words_from_text s
      [IdxInt 1] [WordStr "very slow"] = Ok s' /\
    words s' = ["The"; "very"; "slow"; "fox"; "jumps"] /\
    attr_array (attack_attrs s') "original_index_map" = Ok [0; 1; 3; 4] /\
    attr_set (attack_attrs s') "modified_indices" = Ok {[1; 2]} /\
    attr_set (attack_attrs s') "newly_modified_indices" = Ok {[1; 2]}.
Proof.
  assert (T : tokenizes Tokenizer.words_from_text very_slow_words).
  { unfold tokenizes. repeat constructor. }
  split; [exact T | exact (C2_insertion Tokenizer.words_from_text T)].
Defined.

(** C2 as stated fails: the index map is not [0; 1; 1; 2; 3]. *)
Lemma C2_counterexample :
  exists s s',
    fox Tokenizer.words_from_text = Ok s /\
    replace_words_at_indices Tokenizer.words_from_text s
      [IdxInt 1] [WordStr "very slow"] = Ok s' /\
    attr_array (attack_attrs s') "original_index_map" = Ok [0; 1; 3; 4] /\
    attr_array (attack_attrs s') "original_index_map" <> Ok [0; 1; 1; 2; 3].
Proof.
  eexists _, _. split; [vm_compute; reflexivity|].
  split; [vm_compute; reflexivity|].
  split; [vm_compute; reflexivity|]. vm_compute. discriminate.
Qed.

(** C3: deleting word 1 of ["The quick fox jumps."] gives the text
    ["The fox jumps."] and the index map [0; -1; 1; 2]. *)
Theorem C3_deletion (wft : string -> list string) :
  tokenizes wft deletion_words ->
  exists s s',
    fox wft = Ok s /\
    words s = ["The"; "quick"; "fox"; "jumps"] /\
    delete_word_at_index wft s (IdxInt 1) = Ok s' /\
    replace_words_at_indices wft s [IdxInt 1] [WordStr ""] = Ok s' /\
    text s' = "The fox jumps." /\
    attr_array (attack_attrs s') "original_index_map" = Ok [0; -1; 1; 2].
Proof.
  intros H.
  assert (Hfox : tokenizes wft fox_words).
  { unfold tokenizes, deletion_words in H. now apply Forall_app in H as [H _]. }
  split_table H.
  assert (Hrw : replace_new_words wft fox_root ["The"; ""; "fox"; "jumps"]
                = Ok (Build_AttackedText [("text", "The fox jumps.")]
                        ["The"; "fox"; "jumps"]
                        [("newly_modified_indices", PySet ∅);
                         ("previous_attacked_text", Instance_ fox_root);
                         ("modified_indices", PySet ∅);
                         ("original_index_map", Ndarray [0; -1; 1; 2])])).
  { apply (replace_new_words_ext wft (table_tokenizer deletion_words)).
    - table_all.
    - vm_compute. reflexivity.
    - table_eq. }
  eexists _, _. split; [exact (fox_eval wft Hfox)|].
  split; [reflexivity|].
  split; [exact Hrw|]. split; [exact Hrw|].
  split; reflexivity.
Qed.

Lemma C3_deletion_witness :
  tokenizes Tokenizer.words_from_text deletion_words /\
  exists s s',
    fox Tokenizer.words_from_text = Ok s /\
    words s = ["The"; "quick"; "fox"; "jumps"] /\
    delete_word_at_index Tokenizer.words_from_text s (IdxInt 1) = Ok s' /\
    replace_words_at_indices Tokenizer.words_from_text s
      [IdxInt 1] [WordStr ""] = Ok s' /\
    text s' = "The fox jumps." /\
    attr_array (attack_attrs s') "original_index_map" = Ok [0; -1; 1; 2].
Proof.
  assert (T : tokenizes Tokenizer.words_from_text deletion_words).
  { unfold tokenizes. repeat constructor. }
  split; [exact T | exact (C3_deletion Tokenizer.words_from_text T)].
Defined.

(** ** Rewriting every word with itself *)

(** C4, as the code has it: for an instance whose segments come back from
    splitting their separator-joined text, whose words are found in order
    in that text and each have at least one word, rewriting every word
    with itself returns an instance with the same text and the same
    modified indices. *)
Theorem C4_identity_rewrite (wft : string -> list string)
    (ti : text_input_arg) (attrs : attack_attrs_arg) (self : AttackedText)
    (m : gset Z) (a : list Z) :
  init wft ti attrs = Ok self ->
  attr_set (attack_attrs self) "modified_indices" = Ok m ->
  attr_array (attack_attrs self) "original_index_map" = Ok a ->
  Py.split (Py.join SPLIT_TOKEN (dict_values (_text_input self))) SPLIT_TOKEN
    = dict_values (_text_input self) ->
  located (Py.join SPLIT_TOKEN (dict_values (_text_input self))) (words self)
    = true ->
  Forall (fun w => wft w <> []) (words self) ->
  exists s',
    replace_new_words wft self (words self) = Ok s' /\
    replace_words_at_indices wft self
      (identity_indices (words self)) (identity_words (words self)) = Ok s' /\
    text s' = text self /\
    attr_set (attack_attrs s') "modified_indices" = Ok m.
Proof.
  intros Hinit Hm Ha Hsplit Hloc Hne.
  assert (Hrw : exists s',
             replace_new_words wft self (words self) = Ok s' /\
             text s' = text self /\
             attr_set (attack_attrs s') "modified_indices" = Ok m).
  { unfold replace_new_words. rewrite Hm, Ha. cbn [mbind result_bind].
    rewrite zip_diag.
    match goal with
    | |- context [rewrite_loop wft 0 _ ?st0] =>
        destruct (rewrite_loop_identity_text wft (words self) 0%nat st0 Hloc Hne)
          as (st & Hst & Htext);
        pose proof (rewrite_loop_identity wft _ _ _ _ Hst) as (Emod & _ & _)
    end.
    rewrite Hst. cbn [mbind result_bind].
    cbn [perturbed_text original_text modified_indices] in Htext, Emod.
    rewrite append_nil in Htext. rewrite Htext, Hsplit.
    unfold dict_keys, dict_values. rewrite zip_fst_snd.
    eexists. split; [reflexivity|]. split.
    - unfold text. cbn [_text_input].
      now rewrite (stripped_fixed _ (init_stripped wft _ _ _ Hinit)).
    - unfold attr_set. simpl. now rewrite Emod. }
  destruct Hrw as (s' & Hs' & Ht & Hmod).
  exists s'. split; [exact Hs'|]. split; [|split; assumption].
  unfold replace_words_at_indices.
  rewrite identity_edits_length, Nat.eqb_refl. cbn [negb].
  rewrite assign_words_identity. exact Hs'.
Qed.

Lemma C4_identity_rewrite_witness :
  init Tokenizer.words_from_text (InStr "The quick fox jumps.") AttrsNone
    = Ok fox_root /\
  exists s',
    replace_new_words Tokenizer.words_from_text fox_root (words fox_root)
      = Ok s' /\
    replace_words_at_indices Tokenizer.words_from_text fox_root
      (identity_indices (words fox_root)) (identity_words (words fox_root))
      = Ok s' /\
    text s' = text fox_root /\
    attr_set (attack_attrs s') "modified_indices" = Ok ∅.
Proof.
  assert (I : init Tokenizer.words_from_text (InStr "The quick fox jumps.")
                AttrsNone = Ok fox_root) by (vm_compute; reflexivity).
  split; [exact I|].
  apply (C4_identity_rewrite Tokenizer.words_from_text _ _ fox_root ∅
           [0; 1; 2; 3] I).
  - reflexivity.
  - reflexivity.
  - vm_compute. reflexivity.
  - vm_compute. reflexivity.
  - repeat constructor; discriminate.
Defined.

(** C4 as stated fails: a text that contains the separator loses what
    follows it. *)
Lemma C4_counterexample :
  exists s s',
    init Tokenizer.words_from_text (InStr "a >>>> b") AttrsNone = Ok s /\
    replace_new_words Tokenizer.words_from_text s (words s) = Ok s' /\
    text s = "a >>>> b" /\ text s' = "a" /\ text s' <> text s.
Proof.
  eexists _, _. split; [vm_compute; reflexivity|].
  split; [vm_compute; reflexivity|].
  split; [vm_compute; reflexivity|].
  split; [vm_compute; reflexivity|]. vm_compute. discriminate.
Qed.

(** ** Equality *)

(** C5 on the code: an instance and its rewrite with the same words have
    one text, and the rewrite has a field the instance lacks; the instance
    equals the rewrite, the rewrite does not equal the instance. *)
Theorem C5_eq_not_symmetric :
  exists a b,
    init Tokenizer.words_from_text (InStr "x y") AttrsNone = Ok a /\
    replace_new_words Tokenizer.words_from_text a (words a) = Ok b /\
    text a = text b /\
    dict_get "newly_modified_indices" (attack_attrs a) = None /\
    dict_get "newly_modified_indices" (attack_attrs b) = Some (PySet ∅) /\
    AttackedText_eq a b = Ok true /\
    AttackedText_eq b a = Ok false.
Proof.
  eexists _, _. split; [vm_compute; reflexivity|].
  split; [vm_compute; reflexivity|].
  repeat split; vm_compute; reflexivity.
Qed.

Lemma array_all_eq_spec (a : list Z) : forall b,
  length a = length b -> array_all_eq a b = true -> a = b.
Proof.
  unfold array_all_eq.
  induction a as [|x a IH]; intros [|y b] Hl H; simpl in *; try congruence.
  apply andb_true_iff in H as [Hxy H]. apply Z.eqb_eq in Hxy. subst y.
  f_equal. apply IH; [congruence | exact H].
Qed.

Lemma dict_get_In {V : Type} (k : string) (v : V) (d : list (string * V)) :
  dict_get k d = Some v -> In (k, v) d.
Proof.
  induction d as [|[k' v'] d IH]; simpl; [discriminate|].
  destruct (String.eqb_spec k k') as [->|Hne].
  - intros [= ->]. now left.
  - intros H. right. now apply IH.
Qed.

(** Where [==] answers [True], the texts are equal and every field of the
    left instance is in the right one with an equal value. *)
Lemma eq_true_fields (a b : AttackedText) :
  AttackedText_eq a b = Ok true ->
  text a = text b /\
  forall k v, In (k, v) (attack_attrs a) ->
    exists v', dict_get k (attack_attrs b) = Some v' /\
      match v, v' with
      | Ndarray x, Ndarray y => x = y
      | PySet s, PySet s' => s = s'
      | Instance_ t, Instance_ t' => AttackedText_eq t t' = Ok true
      | _, _ => False
      end.
Proof.
  destruct a as [ti ws attrs]. cbn [AttackedText_eq].
  destruct (String.eqb_spec (Py.join newline (dict_values ti)) (text b)) as [Et|];
    [|discriminate].
  cbn [negb]. intros H. split; [exact Et|]. cbn [attack_attrs].
  revert H. induction attrs as [|[k0 v0] attrs IH]; [intros _ k v []|].
  intros H k v [[= <- <-]|Hin].
  - destruct (dict_get k0 (attack_attrs b)) as [v'|]; [|discriminate].
    exists v'. split; [reflexivity|].
    destruct v0 as [x|s|t], v' as [y|s'|t']; try discriminate.
    + destruct (Nat.eqb_spec (length x) (length y)) as [El|]; [|discriminate].
      cbn [negb] in H.
      destruct (array_all_eq x y) eqn:Ea; [|discriminate].
      now apply array_all_eq_spec.
    + destruct (length y <=? 1)%nat; discriminate.
    + destruct (bool_decide (s = s')) eqn:Es; [|discriminate].
      now apply bool_decide_eq_true in Es.
    + destruct (AttackedText_eq t t') as [[|]|]; try discriminate. reflexivity.
  - apply IH; [|exact Hin].
    destruct (dict_get k0 (attack_attrs b)) as [v'|]; [|discriminate].
    destruct v0 as [x|s|t], v' as [y|s'|t']; try discriminate.
    + destruct (negb (length x =? length y)%nat); [discriminate|].
      destruct (negb (array_all_eq x y)); [discriminate | exact H].
    + destruct (length y <=? 1)%nat; discriminate.
    + destruct (negb (bool_decide (s = s'))); [discriminate | exact H].
    + destruct (AttackedText_eq t t') as [[|]|]; try discriminate. exact H.
Qed.

(** Two instances with different modified indices are not equal. *)
Lemma eq_modified_indices (a b : AttackedText) (m m' : gset Z) :
  attr_set (attack_attrs a) "modified_indices" = Ok m ->
  attr_set (attack_attrs b) "modified_indices" = Ok m' ->
  m <> m' ->
  AttackedText_eq a b <> Ok true.
Proof.
  unfold attr_set. intros Ha Hb Hne H.
  apply eq_true_fields in H as [_ H].
  destruct (dict_get "modified_indices" (attack_attrs a)) as [[| s |]|] eqn:Ea;
    try discriminate.
  injection Ha as ->. apply dict_get_In in Ea.
  destruct (H _ _ Ea) as (v' & Hv' & Hv). rewrite Hv' in Hb.
  destruct v' as [| s' |]; try contradiction. congruence.
Qed.

(** ** The range check *)

(** C6 on the code: the index [len(words)] passes the range check and the
    assignment raises [IndexError]. *)
Theorem C6_index_at_length (wft : string -> list string) (self : AttackedText)
    (new_word : string) :
  replace_words_at_indices wft self
    [IdxInt (Z.of_nat (length (words self)))] [WordStr new_word]
  = Raise IndexError.
Proof.
  unfold replace_words_at_indices. simpl.
  destruct (Z.ltb_spec (Z.of_nat (length (words self))) 0); [lia|].
  rewrite Z.ltb_irrefl. simpl. unfold Py.setitem.
  rewrite Nat2Z.id, Nat.ltb_irrefl. reflexivity.
Qed.

(** The range check itself: [ValueError] below 0 and above [len(words)]. *)
Lemma range_check_raises (wft : string -> list string) (self : AttackedText)
    (i : Z) (new_word : string) :
  i < 0 \/ Z.of_nat (length (words self)) < i ->
  replace_words_at_indices wft self [IdxInt i] [WordStr new_word]
  = Raise ValueError.
Proof.
  intros H. unfold replace_words_at_indices. simpl.
  destruct (Z.ltb_spec i 0); [reflexivity|].
  destruct (Z.ltb_spec (Z.of_nat (length (words self))) i); [reflexivity | lia].
Qed.

(** An index in range whose deletion raises [IndexError]. *)
Lemma in_range_deletion_raises :
  exists s,
    init Tokenizer.words_from_text (InStr "hello") AttrsNone = Ok s /\
    words s = ["hello"] /\
    replace_words_at_indices Tokenizer.words_from_text s [IdxInt 0] [WordStr ""]
      = Raise IndexError.
Proof.
  eexists. split; [vm_compute; reflexivity|]. split; vm_compute; reflexivity.
Qed.

(** ** The text window *)

(** C8 on the code: on ["the the the cat"] the search for word 2 stops at
    offset 0, and the window of three words at index 0 is ["the"]. *)
Theorem C8_window_repeated_words :
  exists s,
    init Tokenizer.words_from_text (InStr "the the the cat") AttrsNone = Ok s /\
    words s = ["the"; "the"; "the"; "cat"] /\
    window_bounds (Z.of_nat (length (words s))) 0 3 = (0, 2) /\
    _text_index_of_word_index s 2 = 0 /\
    text_window_around_index s 0 3 = Ok "the".
Proof.
  eexists. split; [vm_compute; reflexivity|].
  repeat split; vm_compute; reflexivity.
Qed.

(** The word window is clamped at the start of the text. *)
Lemma window_bounds_clamped_low (length index window_size : Z) :
  2 * index < window_size - 1 ->
  window_bounds length index window_size
    = (0, Z.min (window_size - 1) (length - 1)).
Proof.
  intros H. unfold window_bounds.
  destruct (Z.ltb_spec (2 * index - (window_size - 1)) 0); [reflexivity | lia].
Qed.

Example window_fox :
  text_window_around_index fox_root 0 3 = Ok "The quick fox".
Proof. vm_compute. reflexivity. Qed.

(** ** The first differing word *)

Lemma first_word_diff_loop_spec (w1 : list string) (l1 : list string) : forall l2,
  (first_word_diff_loop w1 l1 l2 = Some w1 /\ differ_at l1 l2) \/
  (first_word_diff_loop w1 l1 l2 = None /\ ~ differ_at l1 l2).
Proof.
  assert (Hnil : forall l1 l2 : list string,
             l1 = [] \/ l2 = [] -> ~ differ_at l1 l2).
  { intros k1 k2 [-> | ->] (i & x & y & H1 & H2 & _); now destruct i. }
  induction l1 as [|a l1 IH]; intros [|b l2]; simpl;
    try (right; split; [reflexivity | apply Hnil; auto]).
  destruct (String.eqb_spec a b) as [->|Hne]; simpl.
  - destruct (IH l2) as [[E D]|[E D]]; [left | right]; (split; [exact E|]).
    + destruct D as (i & x & y & H1 & H2 & Hxy). now exists (S i), x, y.
    + intros (i & x & y & H1 & H2 & Hxy).
      destruct i as [|i]; simpl in *; [congruence|]. apply D. now exists i, x, y.
  - left. split; [reflexivity|]. now exists 0%nat, a, b.
Qed.

(** C9: [first_word_diff] returns the whole word list of the caller when
    the two word lists differ at an index both have, and [None] exactly
    when they do not. *)
Theorem C9_first_word_diff (self other : AttackedText) :
  (first_word_diff self other = Some (words self) <->
     differ_at (words self) (words other)) /\
  (first_word_diff self other = None <->
     ~ differ_at (words self) (words other)).
Proof.
  unfold first_word_diff.
  destruct (first_word_diff_loop_spec (words self) (words self) (words other))
    as [[E D]|[E D]]; rewrite E; split; split; intros H;
    try reflexivity; try assumption; try discriminate; contradiction.
Qed.

Example first_word_diff_fox :
  first_word_diff fox_root
    (Build_AttackedText [("text", "The slow fox jumps.")]
       ["The"; "slow"; "fox"; "jumps"] [])
  = Some ["The"; "quick"; "fox"; "jumps"].
Proof. reflexivity. Qed.

(** ** Deleting a word *)

(** C10, as the code has it: when one word is replaced by a text without
    words and every other word by itself, the new instance has no newly
    modified index and every modified index it has is one of the input's,
    kept or moved down; when the deleted word counts as one word, the
    modified indices are those of the input below the site and those above
    it moved down by one, the index map is the input's with the entries
    equal to the site set to [-1] and the later ones moved down by one, and
    so it has [-1] exactly where the input's map had the site or [-1]: a
    deletion at a site the map does not hold leaves no [-1]. *)
Theorem C10_deletion (wft : string -> list string) (self : AttackedText)
    (i : nat) (w r : string) (s' : AttackedText) :
  words self !! i = Some w ->
  wft r = [] ->
  replace_new_words wft self (<[i:=r]> (words self)) = Ok s' ->
  exists m a m' a',
    attr_set (attack_attrs self) "modified_indices" = Ok m /\
    attr_array (attack_attrs self) "original_index_map" = Ok a /\
    attr_set (attack_attrs s') "newly_modified_indices" = Ok ∅ /\
    attr_set (attack_attrs s') "modified_indices" = Ok m' /\
    attr_array (attack_attrs s') "original_index_map" = Ok a' /\
    (forall x, x ∈ m' ->
       exists y, y ∈ m /\ (x = y \/ x = y - Z.of_nat (length (wft w)))) /\
    (length (wft w) = 1%nat ->
       (forall x, x ∈ m' <->
          (x ∈ m /\ x < Z.of_nat i) \/ (x + 1 ∈ m /\ Z.of_nat i < x + 1)) /\
       a' = (fun x => if x =? Z.of_nat i then -1
                      else if Z.of_nat i <? x then x - 1 else x) <$> a /\
       (forall j : nat,
          a' !! j = Some (-1) <->
          a !! j = Some (Z.of_nat i) \/ a !! j = Some (-1))).
Proof.
  intros Hi Hr H.
  apply replace_new_words_inv in H as (m & a & st & Hm & Ha & Hst & _ & _ & Hattrs).
  exists m, a, (modified_indices st), (original_index_map st).
  split; [exact Hm|]. split; [exact Ha|].
  rewrite (zip_insert_middle _ _ _ r Hi), rewrite_loop_app in Hst.
  apply bind_Ok in Hst as (st1 & H1 & Hst). simpl in Hst.
  apply bind_Ok in Hst as (st2 & H2 & H3).
  apply rewrite_loop_identity in H1 as (E1 & E1' & E1'').
  apply rewrite_loop_identity in H3 as (E3 & E3' & E3'').
  apply (rewrite_step_no_words _ _ _ _ _ _ Hr) in H2 as (E2 & E2' & E2'').
  cbv zeta in E2, E2''.
  rewrite Hattrs. unfold attr_set, attr_array. simpl.
  rewrite E3, E3', E3'', E2, E2', E2'', E1, E1', E1''. simpl.
  rewrite length_fmap, length_take, Nat.min_l
    by (apply Nat.lt_le_incl; eapply lookup_lt_Some; eauto).
  split; [reflexivity|]. split; [reflexivity|]. split; [reflexivity|]. split.
  - intros x. destruct (negb _).
    + rewrite shift_modified_indices_spec.
      intros [[? ?]|(y & ? & ? & ->)]; [exists x; auto|].
      exists y. split; [assumption|]. right. lia.
    + intros ?. exists x. auto.
  - intros Hw. rewrite Hw. change (- Z.of_nat 1) with (-1). simpl.
    assert (Hmap : shift_index_map (Z.of_nat i) (-1) a =
                   (fun x => if x =? Z.of_nat i then -1
                             else if Z.of_nat i <? x then x - 1 else x) <$> a)
      by (apply shift_index_map_deletion; lia).
    split; [|split; [exact Hmap|]].
    + intros x. rewrite shift_modified_indices_spec. split.
      * intros [?|(y & ? & ? & ->)]; [now left|right].
        replace (y + -1 + 1) with y by lia. split; [assumption|lia].
      * intros [?|[? ?]]; [now left|right]. exists (x + 1).
        repeat split; [assumption|lia|lia].
    + intros j. rewrite Hmap, list_lookup_fmap.
      destruct (a !! j) as [x|]; cbn [fmap option_fmap option_map].
      * destruct (Z.eqb_spec x (Z.of_nat i)) as [->|Hne].
        { split; [now left | reflexivity]. }
        destruct (Z.ltb_spec (Z.of_nat i) x); split.
        -- intros [= E]. lia.
        -- intros [[= E]|[= E]]; [contradiction | lia].
        -- intros [= E]. right. now rewrite E.
        -- intros [[= E]|[= E]]; [contradiction | now rewrite E].
      * split; [discriminate | intros [|]; discriminate].
Qed.

Lemma C10_deletion_witness :
  exists s',
    replace_new_words Tokenizer.words_from_text fox_root
      (<[1%nat:=""]> (words fox_root)) = Ok s' /\
    attr_set (attack_attrs s') "newly_modified_indices" = Ok ∅ /\
    attr_set (attack_attrs s') "modified_indices" = Ok ∅ /\
    attr_array (attack_attrs s') "original_index_map" = Ok [0; -1; 1; 2].
Proof.
  eexists. split; [vm_compute; reflexivity|].
  match goal with
  | |- attr_set (attack_attrs ?s) _ = _ /\ _ =>
      destruct (C10_deletion Tokenizer.words_from_text fox_root 1 "quick" "" s)
        as (m & a & m' & a' & Hm & Ha & Hnew & Hm' & Ha' & _ & Hone);
        [reflexivity | reflexivity | vm_compute; reflexivity |]
  end.
  split; [exact Hnew|]. split; [vm_compute; reflexivity|].
  destruct (Hone eq_refl) as (_ & Hmap & _).
  injection Ha as <-. rewrite Ha', Hmap. reflexivity.
Defined.

(** C10 as the spec has it fails: after ["very slow"] took the place of
    ["quick"], the index map [[0; 1; 3; 4]] does not hold the site [2] of
    ["slow"], and the deletion of ["slow"] is recorded nowhere: no index is
    newly modified, and the map has no [-1]. *)
Lemma C10_counterexample :
  exists s s1 s2,
    fox Tokenizer.words_from_text = Ok s /\
    replace_words_at_indices Tokenizer.words_from_text s
      [IdxInt 1] [WordStr "very slow"] = Ok s1 /\
    words s1 = ["The"; "very"; "slow"; "fox"; "jumps"] /\
    attr_array (attack_attrs s1) "original_index_map" = Ok [0; 1; 3; 4] /\
    Tokenizer.words_from_text "" = [] /\
    replace_new_words Tokenizer.words_from_text s1 (<[2%nat:=""]> (words s1))
      = Ok s2 /\
    delete_word_at_index Tokenizer.words_from_text s1 (IdxInt 2) = Ok s2 /\
    text s2 = "The very fox jumps." /\
    attr_set (attack_attrs s2) "newly_modified_indices" = Ok ∅ /\
    attr_array (attack_attrs s2) "original_index_map" = Ok [0; 1; 2; 3] /\
    get_deletion_indices s2 = Ok [].
Proof.
  eexists _, _, _. split; [vm_compute; reflexivity|].
  split; [vm_compute; reflexivity|].
  split; [vm_compute; reflexivity|].
  split; [vm_compute; reflexivity|].
  split; [vm_compute; reflexivity|].
  split; [vm_compute; reflexivity|].
  split; [vm_compute; reflexivity|].
  split; [vm_compute; reflexivity|].
  split; [vm_compute; reflexivity|].
  split; vm_compute; reflexivity.
Qed.

(** ** What a rewrite does to the objects it was given *)

Module StoreFacts.
Import Store.

Lemma stable_refl n h : stable n h h.
Proof. split; [lia | reflexivity]. Qed.

Lemma stable_trans n h1 h2 h3 : stable n h1 h2 -> stable n h2 h3 -> stable n h1 h3.
Proof.
  intros [L1 S1] [L2 S2]. split; [lia|]. intros l Hl. now rewrite S2, S1.
Qed.

Section Rules.
Context (n : nat) {A B : Type}.

Lemma triple_ret (a : A) (P : heap -> Prop) (Q : A -> heap -> Prop) :
  (forall h, P h -> Q a h) -> triple n P (mret a) Q.
Proof.
  intros HPQ h Hn HP. split; [apply stable_refl|].
  simpl. intros ? [= <-]. now apply HPQ.
Qed.

Lemma triple_raise (e : exn) (P : heap -> Prop) (Q : A -> heap -> Prop) :
  triple n P (raise e) Q.
Proof. intros h Hn HP. split; [apply stable_refl | discriminate]. Qed.

Lemma triple_lift (r : result A) (P : heap -> Prop) (Q : A -> heap -> Prop) :
  (forall a h, r = Ok a -> P h -> Q a h) -> triple n P (lift r) Q.
Proof.
  intros HPQ h Hn HP. split; [apply stable_refl|].
  simpl. intros a ->. now apply HPQ.
Qed.

Lemma triple_bind (m : M A) (k : A -> M B) (P : heap -> Prop)
    (R : A -> heap -> Prop) (Q : B -> heap -> Prop) :
  triple n P m R -> (forall a, triple n (R a) (k a) Q) ->
  triple n P (m ≫= k) Q.
Proof.
  intros Hm Hk h Hn HP. destruct (Hm h Hn HP) as [Hs HR].
  unfold mbind, M_bind. destruct (m h) as [[a|e] h1]; simpl in *.
  - assert (Hn1 : (n <= length h1)%nat) by (destruct Hs; lia).
    destruct (Hk a h1 Hn1 (HR a eq_refl)) as [Hs' HQ].
    split; [eapply stable_trans; eauto | exact HQ].
  - split; [exact Hs | discriminate].
Qed.

Lemma triple_weaken (m : M A) (P P' : heap -> Prop) (Q Q' : A -> heap -> Prop) :
  triple n P' m Q' -> (forall h, P h -> P' h) -> (forall a h, Q' a h -> Q a h) ->
  triple n P m Q.
Proof.
  intros Hm HP HQ h Hn Hh. destruct (Hm h Hn (HP h Hh)) as [Hs Hq].
  split; [exact Hs|]. intros a Ha. apply HQ, Hq, Ha.
Qed.

Lemma triple_pure (m : M A) (phi : Prop) (P : heap -> Prop) (Q : A -> heap -> Prop) :
  (phi -> triple n P m Q) -> triple n (fun h => phi /\ P h) m Q.
Proof. intros Hm h Hn [Hphi HP]. now apply Hm. Qed.

(** Reading changes nothing. *)
Lemma own_read (m : M A) (P : heap -> Prop) :
  (forall h, (m h).2 = h) -> triple n P m (fun _ => P).
Proof.
  intros Hm h Hn HP. rewrite Hm. split; [apply stable_refl | now intros].
Qed.
End Rules.

Lemma triple_alloc n (o : obj) (P : heap -> Prop) (Q : loc -> heap -> Prop) :
  (forall h, (n <= length h)%nat -> P h -> Q (length h) (h ++ [o])%list) ->
  triple n P (alloc o) Q.
Proof.
  intros HPQ h Hn HP. simpl. split.
  - split; [rewrite length_app; lia|]. intros l Hl. apply lookup_app_l. lia.
  - intros a [= <-]. now apply HPQ.
Qed.

Lemma triple_write n (l : loc) (o : obj) (P : heap -> Prop) (Q : unit -> heap -> Prop) :
  (n <= l)%nat -> (forall h, P h -> Q tt (<[l:=o]> h)) -> triple n P (write l o) Q.
Proof.
  intros Hl HPQ h Hn HP. simpl. split.
  - split; [now rewrite length_insert|]. intros l' Hl'.
    apply list_lookup_insert_ne. lia.
  - intros [] _. now apply HPQ.
Qed.

Lemma read_set_only (l : loc) h : (read_set l h).2 = h.
Proof.
  unfold read_set, read, mbind, M_bind. destruct (h !! l) as [[]|]; reflexivity.
Qed.

Lemma read_array_only (l : loc) h : (read_array l h).2 = h.
Proof.
  unfold read_array, read, mbind, M_bind. destruct (h !! l) as [[]|]; reflexivity.
Qed.

Lemma read_list_only (l : loc) h : (read_list l h).2 = h.
Proof.
  unfold read_list, read, mbind, M_bind. destruct (h !! l) as [[]|]; reflexivity.
Qed.

Lemma read_segments_only (l : loc) h : (read_segments l h).2 = h.
Proof.
  unfold read_segments, read, mbind, M_bind. destruct (h !! l) as [[]|]; reflexivity.
Qed.

Lemma read_attrs_only (l : loc) h : (read_attrs l h).2 = h.
Proof.
  unfold read_attrs, read, mbind, M_bind. destruct (h !! l) as [[]|]; reflexivity.
Qed.

Lemma read_instance_only (l : loc) h : (read_instance l h).2 = h.
Proof.
  unfold read_instance, read, mbind, M_bind. destruct (h !! l) as [[]|]; reflexivity.
Qed.

Lemma attrs_get_only (l : loc) k h : (attrs_get l k h).2 = h.
Proof.
  unfold attrs_get, read_attrs, read, mbind, M_bind.
  destruct (h !! l) as [[]|]; try reflexivity. simpl.
  now destruct (dict_get k _).
Qed.

Ltac reading lem :=
  eapply triple_bind; [apply own_read; intros; apply lem | intros ?].
Ltac running lem :=
  eapply triple_bind; [apply lem | intros ?].

Section Owned.
Variable wft : string -> list string.
Variables (n : nat) (d : loc).

Lemma own_alloc (o : obj) :
  triple n (own n d) (alloc o)
    (fun l h => ((n <= l)%nat /\ l <> d) /\ own n d h).
Proof.
  apply triple_alloc. intros h Hn (Hd & dd & Hdd & Hown).
  pose proof (lookup_lt_Some _ _ _ Hdd) as Hlt.
  split; [split; [exact Hn | lia]|]. split; [exact Hd|].
  exists dd. split; [|exact Hown]. now rewrite lookup_app_l.
Qed.

Lemma own_write (l : loc) (o : obj) :
  (n <= l)%nat -> l <> d ->
  triple n (own n d) (write l o) (fun _ => own n d).
Proof.
  intros Hl Hne. apply triple_write; [exact Hl|].
  intros h (Hd & dd & Hdd & Hfresh).
  split; [exact Hd|]. exists dd. split; [|exact Hfresh].
  now rewrite list_lookup_insert_ne.
Qed.

Lemma own_attrs_get (k : string) :
  k <> "previous_attacked_text" ->
  triple n (own n d) (attrs_get d k) (fun l h => (n <= l)%nat /\ own n d h).
Proof.
  intros Hk h Hn Hown. pose proof Hown as (Hd & dd & Hdd & Hfresh).
  unfold attrs_get, read_attrs, read, mbind, M_bind. rewrite Hdd. simpl.
  destruct (dict_get k dd) as [l|] eqn:E; simpl.
  - split; [apply stable_refl|]. intros a [= <-]. split; [eauto | exact Hown].
  - split; [apply stable_refl | discriminate].
Qed.

Lemma own_attrs_set (k : string) (l : loc) :
  (n <= l)%nat \/ k = "previous_attacked_text" ->
  triple n (own n d) (attrs_set d k l) (fun _ => own n d).
Proof.
  intros Hl h Hn (Hd & dd & Hdd & Hfresh).
  unfold attrs_set, read_attrs, read, write, mbind, M_bind. rewrite Hdd. simpl.
  split.
  - split; [now rewrite length_insert|]. intros l' Hl'.
    apply list_lookup_insert_ne. lia.
  - intros _ _. split; [exact Hd|]. eexists. split.
    + apply list_lookup_insert_eq. now apply lookup_lt_Some in Hdd.
    + intros k' l'. rewrite dict_get_set.
      destruct (String.eqb_spec k' k) as [->|Hne]; [|apply Hfresh].
      intros [= <-] Hk. destruct Hl; [assumption | contradiction].
Qed.

Lemma own_attrs_setdefault (k : string) (l : loc) :
  (n <= l)%nat ->
  triple n (own n d) (attrs_setdefault d k l) (fun _ => own n d).
Proof.
  intros Hl h Hn (Hd & dd & Hdd & Hfresh).
  unfold attrs_setdefault, read_attrs, read, write, mbind, M_bind.
  rewrite Hdd. simpl. split.
  - split; [now rewrite length_insert|]. intros l' Hl'.
    apply list_lookup_insert_ne. lia.
  - intros _ _. split; [exact Hd|]. eexists. split.
    + apply list_lookup_insert_eq. now apply lookup_lt_Some in Hdd.
    + intros k' l'. rewrite dict_get_setdefault.
      destruct (dict_get k' dd) as [x|] eqn:E.
      * intros [= <-]. now apply Hfresh.
      * destruct (String.eqb k' k); [|discriminate]. now intros [= <-].
Qed.

(** A set reached through [d] is not [d] itself. *)
Lemma own_write_set (l : loc) (s : gset Z) :
  (n <= l)%nat ->
  triple n (fun h => own n d h /\ exists s0, h !! l = Some (OSet s0))
    (write l (OSet s)) (fun _ => own n d).
Proof.
  intros Hl. apply triple_write; [exact Hl|].
  intros h [(Hd & dd & Hdd & Hfresh) (s0 & Hs0)].
  split; [exact Hd|]. exists dd. split; [|exact Hfresh].
  rewrite list_lookup_insert_ne; [exact Hdd|]. congruence.
Qed.

Lemma own_attrs_set_add (k : string) (x : Z) :
  k <> "previous_attacked_text" ->
  triple n (own n d) (attrs_set_add d k x) (fun _ => own n d).
Proof.
  intros Hk. unfold attrs_set_add.
  eapply triple_bind; [apply (own_attrs_get k Hk)|]. intros l.
  apply triple_pure. intros Hl.
  eapply triple_bind
    with (R := fun s h => own n d h /\ exists s0, h !! l = Some (OSet s0)).
  - intros h Hn Hown. unfold read_set, read, mbind, M_bind.
    destruct (h !! l) as [[]|] eqn:E; simpl;
      (split; [apply stable_refl|]); try discriminate.
    intros a _. split; [exact Hown | eauto].
  - intros s. now apply own_write_set.
Qed.

Lemma own_mark_new_words (k : nat) (changed : bool) : forall new_i,
  triple n (own n d) (mark_new_words d k changed new_i) (fun _ => own n d).
Proof.
  induction k as [|k IH]; intros new_i; cbn [mark_new_words].
  - now apply triple_ret.
  - eapply triple_bind; [|intros ?; apply IH].
    destruct changed; [|now apply triple_ret].
    eapply triple_bind; [|intros ?]; now apply own_attrs_set_add.
Qed.

Lemma own_shift_bookkeeping (i diff : Z) :
  triple n (own n d) (shift_bookkeeping d i diff) (fun _ => own n d).
Proof.
  unfold shift_bookkeeping.
  running (own_attrs_get "modified_indices"); [discriminate|].
  apply triple_pure; intros _.
  reading read_set_only.
  running own_alloc. apply triple_pure; intros [Hs _].
  running own_attrs_set; [now left|].
  running (own_attrs_get "original_index_map"); [discriminate|].
  apply triple_pure; intros _.
  reading read_array_only.
  running own_alloc. apply triple_pure; intros [Ha Hne].
  eapply triple_bind with (R := fun _ => own n d).
  { destruct (diff =? -1); [|now apply triple_ret].
    reading read_array_only. now apply own_write. }
  intros ?. reading read_array_only.
  running own_write; [assumption..|].
  apply own_attrs_set. now left.
Qed.

Lemma own_rewrite_step (i : nat) (w r : string) (st : string * string * Z) :
  triple n (own n d) (rewrite_step wft d i w r st) (fun _ => own n d).
Proof.
  unfold rewrite_step. destruct st as [[p o] new_i].
  eapply triple_bind; [apply triple_lift; intros ? ? _ H; exact H | intros k].
  eapply triple_bind with (R := fun _ => own n d).
  { destruct (negb _); [apply own_shift_bookkeeping | now apply triple_ret]. }
  intros ?. running own_mark_new_words.
  eapply triple_bind; [apply triple_lift; intros ? ? _ H; exact H | intros [p' o']].
  now apply triple_ret.
Qed.

Lemma own_rewrite_loop (pairs : list (string * string)) : forall i st,
  triple n (own n d) (rewrite_loop wft d i pairs st) (fun _ => own n d).
Proof.
  induction pairs as [|[w r] pairs IH]; intros i st; cbn [rewrite_loop].
  - now apply triple_ret.
  - eapply triple_bind; [apply own_rewrite_step | intros st'; apply IH].
Qed.

Lemma own_init (ti : Store.text_input_arg) :
  triple n (own n d) (init wft ti (Store.AttrsDict d)) (fun _ => own n d).
Proof.
  unfold init.
  eapply triple_bind with (R := fun _ => own n d).
  { destruct ti as [s|l|].
    - eapply triple_weaken; [apply own_alloc | auto | now intros ? ? [_ ?]].
    - now apply triple_ret.
    - apply triple_raise. }
  intros d0. reading read_segments_only.
  running own_alloc. apply triple_pure; intros _.
  running own_alloc. apply triple_pure; intros _.
  eapply triple_bind with (R := fun d' h => d' = d /\ own n d h).
  { reading read_attrs_only. now apply triple_ret. }
  intros d'. apply triple_pure; intros ->.
  running own_alloc. apply triple_pure; intros [Ha _].
  running own_attrs_setdefault; [assumption|].
  running own_alloc. apply triple_pure; intros [He _].
  running own_attrs_setdefault; [assumption|].
  eapply triple_weaken; [apply own_alloc | auto | now intros ? ? [_ ?]].
Qed.
End Owned.

Section Calls.
Variable wft : string -> list string.
Variable n : nat.

Lemma frame_replace_new_words (self new_words : loc) :
  triple n (fun _ => True) (replace_new_words wft self new_words)
    (fun _ _ => True).
Proof.
  unfold replace_new_words.
  eapply triple_bind;
    [apply own_read; intros; apply read_instance_only | intros [[ti wl] attrs]].
  reading read_segments_only.
  eapply triple_bind with (R := fun d h => own n d h).
  { apply triple_alloc. intros h Hn _. split; [exact Hn|].
    exists []. split; [apply list_lookup_middle; reflexivity|]. discriminate. }
  intros d.
  running own_alloc. apply triple_pure; intros [Hnew _].
  running own_attrs_set; [now left|].
  running own_attrs_set; [now right|].
  reading attrs_get_only. reading read_set_only.
  running own_alloc. apply triple_pure; intros [Hm _].
  running own_attrs_set; [now left|].
  reading attrs_get_only. reading read_array_only.
  running own_alloc. apply triple_pure; intros [Ha _].
  running own_attrs_set; [now left|].
  reading read_list_only. reading read_list_only.
  eapply triple_bind; [apply own_rewrite_loop | intros [[p o] new_i]].
  running own_alloc. apply triple_pure; intros _.
  eapply triple_weaken; [apply own_init | auto | auto].
Qed.

Lemma frame_assign_words (ws : loc) (edits : list (index_arg * word_arg)) :
  (n <= ws)%nat ->
  triple n (fun _ => True) (assign_words edits ws) (fun _ _ => True).
Proof.
  intros Hws. induction edits as [|[i w] edits IH]; cbn [assign_words].
  - now apply triple_ret.
  - eapply triple_bind with (R := fun _ _ => True).
    { destruct i; [now apply triple_ret.. | apply triple_raise]. }
    intros z. eapply triple_bind with (R := fun _ _ => True).
    { destruct w; [now apply triple_ret | apply triple_raise]. }
    intros s. reading read_list_only.
    destruct (_ || _); [apply triple_raise|].
    eapply triple_bind with (R := fun _ _ => True);
      [apply triple_lift; auto | intros l'].
    eapply triple_bind with (R := fun _ _ => True);
      [apply triple_write; auto | intros ?; exact IH].
Qed.

Lemma frame_replace_words_at_indices (self : loc)
    (indices : list index_arg) (new_words : list word_arg) :
  triple n (fun _ => True) (replace_words_at_indices wft self indices new_words)
    (fun _ _ => True).
Proof.
  unfold replace_words_at_indices.
  destruct (negb _); [apply triple_raise|].
  eapply triple_bind;
    [apply own_read; intros; apply read_instance_only | intros [[ti wl] attrs]].
  reading read_list_only.
  eapply triple_bind with (R := fun ws _ => (n <= ws)%nat).
  { apply triple_alloc. now intros. }
  intros ws. eapply triple_bind with (R := fun _ _ => True).
  { intros h Hn Hws. now apply frame_assign_words. }
  intros ?. apply frame_replace_new_words.
Qed.
End Calls.

(** Every object of the store is what it was after a rewrite, whether the
    rewrite returned or raised. *)
Lemma rewrite_frame wft (h : heap) (self : loc)
    (indices : list index_arg) (new_words : list word_arg) :
  forall l o, h !! l = Some o ->
    (replace_words_at_indices wft self indices new_words h).2 !! l = Some o.
Proof.
  intros l o Hl.
  destruct (frame_replace_words_at_indices wft (length h) self indices new_words h)
    as [[_ Hs] _]; [lia | exact I |].
  rewrite Hs; [exact Hl|]. now apply lookup_lt_Some in Hl.
Qed.

Lemma reads_only_ret {A : Type} (a : A) : reads_only (mret a : M A).
Proof. intros h h' b _ [= <-]. now split. Qed.

Lemma reads_only_raise {A : Type} (e : exn) : reads_only (raise e : M A).
Proof. intros h h' b _ [=]. Qed.

Lemma reads_only_read (l : loc) : reads_only (read l).
Proof.
  intros h h' o Hsub. unfold read.
  destruct (h !! l) as [o'|] eqn:E; [|discriminate].
  intros [= <-]. split; [reflexivity|]. now rewrite (Hsub _ _ E).
Qed.

Lemma reads_only_bind {A B : Type} (m : M A) (k : A -> M B) :
  reads_only m -> (forall a, reads_only (k a)) -> reads_only (m ≫= k).
Proof.
  intros Hm Hk h h' b Hsub. unfold mbind, M_bind.
  destruct (m h) as [[a|e] h1] eqn:E; [|discriminate].
  destruct (Hm h h' a Hsub) as [E1 E2]; [now rewrite E|].
  rewrite E in E1. simpl in E1. subst h1. rewrite E2.
  intros H. now apply Hk.
Qed.

Lemma reads_only_observe (self : loc) : reads_only (observe self).
Proof.
  unfold observe, read_instance, read_segments, read_list, attrs_get,
    read_attrs, read_array, read_set.
  repeat first
    [ apply reads_only_read
    | apply reads_only_ret
    | apply reads_only_raise
    | apply reads_only_bind; [|intros ?]
    | match goal with
      | |- reads_only (match ?x with _ => _ end) => destruct x
      end ].
Qed.

End StoreFacts.

(** ** The two embeddings compute the same rewrite *)

Module StoreSim.
Import StoreFacts.

Lemma repr_unfold (h : Store.heap) ti ws attrs (l : Store.loc) :
  Store.repr h (Build_AttackedText ti ws attrs) l <->
  exists (lti lws lattrs : Store.loc) (dd : list (string * Store.loc)),
    h !! l = Some (Store.OInstance lti lws lattrs) /\
    h !! lti = Some (Store.OSegments ti) /\
    h !! lws = Some (Store.OList ws) /\
    h !! lattrs = Some (Store.OAttrs dd) /\
    Store.attrs_repr h attrs dd.
Proof.
  assert (E : forall dd,
             (fix entries (attrs : list (string * attr)) (dd : list (string * Store.loc))
                {struct attrs} : Prop :=
                match attrs, dd with
                | [], [] => True
                | (k, v) :: attrs', (k', lv) :: dd' =>
                    k = k' /\
                    match v with
                    | Ndarray a => h !! lv = Some (Store.ONdarray a)
                    | PySet s => h !! lv = Some (Store.OSet s)
                    | Instance_ t => Store.repr h t lv
                    end /\
                    entries attrs' dd'
                | _, _ => False
                end) attrs dd <-> Store.attrs_repr h attrs dd).
  { induction attrs as [|[k v] attrs IH]; intros [|[k' lv] dd]; simpl; try tauto.
    rewrite IH. unfold Store.value_repr. tauto. }
  simpl. split; intros (lti & lws & lattrs & dd & H1 & H2 & H3 & H4 & H5);
    exists lti, lws, lattrs, dd; repeat (split; [assumption|]); now apply E.
Qed.

Lemma attrs_repr_get (h : Store.heap) (k : string) attrs : forall dd,
  Store.attrs_repr h attrs dd ->
  match dict_get k attrs with
  | Some v => exists lv, dict_get k dd = Some lv /\ Store.value_repr h v lv
  | None => dict_get k dd = None
  end.
Proof.
  induction attrs as [|[k1 v] attrs IH]; intros [|[k2 lv] dd]; simpl; try tauto.
  intros (<- & Hv & Hrest). destruct (String.eqb k k1); [eauto | now apply IH].
Qed.

Lemma repr_extend (h h' : Store.heap) :
  (forall l o, h !! l = Some o -> h' !! l = Some o) ->
  forall s l, Store.repr h s l -> Store.repr h' s l.
Proof.
  intros Hsub. fix IH 1.
  intros [ti ws attrs] l (lti & lws & lattrs & dd & H1 & H2 & H3 & H4 & He).
  cbn. exists lti, lws, lattrs, dd.
  repeat (split; [now apply Hsub|]).
  clear H1 H2 H3 H4. revert dd He. revert attrs. fix inner 1.
  intros [|[k v] attrs] [|[k' lv] dd]; try exact (fun H => H).
  intros (Hk & Hv & Hrest). split; [exact Hk|]. split; [|exact (inner _ _ Hrest)].
  destruct v as [a|s|t]; [now apply Hsub | now apply Hsub | exact (IH _ _ Hv)].
Qed.


Lemma bind_run {A B : Type} (m : Store.M A) (k : A -> Store.M B) (h h' : Store.heap) (a : A) :
  m h = (Ok a, h') -> (m ≫= k) h = k a h'.
Proof. intros E. unfold mbind, Store.M_bind. now rewrite E. Qed.

Lemma bind_fail {A B : Type} (m : Store.M A) (k : A -> Store.M B) (h h' : Store.heap) (e : exn) :
  m h = (Raise e, h') -> (m ≫= k) h = (Raise e, h').
Proof. intros E. unfold mbind, Store.M_bind. now rewrite E. Qed.

Lemma read_set_run (l : Store.loc) (s : gset Z) (h : Store.heap) :
  h !! l = Some (Store.OSet s) -> Store.read_set l h = (Ok s, h).
Proof. intros E. unfold Store.read_set, Store.read, mbind, Store.M_bind. now rewrite E. Qed.

Lemma read_array_run (l : Store.loc) (a : list Z) (h : Store.heap) :
  h !! l = Some (Store.ONdarray a) -> Store.read_array l h = (Ok a, h).
Proof. intros E. unfold Store.read_array, Store.read, mbind, Store.M_bind. now rewrite E. Qed.

Lemma read_list_run (l : Store.loc) (ws : list string) (h : Store.heap) :
  h !! l = Some (Store.OList ws) -> Store.read_list l h = (Ok ws, h).
Proof. intros E. unfold Store.read_list, Store.read, mbind, Store.M_bind. now rewrite E. Qed.

Lemma read_segments_run (l : Store.loc) (d : list (string * string)) (h : Store.heap) :
  h !! l = Some (Store.OSegments d) -> Store.read_segments l h = (Ok d, h).
Proof. intros E. unfold Store.read_segments, Store.read, mbind, Store.M_bind. now rewrite E. Qed.

Lemma read_attrs_run (l : Store.loc) (d : list (string * Store.loc)) (h : Store.heap) :
  h !! l = Some (Store.OAttrs d) -> Store.read_attrs l h = (Ok d, h).
Proof. intros E. unfold Store.read_attrs, Store.read, mbind, Store.M_bind. now rewrite E. Qed.

Lemma read_instance_run (l a b c : Store.loc) (h : Store.heap) :
  h !! l = Some (Store.OInstance a b c) -> Store.read_instance l h = (Ok (a, b, c), h).
Proof. intros E. unfold Store.read_instance, Store.read, mbind, Store.M_bind. now rewrite E. Qed.

Lemma attrs_get_run (d : Store.loc) (dd : list (string * Store.loc)) (k : string) (l : Store.loc)
    (h : Store.heap) :
  h !! d = Some (Store.OAttrs dd) -> dict_get k dd = Some l ->
  Store.attrs_get d k h = (Ok l, h).
Proof.
  intros E1 E2. unfold Store.attrs_get. rewrite (bind_run _ _ _ _ _ (read_attrs_run _ _ _ E1)).
  now rewrite E2.
Qed.

Lemma attrs_set_run (d : Store.loc) (dd : list (string * Store.loc)) (k : string) (l : Store.loc)
    (h : Store.heap) :
  h !! d = Some (Store.OAttrs dd) ->
  Store.attrs_set d k l h = (Ok tt, <[d:=Store.OAttrs (dict_set k l dd)]> h).
Proof.
  intros E1. unfold Store.attrs_set.
  now rewrite (bind_run _ _ _ _ _ (read_attrs_run _ _ _ E1)).
Qed.

Lemma stable_insert (n l : nat) (o : Store.obj) (h : Store.heap) :
  (n <= l)%nat -> Store.stable n h (<[l:=o]> h).
Proof.
  intros Hl. split; [now rewrite length_insert|].
  intros l' Hl'. apply list_lookup_insert_ne. lia.
Qed.

Lemma stable_alloc (n : nat) (o : Store.obj) (h : Store.heap) :
  (n <= length h)%nat -> Store.stable n h (h ++ [o])%list.
Proof.
  intros Hn. split; [rewrite length_app; lia|].
  intros l Hl. apply lookup_app_l. lia.
Qed.

Ltac sizes :=
  repeat (rewrite length_insert || rewrite length_app); simpl; lia.

Ltac look :=
  repeat first
    [ rewrite list_lookup_insert_eq by sizes
    | rewrite list_lookup_insert_ne by (congruence || sizes)
    | rewrite lookup_app_l by sizes ].

Section Sim.
Variable wft : string -> list string.
Variables (n : nat) (self d : Store.loc).

Lemma book_length h m nw a : Store.book n self d h m nw a -> (n <= length h)%nat.
Proof.
  intros (lm & lnw & la & Hd & _ & _ & _ & _ & Hn & _).
  apply lookup_lt_Some in Hd. lia.
Qed.

(** [.add(x)] on the set of modified indices. *)
Lemma sim_add_modified h m nw a x :
  Store.book n self d h m nw a ->
  exists h',
    Store.attrs_set_add d "modified_indices" x h = (Ok tt, h') /\
    Store.stable n h h' /\ Store.book n self d h' ({[x]} ∪ m) nw a.
Proof.
  intros (lm & lnw & la & Hd & Hm & Hnw & Ha & Hne & Hnd & Hnm & Hnn & Hna).
  eexists. split; [|split].
  - unfold Store.attrs_set_add.
    rewrite (bind_run _ _ _ _ _ (attrs_get_run _ _ "modified_indices" lm _ Hd eq_refl)).
    rewrite (bind_run _ _ _ _ _ (read_set_run _ _ _ Hm)). reflexivity.
  - now apply stable_insert.
  - exists lm, lnw, la.
    split; [rewrite list_lookup_insert_ne by congruence; exact Hd|].
    split; [apply list_lookup_insert_eq; now apply lookup_lt_Some in Hm|].
    split; [rewrite list_lookup_insert_ne by congruence; exact Hnw|].
    split; [rewrite list_lookup_insert_ne by congruence; exact Ha|].
    repeat split; assumption.
Qed.

Lemma sim_add_newly h m nw a x :
  Store.book n self d h m nw a ->
  exists h',
    Store.attrs_set_add d "newly_modified_indices" x h = (Ok tt, h') /\
    Store.stable n h h' /\ Store.book n self d h' m ({[x]} ∪ nw) a.
Proof.
  intros (lm & lnw & la & Hd & Hm & Hnw & Ha & Hne & Hnd & Hnm & Hnn & Hna).
  eexists. split; [|split].
  - unfold Store.attrs_set_add.
    rewrite (bind_run _ _ _ _ _
               (attrs_get_run _ _ "newly_modified_indices" lnw _ Hd eq_refl)).
    rewrite (bind_run _ _ _ _ _ (read_set_run _ _ _ Hnw)). reflexivity.
  - now apply stable_insert.
  - exists lm, lnw, la.
    split; [rewrite list_lookup_insert_ne by congruence; exact Hd|].
    split; [rewrite list_lookup_insert_ne by congruence; exact Hm|].
    split; [apply list_lookup_insert_eq; now apply lookup_lt_Some in Hnw|].
    split; [rewrite list_lookup_insert_ne by congruence; exact Ha|].
    repeat split; assumption.
Qed.

Lemma sim_mark_new_words k changed : forall st h,
  Store.book n self d h (modified_indices st) (newly_modified_indices st)
    (original_index_map st) ->
  exists h',
    Store.mark_new_words d k changed (new_i st) h
      = (Ok (new_i (mark_new_words k changed st)), h') /\
    Store.stable n h h' /\
    Store.book n self d h'
      (modified_indices (mark_new_words k changed st))
      (newly_modified_indices (mark_new_words k changed st))
      (original_index_map (mark_new_words k changed st)).
Proof.
  induction k as [|k IH]; intros st h Hb.
  - exists h. split; [reflexivity|]. split; [apply stable_refl | exact Hb].
  - cbn [Store.mark_new_words mark_new_words]. destruct changed.
    + destruct (sim_add_modified _ _ _ _ (new_i st) Hb) as (h1 & E1 & S1 & B1).
      destruct (sim_add_newly _ _ _ _ (new_i st) B1) as (h2 & E2 & S2 & B2).
      match goal with
      | |- context [mark_new_words k true ?s] =>
          destruct (IH s h2 B2) as (h3 & E3 & S3 & B3)
      end.
      exists h3. split; [|split; [eauto using stable_trans | exact B3]].
      rewrite (bind_run _ _ h h2 tt).
      * exact E3.
      * rewrite (bind_run _ _ _ _ _ E1). exact E2.
    + match goal with
      | |- context [mark_new_words k false ?s] =>
          destruct (IH s h Hb) as (h3 & E3 & S3 & B3)
      end.
      exists h3. split; [exact E3 | split; assumption].
Qed.

Lemma lookup_alloc (h : Store.heap) (o : Store.obj) : (h ++ [o])%list !! length h = Some o.
Proof. now apply list_lookup_middle. Qed.

Lemma sim_shift_bookkeeping h m nw a (i diff : Z) :
  Store.book n self d h m nw a ->
  exists h',
    Store.shift_bookkeeping d i diff h = (Ok tt, h') /\
    Store.stable n h h' /\
    Store.book n self d h' (shift_modified_indices i diff m) nw
      (shift_index_map i diff a).
Proof.
  intros (lm & lnw & la & Hd & Hm & Hnw & Ha & Hne & Hnd & Hnm & Hnn & Hna).
  pose proof (lookup_lt_Some _ _ _ Hd) as Ld.
  pose proof (lookup_lt_Some _ _ _ Hm) as Lm.
  pose proof (lookup_lt_Some _ _ _ Hnw) as Lnw.
  pose proof (lookup_lt_Some _ _ _ Ha) as La.
  set (sh := shift_modified_indices i diff m).
  set (h1 := (h ++ [Store.OSet sh])%list).
  set (dd1 := [("newly_modified_indices", lnw); ("previous_attacked_text", self);
               ("modified_indices", length h); ("original_index_map", la)]).
  set (h2 := <[d:=Store.OAttrs dd1]> h1).
  set (h3 := (h2 ++ [Store.ONdarray a])%list).
  set (a1 := if diff =? -1 then masked (fun x => x =? i) (fun _ => -1) a else a).
  set (h4 := if diff =? -1 then <[S (length h):=Store.ONdarray a1]> h3 else h3).
  set (a2 := masked (fun x => i <? x) (fun x => x + diff) a1).
  set (h5 := <[S (length h):=Store.ONdarray a2]> h4).
  set (dd2 := [("newly_modified_indices", lnw); ("previous_attacked_text", self);
               ("modified_indices", length h); ("original_index_map", S (length h))]).
  set (h6 := <[d:=Store.OAttrs dd2]> h5).
  assert (L2 : length h2 = S (length h)) by (unfold h2, h1; sizes).
  assert (L3 : length h3 = S (S (length h))) by (unfold h3; rewrite length_app, L2; simpl; lia).
  assert (L4 : length h4 = S (S (length h)))
    by (unfold h4; destruct (diff =? -1); rewrite ?length_insert; exact L3).
  assert (E4 : forall l, l <> S (length h) -> h4 !! l = h3 !! l).
  { intros l Hl. unfold h4. destruct (diff =? -1); [|reflexivity].
    now apply list_lookup_insert_ne. }
  assert (N4 : h4 !! S (length h) = Some (Store.ONdarray a1)).
  { unfold h4, a1. destruct (diff =? -1).
    - apply list_lookup_insert_eq. lia.
    - unfold h3. rewrite <- L2. apply lookup_alloc. }
  assert (E3 : forall l, (l < S (length h))%nat -> h3 !! l = h2 !! l).
  { intros l Hl. unfold h3. apply lookup_app_l. lia. }
  exists h6. split; [|split].
  - unfold Store.shift_bookkeeping.
    rewrite (bind_run _ _ _ _ _ (attrs_get_run _ _ "modified_indices" lm _ Hd eq_refl)).
    rewrite (bind_run _ _ _ _ _ (read_set_run _ _ _ Hm)).
    rewrite (bind_run _ _ h h1 (length h)) by reflexivity.
    rewrite (bind_run _ _ h1 h2 tt).
    2:{ apply (attrs_set_run d
                 [("newly_modified_indices", lnw); ("previous_attacked_text", self);
                  ("modified_indices", lm); ("original_index_map", la)]).
        unfold h1. now rewrite lookup_app_l. }
    rewrite (bind_run _ _ h2 h2 la).
    2:{ apply (attrs_get_run _ dd1); [|reflexivity].
        unfold h2. apply list_lookup_insert_eq. unfold h1. sizes. }
    rewrite (bind_run _ _ h2 h2 a).
    2:{ apply read_array_run. unfold h2, h1. look. exact Ha. }
    rewrite (bind_run _ _ h2 h3 (S (length h))).
    2:{ unfold Store.alloc, h3. now rewrite L2. }
    rewrite (bind_run _ _ h3 h4 tt).
    2:{ unfold h4, a1. destruct (diff =? -1); [|reflexivity].
        rewrite (bind_run _ _ h3 h3 a); [reflexivity|].
        apply read_array_run. unfold h3. rewrite <- L2. apply lookup_alloc. }
    rewrite (bind_run _ _ h4 h4 a1) by (now apply read_array_run).
    rewrite (bind_run _ _ h4 h5 tt) by reflexivity.
    apply (attrs_set_run d dd1).
    unfold h5. rewrite list_lookup_insert_ne by lia.
    rewrite E4, E3 by lia. unfold h2. apply list_lookup_insert_eq. unfold h1. sizes.
  - split.
    + unfold h6, h5. rewrite !length_insert, L4. lia.
    + intros l Hl. unfold h6, h5. rewrite !list_lookup_insert_ne by lia.
      rewrite E4, E3 by lia. unfold h2, h1. look. reflexivity.
  - exists (length h), lnw, (S (length h)).
    split; [unfold h6; apply list_lookup_insert_eq; unfold h5; rewrite length_insert, L4; lia|].
    split.
    { unfold h6, h5. rewrite !list_lookup_insert_ne by lia.
      rewrite E4, E3 by lia. unfold h2. rewrite list_lookup_insert_ne by lia.
      apply lookup_alloc. }
    split.
    { unfold h6, h5. rewrite !list_lookup_insert_ne by (congruence || lia).
      rewrite E4, E3 by lia. unfold h2, h1.
      rewrite list_lookup_insert_ne by congruence. now rewrite lookup_app_l. }
    split.
    { unfold h6. rewrite list_lookup_insert_ne by lia.
      unfold h5. rewrite list_lookup_insert_eq by lia.
      unfold a2, a1, shift_index_map. reflexivity. }
    repeat split; lia.
Qed.


Lemma lift_run {A : Type} (r : result A) (h : Store.heap) : Store.lift r h = (r, h).
Proof. reflexivity. Qed.

Lemma sim_rewrite_step (i : nat) (w r : string) (st : rewrite_state) (h : Store.heap) :
  Store.book n self d h (modified_indices st) (newly_modified_indices st)
    (original_index_map st) ->
  exists h',
    Store.stable n h h' /\
    match rewrite_step wft i w r st with
    | Ok st' =>
        Store.rewrite_step wft d i w r
          (perturbed_text st, original_text st, new_i st) h
        = (Ok (perturbed_text st', original_text st', new_i st'), h') /\
        Store.book n self d h' (modified_indices st') (newly_modified_indices st')
          (original_index_map st')
    | Raise e =>
        Store.rewrite_step wft d i w r
          (perturbed_text st, original_text st, new_i st) h
        = (Raise e, h')
    end.
Proof.
  intros Hb. unfold rewrite_step, Store.rewrite_step.
  destruct (Py.index (original_text st) w) as [k|e] eqn:Ek.
  2:{ exists h. split; [apply stable_refl|]. reflexivity. }
  cbn [mbind result_bind].
  rewrite (bind_run _ _ h h k) by reflexivity.
  set (diff := Z.of_nat (length (wft r)) - Z.of_nat (length (wft w))).
  match goal with
  | |- context [mark_new_words _ _ ?s] => set (st1 := s)
  end.
  assert (H1 : exists h1,
             (if negb (diff =? 0)
              then Store.shift_bookkeeping d (Z.of_nat i) diff
              else mret tt) h = (Ok tt, h1) /\
             Store.stable n h h1 /\
             Store.book n self d h1 (modified_indices st1) (newly_modified_indices st1)
               (original_index_map st1)).
  { unfold st1. cbn [modified_indices newly_modified_indices original_index_map].
    destruct (negb (diff =? 0)).
    - now apply sim_shift_bookkeeping.
    - exists h. split; [reflexivity|]. split; [apply stable_refl | exact Hb]. }
  destruct H1 as (h1 & E1 & S1 & B1).
  rewrite (bind_run _ _ h h1 tt) by exact E1.
  destruct (sim_mark_new_words (length (wft r)) (negb (String.eqb w r)) st1 h1 B1)
    as (h2 & E2 & S2 & B2).
  change (new_i st) with (new_i st1).
  rewrite (bind_run _ _ h1 h2 _ E2).
  destruct (mark_new_words_locals (length (wft r)) (negb (String.eqb w r)) st1)
    as (Ep & Eo & _ & _).
  rewrite Ep, Eo. cbn [perturbed_text original_text st1].
  exists h2. split; [eauto using stable_trans|].
  match goal with
  | |- context [Store.lift ?x] => destruct x as [[p o]|e] eqn:Ed
  end.
  - cbn [mbind result_bind]. split; [|exact B2].
    rewrite (bind_run _ _ h2 h2 (p, o)) by reflexivity. reflexivity.
  - cbn [mbind result_bind]. now rewrite (bind_fail _ _ h2 h2 e).
Qed.

Lemma sim_rewrite_loop (pairs : list (string * string)) : forall i st h,
  Store.book n self d h (modified_indices st) (newly_modified_indices st)
    (original_index_map st) ->
  exists h',
    Store.stable n h h' /\
    match rewrite_loop wft i pairs st with
    | Ok st' =>
        Store.rewrite_loop wft d i pairs
          (perturbed_text st, original_text st, new_i st) h
        = (Ok (perturbed_text st', original_text st', new_i st'), h') /\
        Store.book n self d h' (modified_indices st') (newly_modified_indices st')
          (original_index_map st')
    | Raise e =>
        Store.rewrite_loop wft d i pairs
          (perturbed_text st, original_text st, new_i st) h
        = (Raise e, h')
    end.
Proof.
  induction pairs as [|[w r] pairs IH]; intros i st h Hb.
  - exists h. split; [apply stable_refl|]. split; [reflexivity | exact Hb].
  - cbn [rewrite_loop Store.rewrite_loop].
    destruct (sim_rewrite_step i w r st h Hb) as (h1 & S1 & H1).
    destruct (rewrite_step wft i w r st) as [st1|e].
    + destruct H1 as [E1 B1]. cbn [mbind result_bind].
      destruct (IH (S i) st1 h1 B1) as (h2 & S2 & H2).
      exists h2. split; [eauto using stable_trans|].
      rewrite (bind_run _ _ h h1 _ E1). exact H2.
    + exists h1. split; [exact S1|]. cbn [mbind result_bind].
      now rewrite (bind_fail _ _ h h1 e).
Qed.


(** The call of [__init__] that ends [replace_new_words]. *)
Lemma sim_init_tail (h : Store.heap) (m nw : gset Z) (a : list Z) (pin : Store.loc)
    (segs : list (string * string)) :
  Store.book n self d h m nw a ->
  h !! pin = Some (Store.OSegments segs) ->
  let ws := wft (Py.join newline (dict_values (Store.strip_segments segs))) in
  exists h',
    Store.init wft (Store.InOrderedDict pin) (Store.AttrsDict d) h
      = (Ok (length h + 4)%nat, h') /\
    h' !! (length h + 4)%nat = Some (Store.OInstance (length h) (S (length h)) d) /\
    h' !! length h = Some (Store.OSegments (Store.strip_segments segs)) /\
    h' !! S (length h) = Some (Store.OList ws) /\
    Store.book n self d h' m nw a.
Proof.
  intros (lm & lnw & la & Hd & Hm & Hnw & Ha & Hne & Hnd & Hnm & Hnn & Hna) Hpin ws.
  pose proof (lookup_lt_Some _ _ _ Hd) as Ld.
  pose proof (lookup_lt_Some _ _ _ Hm) as Lm.
  pose proof (lookup_lt_Some _ _ _ Hnw) as Lnw.
  pose proof (lookup_lt_Some _ _ _ Ha) as La.
  pose proof (lookup_lt_Some _ _ _ Hpin) as Lpin.
  set (dd := [("newly_modified_indices", lnw); ("previous_attacked_text", self);
              ("modified_indices", lm); ("original_index_map", la)]) in *.
  set (h1 := (h ++ [Store.OSegments (Store.strip_segments segs)])%list).
  set (h2 := (h1 ++ [Store.OList ws])%list).
  set (h3 := (h2 ++ [Store.ONdarray (Py.arange (length ws))])%list).
  set (h4 := <[d:=Store.OAttrs dd]> h3).
  set (h5 := (h4 ++ [Store.OSet ∅])%list).
  set (h6 := <[d:=Store.OAttrs dd]> h5).
  set (h7 := (h6 ++ [Store.OInstance (length h) (S (length h)) d])%list).
  assert (L1 : length h1 = S (length h)) by (unfold h1; sizes).
  assert (L2 : length h2 = S (S (length h))) by (unfold h2, h1; sizes).
  assert (L3 : length h3 = S (S (S (length h)))) by (unfold h3, h2, h1; sizes).
  assert (L5 : length h5 = S (S (S (S (length h)))))
    by (unfold h5, h4, h3, h2, h1; sizes).
  assert (L6 : length h6 = (length h + 4)%nat) by (unfold h6; rewrite length_insert; lia).
  assert (D3 : h3 !! d = Some (Store.OAttrs dd)) by (unfold h3, h2, h1; look; exact Hd).
  assert (D5 : h5 !! d = Some (Store.OAttrs dd)).
  { unfold h5. rewrite lookup_app_l by (unfold h4; rewrite length_insert; lia).
    unfold h4. apply list_lookup_insert_eq. lia. }
  exists h7. split; [|split; [|split; [|split]]].
  - unfold Store.init.
    rewrite (bind_run _ _ h h pin) by reflexivity.
    rewrite (bind_run _ _ h h segs) by (now apply read_segments_run).
    rewrite (bind_run _ _ h h1 (length h)) by reflexivity.
    rewrite (bind_run _ _ h1 h2 (S (length h))) by (unfold Store.alloc; now rewrite L1).
    rewrite (bind_run _ _ h2 h2 d).
    2:{ rewrite (bind_run _ _ h2 h2 dd); [reflexivity|].
        apply read_attrs_run. unfold h2, h1. look. exact Hd. }
    rewrite (bind_run _ _ h2 h3 (S (S (length h)))) by (unfold Store.alloc; now rewrite L2).
    rewrite (bind_run _ _ h3 h4 tt).
    2:{ unfold Store.attrs_setdefault.
        now rewrite (bind_run _ _ h3 h3 dd) by (now apply read_attrs_run). }
    rewrite (bind_run _ _ h4 h5 (S (S (S (length h))))).
    2:{ unfold Store.alloc, h4. now rewrite length_insert, L3. }
    rewrite (bind_run _ _ h5 h6 tt).
    2:{ unfold Store.attrs_setdefault.
        now rewrite (bind_run _ _ h5 h5 dd) by (now apply read_attrs_run). }
    unfold Store.alloc. now rewrite L6.
  - unfold h7. rewrite <- L6. apply lookup_alloc.
  - unfold h7, h6, h5, h4, h3, h2. look. unfold h1. apply lookup_alloc.
  - unfold h7, h6, h5, h4, h3. look. unfold h2. rewrite <- L1. apply lookup_alloc.
  - exists lm, lnw, la.
    split.
    { unfold h7. rewrite lookup_app_l by lia. unfold h6.
      apply list_lookup_insert_eq. lia. }
    split; [unfold h7, h6, h5, h4, h3, h2, h1; look; exact Hm|].
    split; [unfold h7, h6, h5, h4, h3, h2, h1; look; exact Hnw|].
    split; [unfold h7, h6, h5, h4, h3, h2, h1; look; exact Ha|].
    repeat split; assumption.
Qed.


Lemma book_alloc (h : Store.heap) (m nw : gset Z) (a : list Z) (o : Store.obj) :
  Store.book n self d h m nw a -> Store.book n self d (h ++ [o])%list m nw a.
Proof.
  intros (lm & lnw & la & Hd & Hm & Hnw & Ha & Hrest).
  exists lm, lnw, la.
  repeat (split; [rewrite lookup_app_l by (eapply lookup_lt_Some; eauto); assumption|]).
  exact Hrest.
Qed.

End Sim.

Lemma attrs_get_fail (d : Store.loc) (dd : list (string * Store.loc)) (k : string) (h : Store.heap) :
  h !! d = Some (Store.OAttrs dd) -> dict_get k dd = None ->
  Store.attrs_get d k h = (Raise KeyError, h).
Proof.
  intros E1 E2. unfold Store.attrs_get.
  rewrite (bind_run _ _ _ _ _ (read_attrs_run _ _ _ E1)). now rewrite E2.
Qed.

Lemma value_repr_kind (h : Store.heap) (v : attr) (lv : Store.loc) :
  Store.value_repr h v lv ->
  match v with
  | Ndarray a => h !! lv = Some (Store.ONdarray a)
  | PySet s => h !! lv = Some (Store.OSet s)
  | Instance_ _ => exists a b c, h !! lv = Some (Store.OInstance a b c)
  end.
Proof.
  destruct v as [a|s|[ti ws attrs]]; try exact (fun H => H).
  intros (lti & lws & lattrs & dd & H & _). eauto.
Qed.

(** Reading a set through the dictionary, against [attr_set]. *)
Lemma sim_attr_set (h0 h : Store.heap) attrs (lattrs : Store.loc) dd (k : string) :
  Store.attrs_repr h0 attrs dd ->
  (forall l o, h0 !! l = Some o -> h !! l = Some o) ->
  h !! lattrs = Some (Store.OAttrs dd) ->
  (ml ← Store.attrs_get lattrs k; Store.read_set ml) h = (attr_set attrs k, h).
Proof.
  intros Hrep Hext Hat. unfold attr_set.
  pose proof (attrs_repr_get h0 k attrs dd Hrep) as Hget.
  destruct (dict_get k attrs) as [v|].
  - destruct Hget as (lv & Hlv & Hv). apply value_repr_kind in Hv.
    rewrite (bind_run _ _ _ _ _ (attrs_get_run _ _ _ _ _ Hat Hlv)).
    unfold Store.read_set, Store.read, mbind, Store.M_bind.
    destruct v as [a|s|t]; [| |destruct Hv as (x & y & z & Hv)];
      now rewrite (Hext _ _ Hv).
  - apply bind_fail. now apply attrs_get_fail with (dd := dd).
Qed.

Lemma sim_attr_array (h0 h : Store.heap) attrs (lattrs : Store.loc) dd (k : string) :
  Store.attrs_repr h0 attrs dd ->
  (forall l o, h0 !! l = Some o -> h !! l = Some o) ->
  h !! lattrs = Some (Store.OAttrs dd) ->
  (ml ← Store.attrs_get lattrs k; Store.read_array ml) h = (attr_array attrs k, h).
Proof.
  intros Hrep Hext Hat. unfold attr_array.
  pose proof (attrs_repr_get h0 k attrs dd Hrep) as Hget.
  destruct (dict_get k attrs) as [v|].
  - destruct Hget as (lv & Hlv & Hv). apply value_repr_kind in Hv.
    rewrite (bind_run _ _ _ _ _ (attrs_get_run _ _ _ _ _ Hat Hlv)).
    unfold Store.read_array, Store.read, mbind, Store.M_bind.
    destruct v as [a|s|t]; [| |destruct Hv as (x & y & z & Hv)];
      now rewrite (Hext _ _ Hv).
  - apply bind_fail. now apply attrs_get_fail with (dd := dd).
Qed.


Lemma sim_attr_set_bind {B : Type} (h0 h : Store.heap) attrs (lattrs : Store.loc) dd
    (k : string) (K : gset Z -> Store.M B) :
  Store.attrs_repr h0 attrs dd ->
  (forall l o, h0 !! l = Some o -> h !! l = Some o) ->
  h !! lattrs = Some (Store.OAttrs dd) ->
  (ml ← Store.attrs_get lattrs k; m ← Store.read_set ml; K m) h
  = match attr_set attrs k with
    | Ok m => K m h
    | Raise e => (Raise e, h)
    end.
Proof.
  intros Hrep Hext Hat. unfold attr_set.
  pose proof (attrs_repr_get h0 k attrs dd Hrep) as Hget.
  destruct (dict_get k attrs) as [v|].
  - destruct Hget as (lv & Hlv & Hv). apply value_repr_kind in Hv.
    rewrite (bind_run _ _ _ _ _ (attrs_get_run _ _ _ _ _ Hat Hlv)).
    unfold Store.read_set, Store.read, mbind, Store.M_bind.
    destruct v as [a|s|t]; [| |destruct Hv as (x & y & z & Hv)];
      now rewrite (Hext _ _ Hv).
  - apply bind_fail. now apply attrs_get_fail with (dd := dd).
Qed.

Lemma sim_attr_array_bind {B : Type} (h0 h : Store.heap) attrs (lattrs : Store.loc) dd
    (k : string) (K : list Z -> Store.M B) :
  Store.attrs_repr h0 attrs dd ->
  (forall l o, h0 !! l = Some o -> h !! l = Some o) ->
  h !! lattrs = Some (Store.OAttrs dd) ->
  (ml ← Store.attrs_get lattrs k; a ← Store.read_array ml; K a) h
  = match attr_array attrs k with
    | Ok a => K a h
    | Raise e => (Raise e, h)
    end.
Proof.
  intros Hrep Hext Hat. unfold attr_array.
  pose proof (attrs_repr_get h0 k attrs dd Hrep) as Hget.
  destruct (dict_get k attrs) as [v|].
  - destruct Hget as (lv & Hlv & Hv). apply value_repr_kind in Hv.
    rewrite (bind_run _ _ _ _ _ (attrs_get_run _ _ _ _ _ Hat Hlv)).
    unfold Store.read_array, Store.read, mbind, Store.M_bind.
    destruct v as [a|s|t]; [| |destruct Hv as (x & y & z & Hv)];
      now rewrite (Hext _ _ Hv).
  - apply bind_fail. now apply attrs_get_fail with (dd := dd).
Qed.

Section Top.
Variable wft : string -> list string.

(** The store embedding of [replace_new_words] computes what the value
    embedding computes: the same exception, or an object that is the
    instance the value embedding returns. *)
Theorem sim_replace_new_words (h : Store.heap) (s : AttackedText) (self lnws : Store.loc)
    (nws : list string) :
  Store.repr h s self ->
  h !! lnws = Some (Store.OList nws) ->
  exists h',
    match replace_new_words wft s nws with
    | Ok s' =>
        exists l', Store.replace_new_words wft self lnws h = (Ok l', h') /\
                   Store.repr h' s' l'
    | Raise e => Store.replace_new_words wft self lnws h = (Raise e, h')
    end.
Proof.
  intros Hrepr Hnws. pose proof Hrepr as Hrepr0.
  destruct s as [ti ws attrs].
  apply repr_unfold in Hrepr as (lti & lws & lattrs & dd0 & Hs & Hti & Hws & Hat & Hrep).
  pose proof (lookup_lt_Some _ _ _ Hs) as Ls.
  pose proof (lookup_lt_Some _ _ _ Hti) as Lti.
  pose proof (lookup_lt_Some _ _ _ Hws) as Lws.
  pose proof (lookup_lt_Some _ _ _ Hat) as Lat.
  pose proof (lookup_lt_Some _ _ _ Hnws) as Lnws.
  pose proof (frame_replace_new_words wft (length h) self lnws h (le_n _) I)
    as [[_ Hframe] _].
  remember (Store.replace_new_words wft self lnws h) as run eqn:Erun.
  set (d := length h) in *.
  set (h1 := (h ++ [Store.OAttrs []])%list).
  set (h2 := (h1 ++ [Store.OSet ∅])%list).
  set (h3 := <[d:=Store.OAttrs [("newly_modified_indices", S d)]]> h2).
  set (h4 := <[d:=Store.OAttrs [("newly_modified_indices", S d);
                          ("previous_attacked_text", self)]]> h3).
  assert (X4 : forall l o, h !! l = Some o -> h4 !! l = Some o).
  { intros l o Hl. pose proof (lookup_lt_Some _ _ _ Hl).
    unfold h4, h3, h2, h1. look. exact Hl. }
  unfold Store.replace_new_words in Erun.
  rewrite (bind_run _ _ h h (lti, lws, lattrs)) in Erun
    by (now apply read_instance_run).
  rewrite (bind_run _ _ h h ti) in Erun by (now apply read_segments_run).
  rewrite (bind_run _ _ h h1 d) in Erun by reflexivity.
  rewrite (bind_run _ _ h1 h2 (S d)) in Erun
    by (unfold Store.alloc, h1; f_equal; f_equal; sizes).
  rewrite (bind_run _ _ h2 h3 tt) in Erun.
  2:{ apply (attrs_set_run d []). unfold h2, h1. look. apply lookup_alloc. }
  rewrite (bind_run _ _ h3 h4 tt) in Erun.
  2:{ apply (attrs_set_run d [("newly_modified_indices", S d)]).
      unfold h3. apply list_lookup_insert_eq. unfold h2, h1. sizes. }
  unfold replace_new_words.
  cbn [_text_input words attack_attrs].
  rewrite (sim_attr_set_bind h h4 attrs lattrs dd0 _ _ Hrep X4 (X4 _ _ Hat)) in Erun.
  destruct (attr_set attrs "modified_indices") as [m|e];
    [|exists h4; exact Erun].
  cbn [mbind result_bind].
  set (h5 := (h4 ++ [Store.OSet m])%list).
  set (h6 := <[d:=Store.OAttrs [("newly_modified_indices", S d);
                          ("previous_attacked_text", self);
                          ("modified_indices", S (S d))]]> h5).
  assert (L4 : length h4 = S (S d)) by (unfold h4, h3, h2, h1; sizes).
  assert (X6 : forall l o, h !! l = Some o -> h6 !! l = Some o).
  { intros l o Hl. pose proof (lookup_lt_Some _ _ _ Hl).
    unfold h6, h5. rewrite list_lookup_insert_ne by lia.
    rewrite lookup_app_l by lia. now apply X4. }
  rewrite (bind_run _ _ h4 h5 (S (S d))) in Erun by (unfold Store.alloc; now rewrite L4).
  rewrite (bind_run _ _ h5 h6 tt) in Erun.
  2:{ apply (attrs_set_run d [("newly_modified_indices", S d);
                              ("previous_attacked_text", self)]).
      unfold h5. rewrite lookup_app_l by lia. unfold h4.
      apply list_lookup_insert_eq. unfold h3, h2, h1. sizes. }
  rewrite (sim_attr_array_bind h h6 attrs lattrs dd0 _ _ Hrep X6 (X6 _ _ Hat)) in Erun.
  destruct (attr_array attrs "original_index_map") as [a|e];
    [|exists h6; exact Erun].
  cbn [mbind result_bind].
  set (h7 := (h6 ++ [Store.ONdarray a])%list).
  set (h8 := <[d:=Store.OAttrs [("newly_modified_indices", S d);
                          ("previous_attacked_text", self);
                          ("modified_indices", S (S d));
                          ("original_index_map", S (S (S d)))]]> h7).
  assert (L6 : length h6 = S (S (S d))) by (unfold h6, h5; sizes).
  assert (X8 : forall l o, h !! l = Some o -> h8 !! l = Some o).
  { intros l o Hl. pose proof (lookup_lt_Some _ _ _ Hl).
    unfold h8, h7. rewrite list_lookup_insert_ne by lia.
    rewrite lookup_app_l by lia. now apply X6. }
  rewrite (bind_run _ _ h6 h7 (S (S (S d)))) in Erun
    by (unfold Store.alloc; now rewrite L6).
  rewrite (bind_run _ _ h7 h8 tt) in Erun.
  2:{ apply (attrs_set_run d [("newly_modified_indices", S d);
                              ("previous_attacked_text", self);
                              ("modified_indices", S (S d))]).
      unfold h7. rewrite lookup_app_l by lia. unfold h6.
      apply list_lookup_insert_eq. unfold h5. sizes. }
  rewrite (bind_run _ _ h8 h8 ws) in Erun by (apply read_list_run; now apply X8).
  rewrite (bind_run _ _ h8 h8 nws) in Erun by (apply read_list_run; now apply X8).
  assert (B8 : Store.book d self d h8 m ∅ a).
  { exists (S (S d)), (S d), (S (S (S d))).
    split; [unfold h8; apply list_lookup_insert_eq; unfold h7; sizes|].
    split.
    { unfold h8, h7. rewrite list_lookup_insert_ne by lia.
      rewrite lookup_app_l by lia. unfold h6. rewrite list_lookup_insert_ne by lia.
      unfold h5. rewrite <- L4. apply lookup_alloc. }
    split.
    { unfold h8, h7. rewrite list_lookup_insert_ne by lia.
      rewrite lookup_app_l by lia. unfold h6, h5. rewrite list_lookup_insert_ne by lia.
      rewrite lookup_app_l by lia. unfold h4, h3. rewrite !list_lookup_insert_ne by lia.
      unfold h2. replace (S d) with (length h1) by (unfold h1; sizes).
      apply lookup_alloc. }
    split.
    { unfold h8. rewrite list_lookup_insert_ne by lia. unfold h7.
      rewrite <- L6. apply lookup_alloc. }
    repeat split; lia. }
  match goal with
  | |- context [rewrite_loop wft 0 ?pairs ?st0] =>
      destruct (sim_rewrite_loop wft d self d pairs 0%nat st0 h8 B8) as (h9 & S9 & H9);
      destruct (rewrite_loop wft 0 pairs st0) as [st|e]
  end.
  2:{ exists h9. cbn [perturbed_text original_text new_i] in H9.
      now rewrite (bind_fail _ _ h8 h9 e) in Erun. }
  destruct H9 as [E9 B9]. cbn [perturbed_text original_text new_i] in E9.
  cbn [mbind result_bind].
  rewrite (bind_run _ _ h8 h9 _ E9) in Erun. cbv beta iota zeta in Erun.
  set (segs := zip (dict_keys ti)
                 (Py.split (perturbed_text st +:+ original_text st) SPLIT_TOKEN))
    in *.
  set (h10 := (h9 ++ [Store.OSegments segs])%list).
  rewrite (bind_run _ _ h9 h10 (length h9)) in Erun by reflexivity.
  destruct (sim_init_tail wft d self d h10 _ _ _ (length h9) segs
              (book_alloc d self d h9 _ _ _ _ B9) (lookup_alloc _ _))
    as (h11 & E11 & I1 & I2 & I3 & B11).
  rewrite E11 in Erun.
  exists h11. unfold init. cbn [mbind result_bind].
  eexists. split; [exact Erun|].
  assert (X11 : forall l o, h !! l = Some o -> h11 !! l = Some o).
  { intros l o Hl. rewrite <- Hl.
    rewrite <- (Hframe l) by (eapply lookup_lt_Some; eauto).
    now rewrite Erun. }
  destruct B11 as (lm & lnw & la & Hd11 & Hm11 & Hnw11 & Ha11 & _).
  apply repr_unfold.
  exists (length h10), (S (length h10)), d,
    [("newly_modified_indices", lnw); ("previous_attacked_text", self);
     ("modified_indices", lm); ("original_index_map", la)].
  split; [exact I1|]. split; [exact I2|]. split; [exact I3|].
  split; [exact Hd11|].
  cbn. repeat split; try assumption.
  exact (repr_extend h h11 X11 _ _ Hrepr0).
Qed.

Lemma sim_assign_words (lc : Store.loc) (edits : list (index_arg * word_arg)) :
  forall (ws : list string) (h : Store.heap),
  h !! lc = Some (Store.OList ws) ->
  exists h',
    (forall l, l <> lc -> h' !! l = h !! l) /\
    match assign_words edits ws with
    | Ok ws' =>
        Store.assign_words edits lc h = (Ok tt, h') /\
        h' !! lc = Some (Store.OList ws')
    | Raise e => Store.assign_words edits lc h = (Raise e, h')
    end.
Proof.
  induction edits as [|[i w] edits IH]; intros ws h Hlc.
  - exists h. split; [reflexivity|]. split; [reflexivity | exact Hlc].
  - cbn [assign_words Store.assign_words].
    destruct i as [i|i|]; cbn [mbind result_bind];
      try (exists h; split; reflexivity);
      (rewrite (bind_run _ _ h h i) by reflexivity);
      (destruct w as [w|]; cbn [mbind result_bind];
       [|exists h; split; reflexivity]);
      rewrite (bind_run _ _ h h w) by reflexivity;
      rewrite (bind_run _ _ h h ws) by (now apply read_list_run);
      (destruct (_ || _); [exists h; split; reflexivity|]);
      (destruct (Py.setitem ws (Z.to_nat i) w) as [ws1|e] eqn:Es;
       cbn [mbind result_bind];
       [|exists h; split; [reflexivity|];
         now rewrite (bind_fail _ _ h h e) by (now rewrite lift_run)]);
      (destruct (IH ws1 (<[lc:=Store.OList ws1]> h)) as (h' & Hother & Hres);
       [apply list_lookup_insert_eq; eapply lookup_lt_Some; eauto|]);
      exists h';
      (split; [intros l Hl; rewrite Hother by exact Hl;
               now apply list_lookup_insert_ne|]);
      rewrite (bind_run _ _ h h ws1) by (now rewrite lift_run);
      rewrite (bind_run _ _ h (<[lc:=Store.OList ws1]> h) tt) by reflexivity;
      exact Hres.
Qed.

(** The same for [replace_words_at_indices]. *)
Theorem sim_replace_words_at_indices (h : Store.heap) (s : AttackedText) (self : Store.loc)
    (indices : list index_arg) (new_words : list word_arg) :
  Store.repr h s self ->
  exists h',
    match replace_words_at_indices wft s indices new_words with
    | Ok s' =>
        exists l',
          Store.replace_words_at_indices wft self indices new_words h
            = (Ok l', h') /\
          Store.repr h' s' l'
    | Raise e =>
        Store.replace_words_at_indices wft self indices new_words h
          = (Raise e, h')
    end.
Proof.
  intros Hrepr. pose proof Hrepr as Hrepr0.
  destruct s as [ti ws attrs].
  apply repr_unfold in Hrepr as (lti & lws & lattrs & dd0 & Hs & Hti & Hws & Hat & Hrep).
  unfold replace_words_at_indices, Store.replace_words_at_indices.
  destruct (negb _); [exists h; reflexivity|].
  rewrite (bind_run _ _ h h (lti, lws, lattrs)) by (now apply read_instance_run).
  rewrite (bind_run _ _ h h ws) by (now apply read_list_run).
  rewrite (bind_run _ _ h (h ++ [Store.OList ws])%list (length h)) by reflexivity.
  cbn [words].
  destruct (sim_assign_words (length h) (zip indices new_words) ws
              (h ++ [Store.OList ws])%list (lookup_alloc _ _)) as (h1 & Hother & Hres).
  destruct (assign_words (zip indices new_words) ws) as [ws'|e].
  2:{ exists h1. cbn [mbind result_bind]. now rewrite (bind_fail _ _ _ h1 e). }
  destruct Hres as [E1 Hlc]. cbn [mbind result_bind].
  rewrite (bind_run _ _ _ h1 tt E1).
  assert (X1 : forall l o, h !! l = Some o -> h1 !! l = Some o).
  { intros l o Hl. pose proof (lookup_lt_Some _ _ _ Hl).
    rewrite Hother by lia. now rewrite lookup_app_l. }
  exact (sim_replace_new_words h1 (Build_AttackedText ti ws attrs) self (length h) ws'
           (repr_extend h h1 X1 _ _ Hrepr0) Hlc).
Qed.

(** The root instance built in the store is the one built as a value. *)
Lemma sim_init_str (h : Store.heap) (str : string) :
  exists h' l s,
    init wft (InStr str) AttrsNone = Ok s /\
    Store.init wft (Store.InStr str) Store.AttrsNone h = (Ok l, h') /\
    Store.repr h' s l.
Proof.
  set (L := length h).
  set (segs := [("text", Py.strip str)]).
  set (ws := wft (Py.join newline (dict_values segs))).
  set (h1 := (h ++ [Store.OSegments [("text", str)]])%list).
  set (h2 := (h1 ++ [Store.OSegments segs])%list).
  set (h3 := (h2 ++ [Store.OList ws])%list).
  set (h4 := (h3 ++ [Store.OAttrs []])%list).
  set (h5 := (h4 ++ [Store.ONdarray (Py.arange (length ws))])%list).
  set (h6 := <[(L + 3)%nat:=Store.OAttrs [("original_index_map", (L + 4)%nat)]]> h5).
  set (h7 := (h6 ++ [Store.OSet ∅])%list).
  set (h8 := <[(L + 3)%nat:=Store.OAttrs [("original_index_map", (L + 4)%nat);
                                         ("modified_indices", (L + 5)%nat)]]> h7).
  set (h9 := (h8 ++ [Store.OInstance (L + 1) (L + 2) (L + 3)])%list).
  assert (L1 : length h1 = (L + 1)%nat) by (unfold h1; sizes).
  assert (L2 : length h2 = (L + 2)%nat) by (unfold h2, h1; sizes).
  assert (L3 : length h3 = (L + 3)%nat) by (unfold h3, h2, h1; sizes).
  assert (L4 : length h4 = (L + 4)%nat) by (unfold h4, h3, h2, h1; sizes).
  assert (L5 : length h5 = (L + 5)%nat) by (unfold h5, h4, h3, h2, h1; sizes).
  assert (L6 : length h6 = (L + 5)%nat) by (unfold h6; now rewrite length_insert).
  assert (L7 : length h7 = (L + 6)%nat) by (unfold h7; rewrite length_app, L6; simpl; lia).
  assert (L8 : length h8 = (L + 6)%nat) by (unfold h8; now rewrite length_insert).
  exists h9, (L + 6)%nat, (Build_AttackedText segs ws
                            [("original_index_map", Ndarray (Py.arange (length ws)));
                             ("modified_indices", PySet ∅)]).
  split; [reflexivity|]. split.
  - unfold Store.init.
    rewrite (bind_run _ _ h h1 L) by reflexivity.
    rewrite (bind_run _ _ h1 h1 [("text", str)]).
    2:{ apply read_segments_run. apply lookup_alloc. }
    rewrite (bind_run _ _ h1 h2 (L + 1)%nat)
      by (unfold Store.alloc; now rewrite L1).
    rewrite (bind_run _ _ h2 h3 (L + 2)%nat)
      by (unfold Store.alloc; now rewrite L2).
    rewrite (bind_run _ _ h3 h4 (L + 3)%nat)
      by (unfold Store.alloc; now rewrite L3).
    rewrite (bind_run _ _ h4 h5 (L + 4)%nat)
      by (unfold Store.alloc; now rewrite L4).
    rewrite (bind_run _ _ h5 h6 tt).
    2:{ unfold Store.attrs_setdefault.
        rewrite (bind_run _ _ h5 h5 []); [reflexivity|].
        apply read_attrs_run. unfold h5. rewrite lookup_app_l by lia.
        unfold h4. rewrite <- L3. apply lookup_alloc. }
    rewrite (bind_run _ _ h6 h7 (L + 5)%nat)
      by (unfold Store.alloc; now rewrite L6).
    rewrite (bind_run _ _ h7 h8 tt).
    2:{ unfold Store.attrs_setdefault.
        rewrite (bind_run _ _ h7 h7 [("original_index_map", (L + 4)%nat)]);
          [reflexivity|].
        apply read_attrs_run. unfold h7. rewrite lookup_app_l by lia.
        unfold h6. apply list_lookup_insert_eq. lia. }
    unfold Store.alloc. now rewrite L8.
  - apply repr_unfold.
    exists (L + 1)%nat, (L + 2)%nat, (L + 3)%nat,
      [("original_index_map", (L + 4)%nat); ("modified_indices", (L + 5)%nat)].
    split; [unfold h9; rewrite <- L8; apply lookup_alloc|].
    split.
    { unfold h9, h8, h7, h6, h5, h4, h3.
      rewrite lookup_app_l by sizes. rewrite list_lookup_insert_ne by lia.
      rewrite lookup_app_l by sizes. rewrite list_lookup_insert_ne by lia.
      rewrite !lookup_app_l by sizes. unfold h2. rewrite <- L1. apply lookup_alloc. }
    split.
    { unfold h9, h8, h7, h6, h5, h4.
      rewrite lookup_app_l by sizes. rewrite list_lookup_insert_ne by lia.
      rewrite lookup_app_l by sizes. rewrite list_lookup_insert_ne by lia.
      rewrite !lookup_app_l by sizes. unfold h3. rewrite <- L2. apply lookup_alloc. }
    split.
    { unfold h9. rewrite lookup_app_l by lia. unfold h8.
      apply list_lookup_insert_eq. lia. }
    cbn. split; [reflexivity|]. split.
    { unfold h9, h8, h7, h6.
      rewrite lookup_app_l by sizes. rewrite list_lookup_insert_ne by lia.
      rewrite lookup_app_l by sizes. rewrite list_lookup_insert_ne by lia.
      unfold h5. rewrite <- L4. apply lookup_alloc. }
    split; [reflexivity|]. split; [|exact I].
    unfold h9. rewrite lookup_app_l by lia.
    unfold h8. rewrite list_lookup_insert_ne by lia.
    unfold h7. rewrite <- L6. apply lookup_alloc.
Qed.

(** The object a rewrite was called on is the same instance afterwards,
    with its whole history. *)
Lemma rewrite_keeps_repr (h : Store.heap) (s : AttackedText) (self : Store.loc)
    (indices : list index_arg) (new_words : list word_arg) :
  Store.repr h s self ->
  Store.repr (Store.replace_words_at_indices wft self indices new_words h).2 s self.
Proof. apply repr_extend, rewrite_frame. Qed.
End Top.

End StoreSim.

(** C7: the text, the words, the index map and the modified indices of
    the instance a rewrite is called on are the same after the call,
    whether the call returned an instance or raised. *)
Theorem C7_rewrite_leaves_input (wft : string -> list string)
    (h : list Store.obj) (self : nat)
    (indices : list index_arg) (new_words : list word_arg) (v : Store.view) :
  (Store.observe self h).1 = Ok v ->
  (Store.observe self
     (Store.replace_words_at_indices wft self indices new_words h).2).1 = Ok v.
Proof.
  intros H.
  refine (f_equal fst (proj2 (StoreFacts.reads_only_observe self h _ v _ H))).
  apply StoreFacts.rewrite_frame.
Qed.

Lemma C7_rewrite_leaves_input_witness :
  exists v,
    (Store.observe fox_loc fox_store).1 = Ok v /\
    Store.view_words v = ["The"; "quick"; "fox"; "jumps"] /\
    is_ok (Store.replace_words_at_indices Tokenizer.words_from_text fox_loc
             [IdxInt 1] [WordStr "very slow"] fox_store).1 = true /\
    (Store.observe fox_loc
       (Store.replace_words_at_indices Tokenizer.words_from_text fox_loc
          [IdxInt 1] [WordStr "very slow"] fox_store).2).1 = Ok v /\
    (Store.replace_words_at_indices Tokenizer.words_from_text fox_loc
       [IdxInt 4] [WordStr ""] fox_store).1 = Raise IndexError /\
    (Store.observe fox_loc
       (Store.replace_words_at_indices Tokenizer.words_from_text fox_loc
          [IdxInt 4] [WordStr ""] fox_store).2).1 = Ok v.
Proof.
  eexists.
  assert (O : (Store.observe fox_loc fox_store).1
              = Ok {| Store.view_text := "The quick fox jumps.";
                      Store.view_words := ["The"; "quick"; "fox"; "jumps"];
                      Store.view_original_index_map := [0; 1; 2; 3];
                      Store.view_modified_indices := ∅ |})
    by (vm_compute; reflexivity).
  split; [exact O|]. split; [reflexivity|].
  split; [vm_compute; reflexivity|].
  split; [exact (C7_rewrite_leaves_input _ _ _ _ _ _ O)|].
  split; [vm_compute; reflexivity|].
  exact (C7_rewrite_leaves_input _ _ _ _ _ _ O).
Defined.

(** The store registers an update in place: [__init__] called with a
    dictionary of the caller writes its defaults into that dictionary. *)
Example init_updates_the_given_dict :
  let h := [Store.OAttrs []] in
  let h' := (Store.init Tokenizer.words_from_text (Store.InStr "a")
               (Store.AttrsDict 0%nat) h).2 in
  h !! 0%nat = Some (Store.OAttrs []) /\
  h' !! 0%nat = Some (Store.OAttrs [("original_index_map", 4%nat);
                                    ("modified_indices", 5%nat)]).
Proof. split; vm_compute; reflexivity. Qed.

(** On the example the two embeddings return the same instance. *)
Example store_agrees_on_insertion :
  exists s' l' h',
    replace_words_at_indices Tokenizer.words_from_text fox_root
      [IdxInt 1] [WordStr "very slow"] = Ok s' /\
    Store.replace_words_at_indices Tokenizer.words_from_text fox_loc
      [IdxInt 1] [WordStr "very slow"] fox_store = (Ok l', h') /\
    exists a m,
      attr_array (attack_attrs s') "original_index_map" = Ok a /\
      attr_set (attack_attrs s') "modified_indices" = Ok m /\
      (Store.observe l' h').1
        = Ok {| Store.view_text := text s';
                Store.view_words := words s';
                Store.view_original_index_map := a;
                Store.view_modified_indices := m |}.
Proof.
  eexists _, _, _. split; [vm_compute; reflexivity|].
  split; [vm_compute; reflexivity|].
  eexists _, _. split; [vm_compute; reflexivity|].
  split; vm_compute; reflexivity.
Qed.

(** * Further properties of the class *)

(** ** More on strings *)

Lemma len_append (a b : string) : Py.len (a +:+ b) = (Py.len a + Py.len b)%nat.
Proof.
  unfold Py.len. induction a as [|c a IH]; [reflexivity|].
  rewrite append_cons. simpl. now rewrite IH.
Qed.

Lemma len_take (n : nat) (s : string) : Py.len (Py.take n s) = Nat.min n (Py.len s).
Proof.
  unfold Py.len. revert s; induction n as [|n IH]; intros [|c s]; simpl;
    try reflexivity. now rewrite IH.
Qed.

Lemma len_drop (n : nat) (s : string) : Py.len (Py.drop n s) = (Py.len s - n)%nat.
Proof.
  unfold Py.len. revert s; induction n as [|n IH]; intros [|c s]; simpl;
    try reflexivity. apply IH.
Qed.

Lemma len_lower (s : string) : Py.len (Py.lower s) = Py.len s.
Proof. unfold Py.len. induction s as [|c s IH]; simpl; congruence. Qed.

Lemma lower_take (n : nat) (s : string) :
  Py.lower (Py.take n s) = Py.take n (Py.lower s).
Proof.
  revert s; induction n as [|n IH]; intros [|c s]; simpl; try reflexivity.
  now rewrite IH.
Qed.

Lemma lower_drop (n : nat) (s : string) :
  Py.lower (Py.drop n s) = Py.drop n (Py.lower s).
Proof.
  revert s; induction n as [|n IH]; intros [|c s]; simpl; try reflexivity.
  apply IH.
Qed.

Lemma lower_slice (s : string) (lo hi : Z) :
  Py.lower (Py.slice s lo hi) = Py.slice (Py.lower s) lo hi.
Proof. unfold Py.slice. now rewrite lower_take, lower_drop, len_lower. Qed.

Lemma take_append_exact (a b : string) : Py.take (Py.len a) (a +:+ b) = a.
Proof.
  induction a as [|c a IH]; [reflexivity|].
  rewrite append_cons. simpl. now rewrite IH.
Qed.

Lemma clamp_nat (n k : nat) : Py.clamp n (Z.of_nat k) = Nat.min k n.
Proof.
  unfold Py.clamp. assert (E : (Z.of_nat k <? 0) = false) by (apply Z.ltb_ge; lia).
  now rewrite !E, Nat2Z.id.
Qed.

(** A slice between two positions of the string, in order. *)
Lemma slice_within (s : string) (a b : nat) :
  (a <= b <= Py.len s)%nat ->
  Py.slice s (Z.of_nat a) (Z.of_nat b) = Py.take (b - a) (Py.drop a s).
Proof.
  intros H. unfold Py.slice. rewrite !clamp_nat.
  now rewrite !Nat.min_l by lia.
Qed.

Lemma startswith_len (p s : string) :
  Py.startswith p s = true -> (Py.len p <= Py.len s)%nat.
Proof.
  unfold Py.len. revert s; induction p as [|a p IH]; intros [|b s] H; simpl in *;
    try lia; try discriminate.
  destruct (Ascii.eqb a b); [|discriminate]. apply IH in H. lia.
Qed.

Lemma startswith_take (p s : string) :
  Py.startswith p s = true -> Py.take (Py.len p) s = p.
Proof.
  intros H. rewrite (startswith_spec p s H) at 1. apply take_append_exact.
Qed.

Lemma startswith_refl (s : string) : Py.startswith s s = true.
Proof. induction s as [|c s IH]; simpl; [reflexivity|]. now rewrite Ascii.eqb_refl. Qed.

Lemma startswith_trans (p q s : string) :
  Py.startswith p q = true -> Py.startswith q s = true -> Py.startswith p s = true.
Proof.
  revert q s; induction p as [|a p IH]; intros [|b q] [|c s] H1 H2; simpl in *;
    try reflexivity; try discriminate.
  destruct (Ascii.eqb_spec a b) as [->|]; [|discriminate].
  destruct (Ascii.eqb b c); [|discriminate]. eapply IH; eassumption.
Qed.

Lemma find0_startswith (w s : string) (k : nat) :
  Py.find0 w s = Some k ->
  Py.startswith w (Py.drop k s) = true /\ (k + Py.len w <= Py.len s)%nat.
Proof.
  revert k; induction s as [|c s IH]; intros k; simpl.
  - destruct (Py.startswith w "") eqn:E; [|discriminate].
    intros [= <-]. split; [exact E|]. apply startswith_len in E. simpl in *. lia.
  - destruct (Py.startswith w (String c s)) eqn:E.
    + intros [= <-]. split; [exact E|]. apply startswith_len in E. simpl in *. lia.
    + destruct (Py.find0 w s) as [k'|] eqn:F; [|discriminate].
      intros [= <-]. destruct (IH k' eq_refl) as [H1 H2]. split; [exact H1|].
      unfold Py.len in *. simpl. lia.
Qed.

Lemma find0_here (w s : string) :
  Py.startswith w s = true -> Py.find0 w s = Some 0%nat.
Proof. intros H. destruct s; simpl in *; now rewrite H. Qed.

(** What [find] returns: [-1], or a position at or after a non-negative
    [start] where [sub] stands. *)
Lemma find_spec (s sub : string) (start : Z) :
  Py.find s sub start = -1 \/
  exists k : nat,
    Py.find s sub start = Z.of_nat k /\
    Py.startswith sub (Py.drop k s) = true /\
    (k + Py.len sub <= Py.len s)%nat /\
    (0 <= start -> start <= Z.of_nat k).
Proof.
  unfold Py.find.
  set (j := if start <? 0 then Z.max 0 (start + Z.of_nat (Py.len s)) else start).
  assert (Hj : 0 <= j /\ (0 <= start -> j = start)).
  { subst j. destruct (Z.ltb_spec start 0); lia. }
  destruct (Z.ltb_spec (Z.of_nat (Py.len s)) j) as [|Hle]; [now left|].
  destruct (Py.find0 sub (Py.drop (Z.to_nat j) s)) as [k|] eqn:F; [|now left].
  right. exists (Z.to_nat j + k)%nat.
  apply find0_startswith in F as [F1 F2].
  rewrite drop_drop in F1. rewrite len_drop in F2.
  split; [lia|]. split; [exact F1|]. split; lia.
Qed.

Lemma getitem_nat {A : Type} (l : list A) (n : nat) (x : A) :
  l !! n = Some x -> Py.getitem l (Z.of_nat n) = Ok x.
Proof.
  intros H. unfold Py.getitem.
  assert (E : (Z.of_nat n <? 0) = false) by (apply Z.ltb_ge; lia).
  now rewrite !E, Nat2Z.id, H.
Qed.

Lemma getitem_nil {A : Type} (i : Z) : Py.getitem (@nil A) i = Raise IndexError.
Proof.
  unfold Py.getitem. destruct (i <? 0); simpl;
    match goal with |- context [?x <? 0] => destruct (x <? 0) end; reflexivity.
Qed.

(** ** The position of a word in the text *)

(** The cursor of [_text_index_of_word_index] after the words of [ws]. *)
Lemma text_index_unfold (self : AttackedText) (n : nat) :
  _text_index_of_word_index self (Z.of_nat n) =
    foldl (fun look_after_index word =>
             Py.find (Py.lower (text self)) (Py.lower word) look_after_index)
          0 (take (S n) (words self)).
Proof.
  unfold _text_index_of_word_index. f_equal.
  replace (Z.of_nat n + 1) with (Z.of_nat (S n)) by lia. rewrite clamp_nat.
  destruct (Nat.le_ge_cases (S n) (length (words self))).
  - now rewrite Nat.min_l.
  - rewrite Nat.min_r by assumption. now rewrite !take_ge by lia.
Qed.

Lemma text_index_succ (self : AttackedText) (n : nat) (w : string) :
  words self !! S n = Some w ->
  _text_index_of_word_index self (Z.of_nat (S n)) =
    Py.find (Py.lower (text self)) (Py.lower w)
      (_text_index_of_word_index self (Z.of_nat n)).
Proof.
  intros H. rewrite !text_index_unfold.
  rewrite (take_S_r _ (S n) w H), foldl_app. reflexivity.
Qed.

Lemma text_index_last_find (self : AttackedText) (n : nat) (w : string) :
  words self !! n = Some w ->
  exists start,
    _text_index_of_word_index self (Z.of_nat n) =
      Py.find (Py.lower (text self)) (Py.lower w) start.
Proof.
  intros H. rewrite text_index_unfold.
  rewrite (take_S_r _ n w H), foldl_app. eexists. reflexivity.
Qed.

Lemma text_index_found (self : AttackedText) (n : nat) (w : string) :
  words self !! n = Some w ->
  _text_index_of_word_index self (Z.of_nat n) = -1 \/
  exists k : nat,
    _text_index_of_word_index self (Z.of_nat n) = Z.of_nat k /\
    Py.startswith (Py.lower w) (Py.drop k (Py.lower (text self))) = true /\
    (k + Py.len w <= Py.len (text self))%nat.
Proof.
  intros H. destruct (text_index_last_find self n w H) as [start ->].
  destruct (find_spec (Py.lower (text self)) (Py.lower w) start)
    as [E | (k & E & Hs & Hl & _)]; [now left|].
  right. exists k. rewrite !len_lower in Hl. auto.
Qed.

(** X1: in an ASCII text with ASCII words the text index of a word is
    [-1], or a position of the text at which the word stands, up to case. *)
Theorem text_index_locates_word (self : AttackedText) (n : nat) (w : string) :
  Py.isascii (text self) = true ->
  Forall (fun v => Py.isascii v = true) (words self) ->
  words self !! n = Some w ->
  let k := _text_index_of_word_index self (Z.of_nat n) in
  k = -1 \/
  (0 <= k /\ k + Z.of_nat (Py.len w) <= Z.of_nat (Py.len (text self)) /\
   Py.lower (Py.slice (text self) k (k + Z.of_nat (Py.len w))) = Py.lower w).
Proof.
  intros _ _ H k. subst k.
  destruct (text_index_found self n w H) as [E | (k & E & Hs & Hl)]; [now left|].
  right. rewrite E. split; [lia|]. split; [lia|].
  rewrite <- Nat2Z.inj_add, slice_within by lia.
  replace (k + Py.len w - k)%nat with (Py.len (Py.lower w))
    by (rewrite len_lower; lia).
  rewrite lower_take, lower_drop. now apply startswith_take.
Qed.

Lemma text_index_locates_word_witness :
  let k := _text_index_of_word_index fox_root (Z.of_nat 2) in
  k = -1 \/
  (0 <= k /\ k + Z.of_nat (Py.len "fox") <= Z.of_nat (Py.len (text fox_root)) /\
   Py.lower (Py.slice (text fox_root) k (k + Z.of_nat (Py.len "fox")))
     = Py.lower "fox").
Proof.
  apply (text_index_locates_word fox_root 2 "fox");
    [reflexivity | repeat constructor | reflexivity].
Defined.

(** X2: in an ASCII text with ASCII words, where the word is found, the
    text is the text until it, the word as the text has it, and the text
    after it. *)
Theorem text_until_and_after_word (self : AttackedText) (n : nat) (w : string) :
  Py.isascii (text self) = true ->
  Forall (fun v => Py.isascii v = true) (words self) ->
  words self !! n = Some w ->
  0 <= _text_index_of_word_index self (Z.of_nat n) ->
  exists mid after,
    text_after_word_index self (Z.of_nat n) = Ok after /\
    text self = text_until_word_index self (Z.of_nat n) +:+ mid +:+ after /\
    Py.lower mid = Py.lower w.
Proof.
  intros _ _ H Hk.
  destruct (text_index_found self n w H) as [E | (k & E & Hs & Hl)]; [lia|].
  exists (Py.take (Py.len w) (Py.drop k (text self))),
         (Py.drop (k + Py.len w) (text self)).
  unfold text_after_word_index, text_until_word_index.
  rewrite (getitem_nat _ _ _ H), E. simpl.
  rewrite <- Nat2Z.inj_add.
  rewrite (slice_within _ (k + Py.len w) (Py.len (text self))) by lia.
  rewrite (slice_within _ 0 k) by lia. simpl.
  rewrite Nat.sub_0_r.
  split; [|split].
  - f_equal. rewrite <- (append_empty_r (Py.take _ _)).
    rewrite <- (take_drop (Py.len (text self) - (k + Py.len w))
                  (Py.drop (k + Py.len w) (text self))) at 2.
    f_equal. 
    assert (L : Py.len (Py.drop (Py.len (text self) - (k + Py.len w))
                   (Py.drop (k + Py.len w) (text self))) = 0%nat).
    { rewrite !len_drop. lia. }
    destruct (Py.drop _ (Py.drop _ _)); [reflexivity | discriminate].
  - rewrite <- (drop_drop k (Py.len w)).
    now rewrite !take_drop.
  - rewrite lower_take, lower_drop.
    rewrite <- (len_lower w). now apply startswith_take.
Qed.

Lemma text_until_and_after_word_witness :
  exists mid after,
    text_after_word_index fox_root (Z.of_nat 1) = Ok after /\
    text fox_root = text_until_word_index fox_root (Z.of_nat 1) +:+ mid +:+ after /\
    Py.lower mid = Py.lower "quick".
Proof.
  apply (text_until_and_after_word fox_root 1 "quick");
    [reflexivity | repeat constructor | reflexivity|].
  vm_compute. discriminate.
Defined.

(** X3: a word whose lower case begins the lower case of the word before it
    is given the position of that word: the search starts where the last
    word began, not where it ended. *)
Theorem text_index_does_not_advance (self : AttackedText) (n : nat)
    (w1 w2 : string) :
  words self !! n = Some w1 ->
  words self !! S n = Some w2 ->
  Py.startswith (Py.lower w2) (Py.lower w1) = true ->
  0 <= _text_index_of_word_index self (Z.of_nat n) ->
  _text_index_of_word_index self (Z.of_nat (S n))
    = _text_index_of_word_index self (Z.of_nat n).
Proof.
  intros H1 H2 Hp Hk. rewrite (text_index_succ self n w2 H2).
  destruct (text_index_found self n w1 H1) as [E | (k & E & Hs & Hl)]; [lia|].
  rewrite E. unfold Py.find.
  destruct (Z.ltb_spec (Z.of_nat k) 0); [lia|].
  rewrite len_lower.
  destruct (Z.ltb_spec (Z.of_nat (Py.len (text self))) (Z.of_nat k)); [lia|].
  rewrite Nat2Z.id.
  rewrite (find0_here _ _ (startswith_trans _ _ _ Hp Hs)). lia.
Qed.

Lemma text_index_does_not_advance_witness :
  _text_index_of_word_index
    (Build_AttackedText [("text", "the the cat")] ["the"; "the"; "cat"] [])
    (Z.of_nat 1)
  = _text_index_of_word_index
    (Build_AttackedText [("text", "the the cat")] ["the"; "the"; "cat"] [])
    (Z.of_nat 0).
Proof.
  apply (text_index_does_not_advance _ 0 "the" "the");
    [reflexivity | reflexivity | reflexivity | vm_compute; discriminate].
Defined.

(** X4: the positions of consecutive words that are found do not go back. *)
Theorem text_index_monotone (self : AttackedText) (n : nat) (w : string) :
  words self !! S n = Some w ->
  0 <= _text_index_of_word_index self (Z.of_nat n) ->
  0 <= _text_index_of_word_index self (Z.of_nat (S n)) ->
  _text_index_of_word_index self (Z.of_nat n)
    <= _text_index_of_word_index self (Z.of_nat (S n)).
Proof.
  intros H Hn. rewrite (text_index_succ self n w H).
  destruct (find_spec (Py.lower (text self)) (Py.lower w)
              (_text_index_of_word_index self (Z.of_nat n)))
    as [-> | (k & -> & _ & _ & Hle)]; [lia|].
  intros _. now apply Hle.
Qed.

Lemma text_index_monotone_witness :
  _text_index_of_word_index fox_root (Z.of_nat 1)
    <= _text_index_of_word_index fox_root (Z.of_nat 2).
Proof.
  apply (text_index_monotone fox_root 1 "fox");
    [reflexivity | vm_compute; discriminate | vm_compute; discriminate].
Defined.

(** ** The window around a word *)

Lemma window_bounds_spec (length index window_size : Z) :
  0 <= index < length -> 1 <= window_size ->
  exists start end_,
    window_bounds length index window_size = (start, end_) /\
    0 <= start <= index /\ index <= end_ < length /\
    end_ - start + 1 = Z.min window_size length.
Proof.
  intros Hi Hw. unfold window_bounds.
  destruct (Z.ltb_spec (2 * index - (window_size - 1)) 0).
  { eexists _, _. split; [reflexivity|]. lia. }
  destruct (Z.leb_spec (2 * length) (2 * index + (window_size - 1))).
  { eexists _, _. split; [reflexivity|]. lia. }
  eexists _, _. split; [reflexivity|].
  replace (window_size - 1 + 1) with window_size by lia.
  pose proof (Z.div_mod window_size 2 ltac:(lia)).
  pose proof (Z.mod_pos_bound window_size 2 ltac:(lia)).
  pose proof (Z.div_mod (window_size - 1) 2 ltac:(lia)).
  pose proof (Z.mod_pos_bound (window_size - 1) 2 ltac:(lia)).
  assert (window_size / 2 + (window_size - 1) / 2 = window_size - 1).
  { assert ((window_size - 1) mod 2 = 1 - window_size mod 2).
    { rewrite Zminus_mod. change (1 mod 2) with 1.
      destruct (Z.eq_dec (window_size mod 2) 0) as [->| ];
        [reflexivity|].
      replace (window_size mod 2) with 1 by lia. reflexivity. }
    lia. }
  lia.
Qed.

(** X5: for an index of a word and a window of at least one word, both
    within the integers a float holds exactly, the window keeps the index
    inside, stays within the words, spans as many words as asked for or
    all of them, and the call returns the text between the positions found
    for its first and last word. *)
Theorem text_window_spans (self : AttackedText) (index window_size : Z) :
  0 <= index < Z.of_nat (length (words self)) ->
  1 <= window_size ->
  index <= float_exact ->
  window_size <= float_exact ->
  exists (start end_ : nat) (w : string),
    window_bounds (Z.of_nat (length (words self))) index window_size
      = (Z.of_nat start, Z.of_nat end_) /\
    Z.of_nat start <= index <= Z.of_nat end_ /\
    (end_ < length (words self))%nat /\
    Z.of_nat end_ - Z.of_nat start + 1
      = Z.min window_size (Z.of_nat (length (words self))) /\
    words self !! end_ = Some w /\
    text_window_around_index self index window_size =
      Ok (Py.slice (text self)
            (_text_index_of_word_index self (Z.of_nat start))
            (_text_index_of_word_index self (Z.of_nat end_)
               + Z.of_nat (Py.len w))).
Proof.
  intros Hi Hw _ _.
  destruct (window_bounds_spec _ _ _ Hi Hw) as (s & e & Hb & Hs & He & Hsz).
  assert (Hlk : is_Some (words self !! Z.to_nat e)).
  { apply lookup_lt_is_Some. lia. }
  destruct Hlk as [w Hlk].
  exists (Z.to_nat s), (Z.to_nat e), w.
  rewrite !Z2Nat.id by lia.
  split; [exact Hb|]. split; [lia|]. split; [lia|]. split; [exact Hsz|].
  split; [exact Hlk|].
  unfold text_window_around_index. rewrite Hb.
  pose proof (getitem_nat _ _ _ Hlk) as G. rewrite Z2Nat.id in G by lia.
  now rewrite G.
Qed.

Lemma text_window_spans_witness :
  exists (start end_ : nat) (w : string),
    window_bounds (Z.of_nat (length (words fox_root))) 3 2
      = (Z.of_nat start, Z.of_nat end_) /\
    Z.of_nat start <= 3 <= Z.of_nat end_ /\
    (end_ < length (words fox_root))%nat /\
    Z.of_nat end_ - Z.of_nat start + 1
      = Z.min 2 (Z.of_nat (length (words fox_root))) /\
    words fox_root !! end_ = Some w /\
    text_window_around_index fox_root 3 2 =
      Ok (Py.slice (text fox_root)
            (_text_index_of_word_index fox_root (Z.of_nat start))
            (_text_index_of_word_index fox_root (Z.of_nat end_)
               + Z.of_nat (Py.len w))).
Proof.
  apply (text_window_spans fox_root 3 2);
    [simpl; lia | lia | apply Z.leb_le; reflexivity | apply Z.leb_le; reflexivity].
Defined.

(** X6: an instance without words has no window: for every index and
    every window size within the integers a float holds exactly, the call
    raises [IndexError]. *)
Theorem text_window_no_words (self : AttackedText) (index window_size : Z) :
  words self = [] ->
  Z.abs index <= float_exact ->
  Z.abs window_size <= float_exact ->
  text_window_around_index self index window_size = Raise IndexError.
Proof.
  intros H _ _. unfold text_window_around_index. rewrite H.
  destruct (window_bounds _ _ _) as [s e]. now rewrite getitem_nil.
Qed.

Lemma text_window_no_words_witness :
  text_window_around_index (Build_AttackedText [("text", "")] [] []) 0 1
    = Raise IndexError.
Proof.
  apply text_window_no_words;
    [reflexivity | apply Z.leb_le; reflexivity | apply Z.leb_le; reflexivity].
Defined.

(** ** Where two instances differ *)

Lemma first_word_diff_index_loop_spec (l1 : list string) : forall l2 i r,
  first_word_diff_index_loop i l1 l2 = Some r <->
  exists n a b,
    r = (i + n)%nat /\ take n l1 = take n l2 /\
    l1 !! n = Some a /\ l2 !! n = Some b /\ a <> b.
Proof.
  induction l1 as [|x l1 IH]; intros [|y l2] i r; simpl;
    try (split; [discriminate | intros (n & a & b & _ & _ & H1 & H2 & _);
                                 destruct n; discriminate]).
  destruct (String.eqb_spec x y) as [->|Hne]; simpl.
  - rewrite IH. split.
    + intros (n & a & b & -> & Ht & H1 & H2 & Hab).
      exists (S n), a, b. simpl. rewrite Ht. repeat split; auto; lia.
    + intros ([|n] & a & b & -> & Ht & H1 & H2 & Hab); simpl in *.
      * congruence.
      * exists n, a, b. repeat split; auto; try lia; congruence.
  - split.
    + intros [= <-]. exists 0%nat, x, y. repeat split; auto; lia.
    + intros ([|n] & a & b & -> & Ht & H1 & H2 & Hab); simpl in *.
      * f_equal; lia.
      * congruence.
Qed.

Lemma first_word_diff_index_loop_none (l1 : list string) : forall l2 i,
  first_word_diff_index_loop i l1 l2 = None <-> ~ differ_at l1 l2.
Proof.
  intros l2 i. split.
  - intros H (n & a & b & H1 & H2 & Hab).
    assert (G : exists m a b, (m <= n)%nat /\ take m l1 = take m l2 /\
                  l1 !! m = Some a /\ l2 !! m = Some b /\ a <> b).
    { clear H. revert l1 l2 H1 H2.
      induction n as [|n IHn]; intros [|x l1] [|y l2] H1 H2; simpl in *;
        try discriminate.
      - exists 0%nat, a, b. repeat split; auto.
      - destruct (String.eqb_spec x y) as [->|Hne].
        + destruct (IHn l1 l2 H1 H2) as (m & a' & b' & Hm & Ht & G1 & G2 & G3).
          exists (S m), a', b'. simpl. rewrite Ht. repeat split; auto; lia.
        + exists 0%nat, x, y. repeat split; auto; lia. }
    destruct G as (m & a' & b' & _ & Ht & G1 & G2 & G3).
    assert (E : first_word_diff_index_loop i l1 l2 = Some (i + m)%nat).
    { apply first_word_diff_index_loop_spec. exists m, a', b'. auto. }
    congruence.
  - intros H.
    destruct (first_word_diff_index_loop i l1 l2) as [r|] eqn:E; [|reflexivity].
    apply first_word_diff_index_loop_spec in E
      as (n & a & b & _ & _ & H1 & H2 & Hab).
    exfalso. apply H. exists n, a, b. auto.
Qed.

(** X7: [first_word_diff_index] returns [i] exactly when the two word lists
    agree before [i] and differ at [i], and [None] exactly when they differ
    at no index both have. *)
Theorem first_word_diff_index_spec (self other : AttackedText) :
  (forall i : nat,
     first_word_diff_index self other = Some i <->
     take i (words self) = take i (words other) /\
     exists a b, words self !! i = Some a /\ words other !! i = Some b /\ a <> b) /\
  (first_word_diff_index self other = None <->
     ~ differ_at (words self) (words other)).
Proof.
  unfold first_word_diff_index. split.
  - intros i. rewrite first_word_diff_index_loop_spec. split.
    + intros (n & a & b & -> & Ht & H1 & H2 & Hab). simpl. eauto 6.
    + intros (Ht & a & b & H1 & H2 & Hab). exists i, a, b. auto.
  - apply first_word_diff_index_loop_none.
Qed.

Lemma all_words_diff_loop_spec (l1 : list string) : forall l2 i (acc : gset Z) x,
  x ∈ all_words_diff_loop i l1 l2 acc <->
  x ∈ acc \/
  exists n a b,
    x = Z.of_nat (i + n) /\ l1 !! n = Some a /\ l2 !! n = Some b /\ a <> b.
Proof.
  induction l1 as [|u l1 IH]; intros [|v l2] i acc x; simpl;
    try (split; [now left | intros [H | (n & a & b & _ & H1 & H2 & _)];
                             [exact H | destruct n; discriminate]]).
  rewrite IH. destruct (String.eqb_spec u v) as [->|Hne]; simpl.
  - split.
    + intros [H | (n & a & b & -> & H1 & H2 & Hab)]; [now left|].
      right. exists (S n), a, b. repeat split; auto; f_equal; lia.
    + intros [H | ([|n] & a & b & -> & H1 & H2 & Hab)]; [now left| |];
        simpl in *; [congruence|].
      right. exists n, a, b. repeat split; auto; f_equal; lia.
  - split.
    + intros [H | (n & a & b & -> & H1 & H2 & Hab)].
      * apply elem_of_union in H as [H|H]; [|now left].
        apply elem_of_singleton in H. right. exists 0%nat, u, v.
        repeat split; auto; rewrite H; f_equal; lia.
      * right. exists (S n), a, b. repeat split; auto; f_equal; lia.
    + intros [H | ([|n] & a & b & -> & H1 & H2 & Hab)]; simpl in *.
      * left. apply elem_of_union. now right.
      * left. apply elem_of_union. left. apply elem_of_singleton. f_equal. lia.
      * right. exists n, a, b. repeat split; auto; f_equal; lia.
Qed.

Lemma all_words_diff_elem (self other : AttackedText) (x : Z) :
  x ∈ all_words_diff self other <->
  exists (n : nat) a b,
    x = Z.of_nat n /\ words self !! n = Some a /\
    words other !! n = Some b /\ a <> b.
Proof.
  unfold all_words_diff. rewrite all_words_diff_loop_spec. split.
  - intros [H | H]; [now apply not_elem_of_empty in H | exact H].
  - intros H. right. exact H.
Qed.

(** X8: [all_words_diff] holds exactly the indices both instances have a
    word at and at which the two words differ; it does not depend on which
    of the two instances is asked. *)
Theorem all_words_diff_spec (self other : AttackedText) :
  (forall x : Z,
     x ∈ all_words_diff self other <->
     exists (n : nat) a b,
       x = Z.of_nat n /\ words self !! n = Some a /\
       words other !! n = Some b /\ a <> b) /\
  all_words_diff self other = all_words_diff other self.
Proof.
  split; [apply all_words_diff_elem|].
  apply set_eq. intros x. rewrite !all_words_diff_elem.
  split; intros (n & a & b & -> & H1 & H2 & Hab); exists n, b, a; auto.
Qed.

(** X9: the three comparisons agree: [first_word_diff] and
    [first_word_diff_index] return [None] exactly when [all_words_diff] is
    empty, and the index [first_word_diff_index] returns is the least
    element of [all_words_diff]. *)
Theorem word_diffs_agree (self other : AttackedText) :
  (first_word_diff self other = None <-> all_words_diff self other = ∅) /\
  (first_word_diff_index self other = None <-> all_words_diff self other = ∅) /\
  (forall i : nat,
     first_word_diff_index self other = Some i ->
     Z.of_nat i ∈ all_words_diff self other /\
     forall x, x ∈ all_words_diff self other -> Z.of_nat i <= x).
Proof.
  assert (He : all_words_diff self other = ∅ <->
               ~ differ_at (words self) (words other)).
  { split.
    - intros E (n & a & b & H1 & H2 & Hab).
      assert (Hin : Z.of_nat n ∈ all_words_diff self other).
      { apply all_words_diff_elem. exists n, a, b. auto. }
      rewrite E in Hin. now apply not_elem_of_empty in Hin.
    - intros H. apply set_eq. intros x. split.
      + intros Hx. apply all_words_diff_elem in Hx
          as (n & a & b & _ & H1 & H2 & Hab).
        exfalso. apply H. exists n, a, b. auto.
      + intros Hx. now apply not_elem_of_empty in Hx. }
  split; [|split].
  - rewrite He. unfold first_word_diff.
    destruct (first_word_diff_loop_spec (words self) (words self) (words other))
      as [[E D] | [E D]]; rewrite E; split; intros; try discriminate;
      try reflexivity; try assumption; contradiction.
  - rewrite He. unfold first_word_diff_index.
    apply first_word_diff_index_loop_none.
  - intros i H. unfold first_word_diff_index in H.
    apply first_word_diff_index_loop_spec in H
      as (n & a & b & -> & Ht & H1 & H2 & Hab). simpl. split.
    + apply all_words_diff_elem. exists n, a, b. auto.
    + intros x Hx. apply all_words_diff_elem in Hx
        as (m & a' & b' & -> & G1 & G2 & Gab).
      destruct (Nat.lt_ge_cases m n) as [Hlt|]; [|lia].
      exfalso. apply Gab.
      assert (E : take n (words self) !! m = take n (words other) !! m)
        by now rewrite Ht.
      rewrite !lookup_take_lt in E by assumption. congruence.
Qed.

(** X10: for an index that is not negative [ith_word_diff] returns; it
    answers [False] exactly when both instances have the same word there,
    so an index past the end of either counts as a difference. *)
Theorem ith_word_diff_spec (self other : AttackedText) (n : nat) :
  exists b,
    ith_word_diff self other (Z.of_nat n) = Ok b /\
    (b = false <->
     exists a, words self !! n = Some a /\ words other !! n = Some a).
Proof.
  unfold ith_word_diff.
  destruct (Z.ltb_spec (Z.of_nat (length (words self)) - 1) (Z.of_nat n)) as [H1|H1].
  { exists true. split; [reflexivity|]. split; [discriminate|].
    intros (a & Ha & _). apply lookup_lt_Some in Ha. lia. }
  destruct (Z.ltb_spec (Z.of_nat (length (words other)) - 1) (Z.of_nat n)) as [H2|H2].
  { exists true. split; [reflexivity|]. split; [discriminate|].
    intros (a & _ & Ha). apply lookup_lt_Some in Ha. lia. }
  simpl.
  destruct (lookup_lt_is_Some_2 (words self) n ltac:(lia)) as [a Ha].
  destruct (lookup_lt_is_Some_2 (words other) n ltac:(lia)) as [b Hb].
  rewrite (getitem_nat _ _ _ Ha), (getitem_nat _ _ _ Hb). simpl.
  eexists. split; [reflexivity|].
  destruct (String.eqb_spec a b) as [->|Hne]; simpl.
  - split; [|reflexivity]. intros _. exists b. auto.
  - split; [discriminate|]. intros (c & Hc1 & Hc2). congruence.
Qed.

(** X11: at an index both instances have, [ith_word_diff] answers [True]
    exactly when the index is in [all_words_diff]. *)
Theorem ith_word_diff_all_words_diff (self other : AttackedText) (n : nat) :
  (n < length (words self))%nat ->
  (n < length (words other))%nat ->
  ith_word_diff self other (Z.of_nat n)
    = Ok (bool_decide (Z.of_nat n ∈ all_words_diff self other)).
Proof.
  intros H1 H2. unfold ith_word_diff.
  destruct (Z.ltb_spec (Z.of_nat (length (words self)) - 1) (Z.of_nat n)); [lia|].
  destruct (Z.ltb_spec (Z.of_nat (length (words other)) - 1) (Z.of_nat n)); [lia|].
  simpl.
  destruct (lookup_lt_is_Some_2 (words self) n H1) as [a Ha].
  destruct (lookup_lt_is_Some_2 (words other) n H2) as [b Hb].
  rewrite (getitem_nat _ _ _ Ha), (getitem_nat _ _ _ Hb). simpl. f_equal.
  destruct (String.eqb_spec a b) as [->|Hne]; simpl; symmetry.
  - apply bool_decide_eq_false. intros Hin.
    apply all_words_diff_elem in Hin as (m & a' & b' & E & G1 & G2 & Gab).
    apply Nat2Z.inj in E. subst m. congruence.
  - apply bool_decide_eq_true. apply all_words_diff_elem. exists n, a, b. auto.
Qed.

Lemma ith_word_diff_all_words_diff_witness :
  ith_word_diff fox_root
    (Build_AttackedText [("text", "The slow fox")] ["The"; "slow"; "fox"] [])
    (Z.of_nat 1)
  = Ok (bool_decide (Z.of_nat 1 ∈ all_words_diff fox_root
         (Build_AttackedText [("text", "The slow fox")] ["The"; "slow"; "fox"] []))).
Proof. apply ith_word_diff_all_words_diff; simpl; lia. Defined.

(** X12: a negative index counts from the end, and [ith_word_diff] raises
    [IndexError] when it reaches before the first word of either
    instance. *)
Theorem ith_word_diff_negative_raises (self other : AttackedText) (i : Z) :
  i < 0 ->
  i + Z.of_nat (length (words self)) < 0 \/
  i + Z.of_nat (length (words other)) < 0 ->
  ith_word_diff self other i = Raise IndexError.
Proof.
  intros Hi H. unfold ith_word_diff.
  destruct (Z.ltb_spec (Z.of_nat (length (words self)) - 1) i); [lia|].
  destruct (Z.ltb_spec (Z.of_nat (length (words other)) - 1) i); [lia|].
  simpl. unfold Py.getitem.
  assert (E : (i <? 0) = true) by (apply Z.ltb_lt; lia). rewrite !E.
  destruct (Z.ltb_spec (i + Z.of_nat (length (words self))) 0) as [|Hs];
    [reflexivity|].
  destruct (words self !! Z.to_nat (i + Z.of_nat (length (words self))));
    [|reflexivity].
  simpl.
  destruct (Z.ltb_spec (i + Z.of_nat (length (words other))) 0); [reflexivity | lia].
Qed.

Lemma ith_word_diff_negative_raises_witness :
  ith_word_diff fox_root fox_root (-5) = Raise IndexError.
Proof. apply ith_word_diff_negative_raises; simpl; lia. Defined.

(** ** Equality and hashing *)












(** X14: where [==] answers [True] the two instances have the same text, and
    every set and array the left one holds is held by the right one under
    the same key: the same modified indices and the same index map. *)
Theorem eq_true_same_bookkeeping (a b : AttackedText) :
  AttackedText_eq a b = Ok true ->
  text a = text b /\
  (forall k m, attr_set (attack_attrs a) k = Ok m ->
               attr_set (attack_attrs b) k = Ok m) /\
  (forall k x, attr_array (attack_attrs a) k = Ok x ->
               attr_array (attack_attrs b) k = Ok x).
Proof.
  intros H. apply eq_true_fields in H as [Et H].
  split; [exact Et|]. unfold attr_set, attr_array.
  split; intros k m Hk;
    destruct (dict_get k (attack_attrs a)) as [[x|s|t]|] eqn:E; try discriminate;
    injection Hk as ->; apply dict_get_In in E;
    destruct (H _ _ E) as (v' & -> & Hv);
    destruct v'; try contradiction; now subst.
Qed.

Lemma eq_true_same_bookkeeping_witness :
  text fox_root = text fox_root /\
  (forall k m, attr_set (attack_attrs fox_root) k = Ok m ->
               attr_set (attack_attrs fox_root) k = Ok m) /\
  (forall k x, attr_array (attack_attrs fox_root) k = Ok x ->
               attr_array (attack_attrs fox_root) k = Ok x).
Proof. apply (eq_true_same_bookkeeping fox_root fox_root). vm_compute. reflexivity. Defined.

(** X15: instances that [==] finds equal have the same hash, whatever the
    hash of strings is. *)
Theorem eq_true_same_hash (hash : string -> Z) (a b : AttackedText) :
  AttackedText_eq a b = Ok true ->
  AttackedText_hash hash a = AttackedText_hash hash b.
Proof.
  intros H. apply eq_true_fields in H as [Et _].
  unfold AttackedText_hash. now rewrite Et.
Qed.

Lemma eq_true_same_hash_witness :
  AttackedText_hash (fun s => Z.of_nat (String.length s)) fox_root
  = AttackedText_hash (fun s => Z.of_nat (String.length s)) fox_root.
Proof. apply (eq_true_same_hash _ fox_root fox_root). vm_compute. reflexivity. Defined.

(** ** Rewrites: what a successful call says of its arguments *)

Lemma assign_words_inv (edits : list (index_arg * word_arg)) : forall ws ws',
  assign_words edits ws = Ok ws' ->
  length ws' = length ws /\
  Forall (fun e : index_arg * word_arg =>
            (exists i, (e.1 = IdxInt i \/ e.1 = IdxConvertible i) /\
                       0 <= i < Z.of_nat (length ws)) /\
            (exists s, e.2 = WordStr s)) edits.
Proof.
  induction edits as [|[ia wa] edits IH]; intros ws ws' H; simpl in H.
  - injection H as <-. split; [reflexivity | constructor].
  - apply bind_Ok in H as (i & Hi & H). apply bind_Ok in H as (s & Hs & H).
    destruct (Z.ltb_spec i 0) as [|H0]; [discriminate|].
    destruct (Z.ltb_spec (Z.of_nat (length ws)) i) as [|H1]; [discriminate|].
    simpl in H. apply bind_Ok in H as (ws1 & Hset & H).
    unfold Py.setitem in Hset.
    destruct (Nat.ltb_spec (Z.to_nat i) (length ws)) as [Hlt|]; [|discriminate].
    injection Hset as <-.
    destruct (IH _ _ H) as [Hl Hall]. rewrite length_insert in Hl, Hall.
    split; [exact Hl|]. constructor; [|exact Hall]. simpl. split.
    + exists i. split; [|lia].
      destruct ia; try discriminate; injection Hi as ->; auto.
    + exists s. destruct wa; [|discriminate]. now injection Hs as ->.
Qed.

Lemma Forall_zip_both {A B : Type} (P : A -> Prop) (Q : B -> Prop) (l1 : list A) :
  forall l2 : list B,
  length l1 = length l2 ->
  Forall (fun e : A * B => P e.1 /\ Q e.2) (zip l1 l2) ->
  Forall P l1 /\ Forall Q l2.
Proof.
  induction l1 as [|x l1 IH]; intros [|y l2] Hl H; simpl in *; try discriminate.
  - split; constructor.
  - apply Forall_cons in H as [[Hx Hy] H].
    destruct (IH l2 ltac:(lia) H). split; constructor; assumption.
Qed.

(** X16: a call of [replace_words_at_indices] that returns was given as many
    words as indices, every index an [int] (or convertible to one) that is
    the index of a word, and every word a [str]. *)
Theorem rewrite_returns_only_on_valid_edits (wft : string -> list string)
    (self s' : AttackedText) (indices : list index_arg)
    (new_words : list word_arg) :
  replace_words_at_indices wft self indices new_words = Ok s' ->
  length indices = length new_words /\
  Forall (fun ia => exists i, (ia = IdxInt i \/ ia = IdxConvertible i) /\
                              0 <= i < Z.of_nat (length (words self))) indices /\
  Forall (fun wa => exists s, wa = WordStr s) new_words.
Proof.
  unfold replace_words_at_indices. intros H.
  destruct (Nat.eqb_spec (length indices) (length new_words)) as [Hl|];
    [|discriminate].
  simpl in H. apply bind_Ok in H as (ws & Hws & _).
  apply assign_words_inv in Hws as [_ Hall].
  split; [exact Hl|].
  exact (Forall_zip_both
           (fun ia => exists i, (ia = IdxInt i \/ ia = IdxConvertible i) /\
                                0 <= i < Z.of_nat (length (words self)))
           (fun wa => exists s, wa = WordStr s) _ _ Hl Hall).
Qed.

Lemma rewrite_returns_only_on_valid_edits_witness :
  length [IdxInt 1] = length [WordStr "very slow"] /\
  Forall (fun ia => exists i, (ia = IdxInt i \/ ia = IdxConvertible i) /\
                              0 <= i < Z.of_nat (length (words fox_root)))
         [IdxInt 1] /\
  Forall (fun wa => exists s, wa = WordStr s) [WordStr "very slow"].
Proof.
  eapply (rewrite_returns_only_on_valid_edits Tokenizer.words_from_text fox_root).
  vm_compute. reflexivity.
Defined.

(** X17: where the first edit has an [int] index below [0] or above the
    number of words and a [str] word, [replace_words_at_indices] raises
    [ValueError], whatever edits follow. *)
Theorem first_edit_out_of_range (wft : string -> list string)
    (self : AttackedText) (i : Z) (w : string)
    (indices : list index_arg) (new_words : list word_arg) :
  length indices = length new_words ->
  i < 0 \/ Z.of_nat (length (words self)) < i ->
  replace_words_at_indices wft self (IdxInt i :: indices) (WordStr w :: new_words)
  = Raise ValueError.
Proof.
  intros Hl H. unfold replace_words_at_indices. simpl. rewrite Hl, Nat.eqb_refl.
  simpl.
  destruct (Z.ltb_spec i 0); [reflexivity|].
  destruct (Z.ltb_spec (Z.of_nat (length (words self))) i); [reflexivity | lia].
Qed.

Lemma first_edit_out_of_range_witness :
  replace_words_at_indices Tokenizer.words_from_text fox_root
    [IdxInt (-1); IdxInt 0] [WordStr "A"; WordStr "B"]
  = Raise ValueError.
Proof. apply first_edit_out_of_range; [reflexivity | left; lia]. Defined.

(** ** Rewrites: what the result holds *)

(** X18: the attributes of the instance [replace_new_words] returns are the
    four the method sets, in this order, whatever else the given instance
    held; [previous_attacked_text] is the given instance, and the words are
    those of the new text. *)
Theorem rewrite_result_attributes (wft : string -> list string)
    (self s' : AttackedText) (new_words : list string) :
  replace_new_words wft self new_words = Ok s' ->
  dict_keys (attack_attrs s') =
    ["newly_modified_indices"; "previous_attacked_text";
     "modified_indices"; "original_index_map"] /\
  dict_get "previous_attacked_text" (attack_attrs s') = Some (Instance_ self) /\
  words s' = wft (text s').
Proof.
  intros H.
  apply replace_new_words_inv in H as (m & a & st & _ & _ & _ & _ & Hw & Hattrs).
  rewrite Hattrs. repeat split. exact Hw.
Qed.

Lemma rewrite_result_attributes_witness :
  exists s',
    replace_new_words Tokenizer.words_from_text fox_root
      ["The"; "slow"; "fox"; "jumps"] = Ok s' /\
    dict_keys (attack_attrs s') =
      ["newly_modified_indices"; "previous_attacked_text";
       "modified_indices"; "original_index_map"] /\
    dict_get "previous_attacked_text" (attack_attrs s') = Some (Instance_ fox_root) /\
    words s' = Tokenizer.words_from_text (text s').
Proof.
  eexists. split; [vm_compute; reflexivity|].
  apply (rewrite_result_attributes Tokenizer.words_from_text fox_root _
           ["The"; "slow"; "fox"; "jumps"]).
  vm_compute. reflexivity.
Defined.

Lemma init_words wft ti attrs s :
  init wft ti attrs = Ok s -> words s = wft (text s).
Proof.
  unfold init. intros H.
  apply bind_Ok in H as (d & _ & H). apply bind_Ok in H as (a & _ & H).
  injection H as <-. reflexivity.
Qed.

(** X19: every instance built from a text, and every instance made from it
    by rewrites, has the words of its own text and segments that are
    stripped of surrounding white space. *)
Theorem lineage_words_of_text (wft : string -> list string)
    (root s : AttackedText) :
  lineage wft root s ->
  words s = wft (text s) /\
  Forall (fun kv : string * string => Py.strip kv.2 = kv.2) (_text_input s).
Proof.
  assert (Hr : forall s0 nw s1, replace_new_words wft s0 nw = Ok s1 ->
             words s1 = wft (text s1) /\
             Forall (fun kv : string * string => Py.strip kv.2 = kv.2)
                    (_text_input s1)).
  { intros s0 nw s1 H.
    apply replace_new_words_inv in H as (m & a & st & _ & _ & _ & Hti & Hw & _).
    split; [exact Hw|]. rewrite Hti. apply Forall_fmap, Forall_forall.
    intros [k v] _. apply strip_idem. }
  induction 1 as [ti root H | root s s' nw _ _ H | root s s' idx nw _ _ H].
  - split; [eapply init_words | eapply init_stripped]; eassumption.
  - eapply Hr; eassumption.
  - unfold replace_words_at_indices in H.
    destruct (negb _); [discriminate|].
    apply bind_Ok in H as (ws & _ & H). eapply Hr; eassumption.
Qed.

Lemma lineage_words_of_text_witness :
  words fox_root = Tokenizer.words_from_text (text fox_root) /\
  Forall (fun kv : string * string => Py.strip kv.2 = kv.2) (_text_input fox_root).
Proof.
  apply (lineage_words_of_text Tokenizer.words_from_text fox_root fox_root).
  apply (lineage_root _ (InStr "The quick fox jumps.")). vm_compute. reflexivity.
Defined.

(** ** Rewrites: the index map *)

Lemma shift_index_map_keeps_deleted (i : nat) (d : Z) (a : list Z) (j : nat) :
  a !! j = Some (-1) -> shift_index_map (Z.of_nat i) d a !! j = Some (-1).
Proof.
  intros H. unfold shift_index_map, masked.
  assert (E1 : (-1 =? Z.of_nat i) = false) by (apply Z.eqb_neq; lia).
  assert (E2 : (Z.of_nat i <? -1) = false) by (apply Z.ltb_ge; lia).
  destruct (d =? -1); rewrite !list_lookup_fmap, H;
    cbn [fmap option_fmap option_map]; cbv beta; now rewrite ?E1, ?E2.
Qed.

Lemma rewrite_loop_keeps_deleted wft pairs : forall i st st' (j : nat),
  rewrite_loop wft i pairs st = Ok st' ->
  original_index_map st !! j = Some (-1) ->
  original_index_map st' !! j = Some (-1).
Proof.
  induction pairs as [|[w r] pairs IH]; intros i st st' j H Hj; simpl in H.
  - now injection H as <-.
  - apply bind_Ok in H as (st1 & H1 & H).
    apply (IH _ _ _ _ H). rewrite (rewrite_step_index_map _ _ _ _ _ _ H1).
    simpl. destruct (negb _); [now apply shift_index_map_keeps_deleted | exact Hj].
Qed.

(** X20: an entry [-1] of the index map, the mark of a deleted word, is
    still [-1] after any rewrite. *)
Theorem deleted_stays_deleted (wft : string -> list string)
    (self s' : AttackedText) (new_words : list string) (a a' : list Z) (j : nat) :
  replace_new_words wft self new_words = Ok s' ->
  attr_array (attack_attrs self) "original_index_map" = Ok a ->
  attr_array (attack_attrs s') "original_index_map" = Ok a' ->
  a !! j = Some (-1) ->
  a' !! j = Some (-1).
Proof.
  intros H Ha Ha' Hj.
  apply replace_new_words_inv in H as (m & a0 & st & _ & Ha0 & Hst & _ & _ & Hattrs).
  rewrite Hattrs in Ha'. injection Ha' as <-.
  rewrite Ha in Ha0. injection Ha0 as <-.
  now apply (rewrite_loop_keeps_deleted _ _ _ _ _ j Hst).
Qed.

(** ** Rewrites: the bookkeeping of one edit *)

Lemma elem_of_range_set (start : Z) (n : nat) (x : Z) :
  x ∈ range_set start n <-> start <= x < start + Z.of_nat n.
Proof.
  unfold range_set. rewrite elem_of_list_to_set, list_elem_of_fmap. split.
  - intros (k & -> & Hk). apply elem_of_seq in Hk. lia.
  - intros H. exists (Z.to_nat (x - start)). split; [lia|].
    apply elem_of_seq. lia.
Qed.

Lemma mark_new_words_changed n : forall st,
  modified_indices (mark_new_words n true st)
    = range_set (new_i st) n ∪ modified_indices st /\
  newly_modified_indices (mark_new_words n true st)
    = range_set (new_i st) n ∪ newly_modified_indices st.
Proof.
  induction n as [|n IH]; intros st.
  - split; apply set_eq; intros x; rewrite elem_of_union, elem_of_range_set;
      simpl; split; auto; intros [|]; [lia | assumption | lia | assumption].
  - cbn [mark_new_words].
    match goal with
    | |- context [mark_new_words n true ?s] => destruct (IH s) as [E1 E2]
    end.
    rewrite E1, E2. cbn [modified_indices newly_modified_indices new_i].
    split; apply set_eq; intros x;
      rewrite !elem_of_union, !elem_of_range_set, elem_of_singleton;
      intuition lia.
Qed.

Section OneEdit.
Variable wft : string -> list string.

Lemma rewrite_step_new_i i w r st st' :
  rewrite_step wft i w r st = Ok st' ->
  new_i st' = new_i st + Z.of_nat (length (wft r)).
Proof.
  unfold rewrite_step. intros H.
  apply bind_Ok in H as (k & _ & H).
  apply bind_Ok in H as ([p o] & _ & H). simpl in H.
  injection H as <-. simpl.
  match goal with
  | |- context [mark_new_words ?n ?c ?s] =>
      destruct (mark_new_words_locals n c s) as (_ & _ & _ & ->)
  end.
  reflexivity.
Qed.

Lemma rewrite_loop_identity_new_i ws : forall i st st',
  rewrite_loop wft i ((fun w => (w, w)) <$> ws) st = Ok st' ->
  new_i st' = new_i st + Z.of_nat (sum_list ((fun w => length (wft w)) <$> ws)).
Proof.
  induction ws as [|w ws IH]; intros i st st' H; simpl in H.
  - injection H as <-. simpl. lia.
  - apply bind_Ok in H as (st1 & H1 & H).
    rewrite (IH _ _ _ H), (rewrite_step_new_i _ _ _ _ _ H1).
    rewrite fmap_cons. simpl. lia.
Qed.

Lemma rewrite_step_changed i w r st st' :
  w <> r ->
  rewrite_step wft i w r st = Ok st' ->
  let diff := Z.of_nat (length (wft r)) - Z.of_nat (length (wft w)) in
  let fresh := range_set (new_i st) (length (wft r)) in
  modified_indices st' =
    fresh ∪ (if diff =? 0 then modified_indices st
             else shift_modified_indices (Z.of_nat i) diff (modified_indices st)) /\
  newly_modified_indices st' = fresh ∪ newly_modified_indices st /\
  original_index_map st' =
    (if diff =? 0 then original_index_map st
     else shift_index_map (Z.of_nat i) diff (original_index_map st)).
Proof.
  intros Hne H. pose proof (rewrite_step_index_map _ _ _ _ _ _ H) as Hmap.
  simpl in Hmap. simpl.
  split; [|split].
  3:{ rewrite Hmap. now destruct (_ =? 0). }
  all: unfold rewrite_step in H;
    apply bind_Ok in H as (k & _ & H);
    apply bind_Ok in H as ([p o] & _ & H); simpl in H;
    injection H as <-; simpl;
    destruct (String.eqb_spec w r) as [|_]; [contradiction|]; simpl;
    match goal with
    | |- context [mark_new_words ?n true ?s] =>
        destruct (mark_new_words_changed n s) as [E1 E2]; rewrite ?E1, ?E2
    end; simpl.
  - now destruct (_ =? 0).
  - reflexivity.
Qed.

(** The state of the loop of [replace_new_words] after the words of
    [<[i:=r]> ws], where only word [i] is edited. *)
Lemma rewrite_loop_one_edit (ws : list string) (i : nat) (w r : string)
    (st st' : rewrite_state) :
  ws !! i = Some w ->
  w <> r ->
  rewrite_loop wft 0 (zip ws (<[i:=r]> ws)) st = Ok st' ->
  let diff := Z.of_nat (length (wft r)) - Z.of_nat (length (wft w)) in
  let fresh := range_set (new_i st + Z.of_nat (words_before wft ws i))
                 (length (wft r)) in
  modified_indices st' =
    fresh ∪ (if diff =? 0 then modified_indices st
             else shift_modified_indices (Z.of_nat i) diff (modified_indices st)) /\
  newly_modified_indices st' = fresh ∪ newly_modified_indices st /\
  original_index_map st' =
    (if diff =? 0 then original_index_map st
     else shift_index_map (Z.of_nat i) diff (original_index_map st)).
Proof.
  intros Hi Hne H. rewrite (zip_insert_middle ws i w r Hi) in H.
  rewrite rewrite_loop_app in H. apply bind_Ok in H as (st1 & H1 & H).
  cbn [rewrite_loop] in H. apply bind_Ok in H as (st2 & H2 & H3).
  pose proof (rewrite_loop_identity_new_i _ _ _ _ H1) as Hn.
  apply rewrite_loop_identity in H1 as (M1 & N1 & A1).
  apply rewrite_loop_identity in H3 as (M3 & N3 & A3).
  rewrite length_fmap, length_take in H2.
  assert (Hlt : (i < length ws)%nat) by (eapply lookup_lt_Some; eassumption).
  replace (0 + i `min` length ws)%nat with i in H2 by lia.
  destruct (rewrite_step_changed _ _ _ _ _ Hne H2) as (M2 & N2 & A2).
  simpl. unfold words_before.
  rewrite M3, N3, A3, M2, N2, A2, M1, N1, A1, Hn. auto.
Qed.

End OneEdit.

(** X21: a rewrite that changes one word [w] into [r] marks as newly
    modified the positions the words of [r] take, counted in words of
    the tokenizer; adds them to the modified indices, which are first
    moved if the number of words changed; and moves the index map in the
    same case. *)
Theorem one_edit_bookkeeping (wft : string -> list string)
    (self s' : AttackedText) (i : nat) (w r : string) :
  words self !! i = Some w ->
  w <> r ->
  replace_new_words wft self (<[i:=r]> (words self)) = Ok s' ->
  exists m a,
    attr_set (attack_attrs self) "modified_indices" = Ok m /\
    attr_array (attack_attrs self) "original_index_map" = Ok a /\
    let diff := Z.of_nat (length (wft r)) - Z.of_nat (length (wft w)) in
    let fresh := range_set (Z.of_nat (words_before wft (words self) i))
                   (length (wft r)) in
    attr_set (attack_attrs s') "newly_modified_indices" = Ok fresh /\
    attr_set (attack_attrs s') "modified_indices" =
      Ok (fresh ∪ (if diff =? 0 then m
                   else shift_modified_indices (Z.of_nat i) diff m)) /\
    attr_array (attack_attrs s') "original_index_map" =
      Ok (if diff =? 0 then a else shift_index_map (Z.of_nat i) diff a).
Proof.
  intros Hi Hne H.
  apply replace_new_words_inv in H as (m & a & st & Hm & Ha & Hst & _ & _ & Hattrs).
  exists m, a. split; [exact Hm|]. split; [exact Ha|].
  destruct (rewrite_loop_one_edit wft _ _ _ _ _ _ Hi Hne Hst) as (M & N & A).
  simpl in M, N, A. rewrite Z.add_0_l in M, N.
  rewrite (right_id_L ∅ (∪)) in N.
  simpl. rewrite Hattrs. unfold attr_set, attr_array. simpl.
  rewrite M, N, A. auto.
Qed.

Lemma one_edit_bookkeeping_witness :
  exists s' m a,
    replace_new_words Tokenizer.words_from_text fox_root
      (<[1%nat:="very slow"]> (words fox_root)) = Ok s' /\
    attr_set (attack_attrs fox_root) "modified_indices" = Ok m /\
    attr_array (attack_attrs fox_root) "original_index_map" = Ok a /\
    attr_set (attack_attrs s') "newly_modified_indices" = Ok (range_set 1 2) /\
    attr_set (attack_attrs s') "modified_indices" =
      Ok (range_set 1 2 ∪ shift_modified_indices 1 1 m) /\
    attr_array (attack_attrs s') "original_index_map" =
      Ok (shift_index_map 1 1 a).
Proof.
  eexists.
  destruct (one_edit_bookkeeping Tokenizer.words_from_text fox_root _ 1
              "quick" "very slow" eq_refl ltac:(discriminate)
              ltac:(vm_compute; reflexivity))
    as (m & a & Hm & Ha & H).
  exists m, a. split; [vm_compute; reflexivity|].
  split; [exact Hm|]. split; [exact Ha|]. exact H.
Defined.


Lemma deleted_stays_deleted_witness :
  replace_new_words Tokenizer.words_from_text after_deletion ["a"; "c"]
    = Ok after_deletion_again /\
  [0; -1; 1] !! 1%nat = Some (-1).
Proof.
  assert (H : replace_new_words Tokenizer.words_from_text after_deletion ["a"; "c"]
              = Ok after_deletion_again) by (vm_compute; reflexivity).
  split; [exact H|].
  exact (deleted_stays_deleted Tokenizer.words_from_text after_deletion
           after_deletion_again ["a"; "c"] [0; -1; 1] [0; -1; 1] 1%nat
           H eq_refl eq_refl eq_refl).
Defined.

(** ** Rewrites: the text of one edit *)

Section OneEditText.
Variable wft : string -> list string.

(** What an iteration does to the two texts when the new word has words. *)
Lemma rewrite_step_text i w r st st' :
  wft r <> [] ->
  rewrite_step wft i w r st = Ok st' ->
  exists k,
    Py.find0 w (original_text st) = Some k /\
    perturbed_text st' = perturbed_text st +:+ Py.take k (original_text st) +:+ r /\
    original_text st' = Py.drop (k + Py.len w) (original_text st).
Proof.
  intros Hr H. unfold rewrite_step, Py.index in H.
  destruct (Py.find0 w (original_text st)) as [k|] eqn:Hk; [|discriminate].
  exists k. split; [reflexivity|]. simpl in H.
  destruct (wft r) as [|x l] eqn:E; [congruence|].
  cbn [length Nat.eqb] in H. simpl in H. injection H as <-.
  cbn [perturbed_text original_text].
  match goal with
  | |- context [mark_new_words ?n ?c ?s] =>
      destruct (mark_new_words_locals n c s) as (-> & -> & _ & _)
  end.
  destruct (negb (w =? r)%string); simpl; now rewrite append_assoc.
Qed.

Lemma rewrite_step_text_sum i w r st st' :
  wft r <> [] ->
  rewrite_step wft i w r st = Ok st' ->
  exists P S,
    perturbed_text st +:+ original_text st = P +:+ w +:+ S /\
    perturbed_text st' +:+ original_text st' = P +:+ r +:+ S.
Proof.
  intros Hr H.
  destruct (rewrite_step_text _ _ _ _ _ Hr H) as (k & Hk & -> & ->).
  exists (perturbed_text st +:+ Py.take k (original_text st)),
         (Py.drop (k + Py.len w) (original_text st)).
  rewrite !append_assoc. split; [|reflexivity].
  f_equal. now apply find0_spec.
Qed.

Lemma rewrite_loop_identity_sum ws : forall i st st',
  Forall (fun w => wft w <> []) ws ->
  rewrite_loop wft i ((fun w => (w, w)) <$> ws) st = Ok st' ->
  perturbed_text st' +:+ original_text st'
    = perturbed_text st +:+ original_text st.
Proof.
  induction ws as [|w ws IH]; intros i st st' Hne H; simpl in H.
  - now injection H as <-.
  - apply Forall_cons in Hne as [Hw Hne].
    apply bind_Ok in H as (st1 & H1 & H).
    rewrite (IH _ _ _ Hne H).
    destruct (rewrite_step_text_sum _ _ _ _ _ Hw H1) as (P & S & -> & ->).
    reflexivity.
Qed.

End OneEditText.

(** X22: a rewrite that changes one word [w] into a text [r] with words,
    in an instance whose words the tokenizer finds words in, puts [r] in
    the place of one occurrence of [w] and leaves every other character of
    the joined segments as it was, before the segments are split again and
    stripped. *)
Theorem one_edit_text (wft : string -> list string)
    (self s' : AttackedText) (i : nat) (w r : string) :
  words self !! i = Some w ->
  wft r <> [] ->
  Forall (fun w => wft w <> []) (words self) ->
  replace_new_words wft self (<[i:=r]> (words self)) = Ok s' ->
  exists P S,
    Py.join SPLIT_TOKEN (dict_values (_text_input self)) = P +:+ w +:+ S /\
    _text_input s' =
      (fun kv : string * string => (kv.1, Py.strip kv.2)) <$>
        zip (dict_keys (_text_input self))
            (Py.split (P +:+ r +:+ S) SPLIT_TOKEN).
Proof.
  intros Hi Hr Hall H.
  apply replace_new_words_inv in H as (m & a & st & _ & _ & Hst & Hti & _ & _).
  rewrite (zip_insert_middle _ i w r Hi) in Hst.
  rewrite rewrite_loop_app in Hst. apply bind_Ok in Hst as (st1 & H1 & Hst).
  cbn [rewrite_loop] in Hst. apply bind_Ok in Hst as (st2 & H2 & H3).
  apply rewrite_loop_identity_sum in H1; [|now apply Forall_take].
  apply rewrite_loop_identity_sum in H3; [|now apply Forall_drop].
  destruct (rewrite_step_text_sum _ _ _ _ _ _ Hr H2) as (P & S & E1 & E2).
  exists P, S. cbn [perturbed_text original_text] in H1.
  rewrite append_nil in H1. rewrite <- H1, E1. split; [reflexivity|].
  now rewrite Hti, H3, E2.
Qed.

Lemma one_edit_text_witness :
  exists s' P S,
    replace_new_words Tokenizer.words_from_text fox_root
      (<[1%nat:="very slow"]> (words fox_root)) = Ok s' /\
    Py.join SPLIT_TOKEN (dict_values (_text_input fox_root))
      = P +:+ "quick" +:+ S /\
    _text_input s' =
      (fun kv : string * string => (kv.1, Py.strip kv.2)) <$>
        zip (dict_keys (_text_input fox_root))
            (Py.split (P +:+ "very slow" +:+ S) SPLIT_TOKEN).
Proof.
  eexists.
  destruct (one_edit_text Tokenizer.words_from_text fox_root _ 1
              "quick" "very slow" eq_refl ltac:(vm_compute; discriminate)
              ltac:(vm_compute; repeat constructor; discriminate)
              ltac:(vm_compute; reflexivity))
    as (P & S & HP & HS).
  exists P, S. split; [vm_compute; reflexivity|]. split; [exact HP | exact HS].
Defined.

Lemma zip_surplus {A B : Type} (l1 : list A) : forall (l2 extra : list B),
  (length l1 <= length l2)%nat -> zip l1 (l2 ++ extra) = zip l1 l2.
Proof.
  induction l1 as [|x l1 IH]; intros [|y l2] extra H; simpl in *;
    try reflexivity; try lia.
  f_equal. apply IH. lia.
Qed.

(** X23: new words beyond the number of words of the instance are not
    looked at: the call returns what it returns without them, and raises
    what it raises without them. *)
Theorem surplus_new_words_ignored (wft : string -> list string)
    (self : AttackedText) (new_words extra : list string) :
  (length (words self) <= length new_words)%nat ->
  replace_new_words wft self (new_words ++ extra)
  = replace_new_words wft self new_words.
Proof.
  intros H. unfold replace_new_words. now rewrite zip_surplus.
Qed.

Lemma surplus_new_words_ignored_witness :
  replace_new_words Tokenizer.words_from_text fox_root
    (["The"; "slow"; "fox"; "jumps"] ++ ["over"; "it"])
  = replace_new_words Tokenizer.words_from_text fox_root
    ["The"; "slow"; "fox"; "jumps"].
Proof. apply surplus_new_words_ignored. simpl. lia. Defined.

(** ** Construction *)

Lemma dict_setdefault_present {V : Type} (k : string) (v v0 : V)
    (d : list (string * V)) :
  dict_get k d = Some v0 -> dict_setdefault k v d = d.
Proof. intros H. unfold dict_setdefault. now rewrite H. Qed.

(** X24: the constructor keeps every attribute it is given, with its value,
    adds [original_index_map] and [modified_indices] only where the
    dictionary lacks them, and adds no other key. *)
Theorem init_keeps_given_attributes (wft : string -> list string)
    (ti : text_input_arg) (d : list (string * attr)) (s : AttackedText) :
  init wft ti (AttrsDict d) = Ok s ->
  (forall k v, dict_get k d = Some v -> dict_get k (attack_attrs s) = Some v) /\
  (dict_get "original_index_map" d = None ->
   dict_get "original_index_map" (attack_attrs s)
     = Some (Ndarray (Py.arange (length (words s))))) /\
  (dict_get "modified_indices" d = None ->
   dict_get "modified_indices" (attack_attrs s) = Some (PySet ∅)) /\
  (forall k, k <> "original_index_map" -> k <> "modified_indices" ->
             dict_get k (attack_attrs s) = dict_get k d).
Proof.
  unfold init. intros H. apply bind_Ok in H as (t & _ & H).
  simpl in H. injection H as <-. cbn [attack_attrs words].
  split; [|split; [|split]].
  - intros k v Hk. now rewrite !dict_get_setdefault, Hk.
  - intros Hk. now rewrite !dict_get_setdefault, Hk.
  - intros Hk. rewrite !dict_get_setdefault, Hk. reflexivity.
  - intros k H1 H2. rewrite !dict_get_setdefault.
    destruct (dict_get k d); [reflexivity|].
    destruct (String.eqb_spec k "original_index_map"); [contradiction|].
    destruct (String.eqb_spec k "modified_indices"); [contradiction|].
    reflexivity.
Qed.

Lemma init_keeps_given_attributes_witness :
  init Tokenizer.words_from_text (InStr "a c")
    (AttrsDict [("original_index_map", Ndarray [0; -1; 1])]) = Ok after_deletion /\
  dict_get "original_index_map" (attack_attrs after_deletion)
    = Some (Ndarray [0; -1; 1]).
Proof.
  assert (H : init Tokenizer.words_from_text (InStr "a c")
                (AttrsDict [("original_index_map", Ndarray [0; -1; 1])])
              = Ok after_deletion) by (vm_compute; reflexivity).
  split; [exact H|].
  destruct (init_keeps_given_attributes _ _ _ _ H) as (Hkeep & _).
  apply Hkeep. reflexivity.
Defined.

(** X25: constructing an instance again from the segments and the
    attributes of an instance the constructor returned gives that
    instance: stripping, the words and the defaults are stable. *)
Theorem init_round_trip (wft : string -> list string)
    (ti : text_input_arg) (attrs : attack_attrs_arg) (s : AttackedText) :
  init wft ti attrs = Ok s ->
  init wft (InOrderedDict (_text_input s)) (AttrsDict (attack_attrs s)) = Ok s.
Proof.
  intros H. pose proof (init_stripped wft _ _ _ H) as Hs.
  pose proof (init_words wft _ _ _ H) as Hw.
  assert (Hk : is_Some (dict_get "original_index_map" (attack_attrs s)) /\
               is_Some (dict_get "modified_indices" (attack_attrs s))).
  { unfold init in H. apply bind_Ok in H as (t & _ & H).
    apply bind_Ok in H as (d & _ & H). injection H as <-. cbn [attack_attrs].
    rewrite !dict_get_setdefault. split.
    - destruct (dict_get "original_index_map" d); simpl; eauto.
    - destruct (dict_get "modified_indices" d); simpl; eauto. }
  destruct Hk as [[v1 H1] [v2 H2]].
  destruct s as [segs ws d]. cbn [_text_input attack_attrs words] in *.
  unfold text in Hw. cbn [_text_input] in Hw.
  unfold init. simpl. rewrite (stripped_fixed _ Hs), <- Hw.
  rewrite (dict_setdefault_present _ _ _ _ H1).
  now rewrite (dict_setdefault_present _ _ _ _ H2).
Qed.

Lemma init_round_trip_witness :
  init Tokenizer.words_from_text (InOrderedDict (_text_input fox_root))
    (AttrsDict (attack_attrs fox_root)) = Ok fox_root.
Proof.
  apply (init_round_trip Tokenizer.words_from_text
           (InStr "The quick fox jumps.") AttrsNone).
  vm_compute. reflexivity.
Defined.

(** ** Converting original indices *)


Lemma mapM_Ok_fmap {A B C : Type} (f : B -> result C) (h : A -> B) (g : A -> C)
    (l : list A) :
  Forall (fun x => f (h x) = Ok (g x)) l -> mapM f (h <$> l) = Ok (g <$> l).
Proof.
  induction 1 as [|x l Hx _ IH]; [reflexivity|].
  rewrite !fmap_cons. simpl. rewrite Hx. simpl. rewrite IH. reflexivity.
Qed.

Lemma arange_lookup (n k : nat) :
  (k < n)%nat -> Py.arange n !! k = Some (Z.of_nat k).
Proof.
  intros H. unfold Py.arange. rewrite list_lookup_fmap.
  now rewrite (lookup_seq_lt 0 n k H).
Qed.




(** X27: with an empty index map the conversion returns its argument as it
    is, of whatever type; with a non-empty one an argument that is no set,
    list, array or tensor raises [TypeError], and a list of 64-bit indices
    whose first is at or past the length of the map raises [IndexError]. *)
Theorem convert_edge_cases (list_of_set : gset Z -> list Z)
    (s : AttackedText) (a : list Z) :
  attr_array (attack_attrs s) "original_index_map" = Ok a ->
  (a = [] -> forall idxs,
     convert_from_original_idxs list_of_set s idxs = Ok idxs) /\
  (a <> [] ->
   convert_from_original_idxs list_of_set s IdxsOther = Raise TypeError /\
   forall x l, Z.of_nat (length a) <= x ->
     Forall int64 (x :: l) ->
     convert_from_original_idxs list_of_set s (IdxsList (x :: l))
       = Raise IndexError).
Proof.
  intros Ha. unfold convert_from_original_idxs. rewrite Ha. simpl. split.
  - intros -> idxs. reflexivity.
  - intros Hne. destruct a as [|y a]; [contradiction|]. simpl.
    split; [reflexivity|]. intros x l Hx _.
    unfold Py.getitem.
    assert (E : (x <? 0) = false) by (apply Z.ltb_ge; simpl in Hx; lia).
    rewrite !E.
    rewrite (lookup_ge_None_2 (y :: a) (Z.to_nat x)) by (simpl in *; lia).
    reflexivity.
Qed.

Lemma convert_edge_cases_witness :
  convert_from_original_idxs elements fox_root IdxsOther = Raise TypeError /\
  convert_from_original_idxs elements fox_root (IdxsList [4; 0])
    = Raise IndexError.
Proof.
  destruct (convert_edge_cases elements fox_root [0; 1; 2; 3] eq_refl)
    as [_ H].
  destruct (H ltac:(discriminate)) as [Ht Hi].
  split; [exact Ht|]. apply Hi; [simpl; lia|].
  repeat constructor; unfold int64; simpl; lia.
Defined.

(** ** Deleting a word of a root instance *)

(** The index map of a root after the deletion of word [i]. *)
Lemma deleted_arange (n i : nat) :
  (i < n)%nat ->
  shift_index_map (Z.of_nat i) (-1) (Py.arange n) =
    (Py.arange i ++ [-1] ++ (Z.of_nat <$> seq i (n - S i)))%list.
Proof.
  intros H. rewrite shift_index_map_deletion by lia.
  unfold Py.arange.
  assert (E : seq 0 n = (seq 0 i ++ [i] ++ seq (S i) (n - S i))%list).
  { replace n with (i + S (n - S i))%nat at 1 by lia.
    rewrite seq_app. reflexivity. }
  rewrite E, !fmap_app. clear E.
  f_equal; [|f_equal].
  - rewrite <- list_fmap_compose. apply list_fmap_ext. intros k x Hx.
    apply lookup_seq in Hx as [-> Hk]. simpl.
    destruct (Z.eqb_spec (Z.of_nat k) (Z.of_nat i)); [lia|].
    destruct (Z.ltb_spec (Z.of_nat i) (Z.of_nat k)); [lia | reflexivity].
  - simpl. now rewrite Z.eqb_refl.
  - rewrite <- (fmap_S_seq i), <- !list_fmap_compose.
    apply list_fmap_ext. intros k x Hx.
    apply lookup_seq in Hx as [-> Hk]. cbn [compose].
    destruct (Z.eqb_spec (Z.of_nat (S (i + k))) (Z.of_nat i)); [lia|].
    destruct (Z.ltb_spec (Z.of_nat i) (Z.of_nat (S (i + k)))); lia.
Qed.

Lemma delete_root_index_map (wft : string -> list string) (ti : text_input_arg)
    (root s' : AttackedText) (i : nat) (w : string) :
  init wft ti AttrsNone = Ok root ->
  words root !! i = Some w ->
  length (wft w) = 1%nat ->
  wft "" = [] ->
  delete_word_at_index wft root (IdxInt (Z.of_nat i)) = Ok s' ->
  attr_array (attack_attrs s') "original_index_map" =
    Ok (Py.arange i ++ [-1] ++
        (Z.of_nat <$> seq i (length (words root) - S i)))%list.
Proof.
  intros Hroot Hi Hw He H.
  assert (Hlt : (i < length (words root))%nat) by (eapply lookup_lt_Some; eassumption).
  assert (Hne : w <> "") by (intros ->; rewrite He in Hw; discriminate).
  unfold delete_word_at_index, replace_word_at_index, replace_words_at_indices in H.
  simpl in H.
  destruct (Z.ltb_spec (Z.of_nat i) 0); [lia|].
  destruct (Z.ltb_spec (Z.of_nat (length (words root))) (Z.of_nat i)); [lia|].
  simpl in H. unfold Py.setitem in H. rewrite Nat2Z.id in H.
  destruct (Nat.ltb_spec i (length (words root))); [|lia]. simpl in H.
  apply replace_new_words_inv in H as (m & a & st & _ & Ha & Hst & _ & _ & Hattrs).
  rewrite (init_root_index_map wft _ _ Hroot) in Ha. injection Ha as <-.
  destruct (rewrite_loop_one_edit wft _ _ _ _ _ _ Hi Hne Hst) as (_ & _ & A).
  rewrite Hattrs. unfold attr_array. simpl. f_equal.
  rewrite A. simpl. rewrite He, Hw. simpl.
  now apply deleted_arange.
Qed.

(** X28: after the deletion of word [i] from an instance constructed from a
    text with [n] words (the word counting as one word for the tokenizer,
    the empty string as none) the index map is [0 .. i-1], then [-1], then
    [i .. n-2], and [get_deletion_indices] returns the one entry [-1]. *)
Theorem deletion_on_root (wft : string -> list string) (ti : text_input_arg)
    (root s' : AttackedText) (i : nat) (w : string) :
  init wft ti AttrsNone = Ok root ->
  words root !! i = Some w ->
  length (wft w) = 1%nat ->
  wft "" = [] ->
  delete_word_at_index wft root (IdxInt (Z.of_nat i)) = Ok s' ->
  attr_array (attack_attrs s') "original_index_map" =
    Ok (Py.arange i ++ [-1] ++
        (Z.of_nat <$> seq i (length (words root) - S i)))%list /\
  get_deletion_indices s' = Ok [-1].
Proof.
  intros Hroot Hi Hw He H.
  pose proof (delete_root_index_map wft ti root s' i w Hroot Hi Hw He H) as Hmap.
  split; [exact Hmap|].
  unfold get_deletion_indices. rewrite Hmap. simpl. f_equal.
  assert (F : forall (l : list nat),
             filter (fun x : Z => x = -1) (Z.of_nat <$> l) = []).
  { induction l as [|k l IH]; [reflexivity|].
    rewrite fmap_cons, filter_cons_False by lia. exact IH. }
  rewrite filter_app, filter_cons_True by reflexivity.
  unfold Py.arange. now rewrite !F.
Qed.

Lemma deletion_on_root_witness :
  exists s',
    delete_word_at_index Tokenizer.words_from_text fox_root (IdxInt (Z.of_nat 1))
      = Ok s' /\
    attr_array (attack_attrs s') "original_index_map" =
      Ok (Py.arange 1 ++ [-1] ++
          (Z.of_nat <$> seq 1 (length (words fox_root) - 2)))%list /\
    get_deletion_indices s' = Ok [-1].
Proof.
  eexists. split; [vm_compute; reflexivity|].
  apply (deletion_on_root Tokenizer.words_from_text
           (InStr "The quick fox jumps.") fox_root _ 1 "quick");
    vm_compute; reflexivity.
Defined.

(** X29: after such a deletion the conversion takes an original index
    before [i] to itself, [i] to [-1], and a later one to the index
    before it. *)
Theorem convert_after_deletion (list_of_set : gset Z -> list Z)
    (wft : string -> list string) (ti : text_input_arg)
    (root s' : AttackedText) (i : nat) (w : string) (l : list nat) :
  init wft ti AttrsNone = Ok root ->
  words root !! i = Some w ->
  length (wft w) = 1%nat ->
  wft "" = [] ->
  delete_word_at_index wft root (IdxInt (Z.of_nat i)) = Ok s' ->
  Forall (fun j => (j < length (words root))%nat) l ->
  convert_from_original_idxs list_of_set s' (IdxsList (Z.of_nat <$> l)) =
    Ok (IdxsList ((fun j : nat =>
                     if (j <? i)%nat then Z.of_nat j
                     else if (j =? i)%nat then -1
                     else Z.of_nat j - 1) <$> l)).
Proof.
  intros Hroot Hi Hw He H Hl.
  pose proof (delete_root_index_map wft ti root s' i w Hroot Hi Hw He H) as Hmap.
  assert (Hlt : (i < length (words root))%nat) by (eapply lookup_lt_Some; eassumption).
  unfold convert_from_original_idxs. rewrite Hmap.
  set (M := (Py.arange i ++ [-1] ++
             (Z.of_nat <$> seq i (length (words root) - S i)))%list).
  assert (HM : length M = length (words root)).
  { unfold M. rewrite !length_app, arange_length, length_fmap, length_seq.
    simpl. lia. }
  cbn [mbind result_bind]. rewrite HM.
  destruct (Nat.eqb_spec (length (words root)) 0); [lia|].
  cbn [mbind result_bind].
  rewrite (mapM_Ok_fmap _ Z.of_nat
             (fun j : nat => if (j <? i)%nat then Z.of_nat j
                             else if (j =? i)%nat then -1
                             else Z.of_nat j - 1)); [reflexivity|].
  eapply Forall_impl; [exact Hl|]. intros j Hj. simpl in Hj.
  apply getitem_nat. unfold M.
  destruct (Nat.ltb_spec j i) as [Hji|Hji].
  - rewrite lookup_app_l by (rewrite arange_length; lia).
    now apply arange_lookup.
  - rewrite lookup_app_r by (rewrite arange_length; lia).
    rewrite arange_length.
    destruct (Nat.eqb_spec j i) as [->|Hne].
    + now rewrite Nat.sub_diag.
    + replace (j - i)%nat with (S (j - S i)) by lia. simpl.
      rewrite list_lookup_fmap, (lookup_seq_lt i _ (j - S i)) by lia.
      simpl. f_equal. lia.
Qed.

Lemma convert_after_deletion_witness :
  exists s',
    delete_word_at_index Tokenizer.words_from_text fox_root (IdxInt (Z.of_nat 1))
      = Ok s' /\
    convert_from_original_idxs elements s' (IdxsList (Z.of_nat <$> [0; 1; 3]%nat))
      = Ok (IdxsList [0; -1; 2]).
Proof.
  eexists. split; [vm_compute; reflexivity|].
  apply (convert_after_deletion elements Tokenizer.words_from_text
           (InStr "The quick fox jumps.") fox_root _ 1 "quick" [0; 1; 3]%nat);
    try (vm_compute; reflexivity).
  repeat constructor; simpl; lia.
Defined.

(** ** The attribute dictionary a caller passes *)

(** X30: a dictionary passed as [attack_attrs] is not copied: the new
    instance refers to that very object, and the constructor writes the
    two default entries into it where they are missing, so the caller's
    dictionary holds them after the call. *)
Theorem init_shares_given_dict (wft : string -> list string) (h : Store.heap)
    (str : string) (d : Store.loc) (dd : list (string * Store.loc)) :
  h !! d = Some (Store.OAttrs dd) ->
  let L := length h in
  let ws := wft (Py.strip str) in
  exists h',
    Store.init wft (Store.InStr str) (Store.AttrsDict d) h
      = (Ok (L + 5)%nat, h') /\
    h' !! (L + 5)%nat = Some (Store.OInstance (L + 1) (L + 2) d) /\
    h' !! d = Some (Store.OAttrs
                (dict_setdefault "modified_indices" (L + 4)%nat
                   (dict_setdefault "original_index_map" (L + 3)%nat dd))) /\
    h' !! (L + 3)%nat = Some (Store.ONdarray (Py.arange (length ws))) /\
    h' !! (L + 4)%nat = Some (Store.OSet ∅).
Proof.
  intros Hd L ws.
  assert (HdL : (d < L)%nat) by (eapply lookup_lt_Some; eassumption).
  set (segs := [("text", Py.strip str)]).
  set (dd1 := dict_setdefault "original_index_map" (L + 3)%nat dd).
  set (dd2 := dict_setdefault "modified_indices" (L + 4)%nat dd1).
  set (h1 := (h ++ [Store.OSegments [("text", str)]])%list).
  set (h2 := (h1 ++ [Store.OSegments segs])%list).
  set (h3 := (h2 ++ [Store.OList ws])%list).
  set (h4 := (h3 ++ [Store.ONdarray (Py.arange (length ws))])%list).
  set (h5 := <[d:=Store.OAttrs dd1]> h4).
  set (h6 := (h5 ++ [Store.OSet ∅])%list).
  set (h7 := <[d:=Store.OAttrs dd2]> h6).
  set (h8 := (h7 ++ [Store.OInstance (L + 1) (L + 2) d])%list).
  assert (L1 : length h1 = (L + 1)%nat) by (unfold h1; StoreSim.sizes).
  assert (L2 : length h2 = (L + 2)%nat) by (unfold h2, h1; StoreSim.sizes).
  assert (L3 : length h3 = (L + 3)%nat) by (unfold h3, h2, h1; StoreSim.sizes).
  assert (L4 : length h4 = (L + 4)%nat) by (unfold h4, h3, h2, h1; StoreSim.sizes).
  assert (L5 : length h5 = (L + 4)%nat) by (unfold h5; now rewrite length_insert).
  assert (L6 : length h6 = (L + 5)%nat) by (unfold h6; rewrite length_app, L5; simpl; lia).
  assert (L7 : length h7 = (L + 5)%nat) by (unfold h7; now rewrite length_insert).
  assert (D3 : h3 !! d = Some (Store.OAttrs dd)).
  { unfold h3, h2, h1. now rewrite !lookup_app_l by StoreSim.sizes. }
  exists h8. split; [|split; [|split; [|split]]].
  - unfold Store.init.
    rewrite (StoreSim.bind_run _ _ h h1 L) by reflexivity.
    rewrite (StoreSim.bind_run _ _ h1 h1 [("text", str)]).
    2:{ apply StoreSim.read_segments_run. apply StoreSim.lookup_alloc. }
    rewrite (StoreSim.bind_run _ _ h1 h2 (L + 1)%nat)
      by (unfold Store.alloc; now rewrite L1).
    rewrite (StoreSim.bind_run _ _ h2 h3 (L + 2)%nat)
      by (unfold Store.alloc; now rewrite L2).
    rewrite (StoreSim.bind_run _ _ h3 h3 d).
    2:{ now rewrite (StoreSim.bind_run _ _ h3 h3 dd)
          by (now apply StoreSim.read_attrs_run). }
    rewrite (StoreSim.bind_run _ _ h3 h4 (L + 3)%nat)
      by (unfold Store.alloc; now rewrite L3).
    rewrite (StoreSim.bind_run _ _ h4 h5 tt).
    2:{ unfold Store.attrs_setdefault.
        rewrite (StoreSim.bind_run _ _ h4 h4 dd); [reflexivity|].
        apply StoreSim.read_attrs_run. unfold h4.
        now rewrite lookup_app_l by lia. }
    rewrite (StoreSim.bind_run _ _ h5 h6 (L + 4)%nat)
      by (unfold Store.alloc; now rewrite L5).
    rewrite (StoreSim.bind_run _ _ h6 h7 tt).
    2:{ unfold Store.attrs_setdefault.
        rewrite (StoreSim.bind_run _ _ h6 h6 dd1); [reflexivity|].
        apply StoreSim.read_attrs_run. unfold h6.
        rewrite lookup_app_l by lia. unfold h5.
        apply list_lookup_insert_eq. lia. }
    unfold Store.alloc. now rewrite L7.
  - unfold h8. rewrite <- L7. apply StoreSim.lookup_alloc.
  - unfold h8. rewrite lookup_app_l by lia. unfold h7.
    apply list_lookup_insert_eq. lia.
  - unfold h8. rewrite lookup_app_l by lia.
    unfold h7. rewrite list_lookup_insert_ne by lia.
    unfold h6. rewrite lookup_app_l by lia.
    unfold h5. rewrite list_lookup_insert_ne by lia.
    unfold h4. rewrite <- L3. apply StoreSim.lookup_alloc.
  - unfold h8. rewrite lookup_app_l by lia.
    unfold h7. rewrite list_lookup_insert_ne by lia.
    unfold h6. rewrite <- L5. apply StoreSim.lookup_alloc.
Qed.

Lemma init_shares_given_dict_witness :
  exists h',
    Store.init Tokenizer.words_from_text (Store.InStr "a")
      (Store.AttrsDict 0%nat) [Store.OAttrs []] = (Ok 6%nat, h') /\
    h' !! 6%nat = Some (Store.OInstance 2 3 0) /\
    h' !! 0%nat = Some (Store.OAttrs [("original_index_map", 4%nat);
                                      ("modified_indices", 5%nat)]) /\
    h' !! 4%nat = Some (Store.ONdarray [0]) /\
    h' !! 5%nat = Some (Store.OSet ∅).
Proof.
  exact (init_shares_given_dict Tokenizer.words_from_text [Store.OAttrs []]
           "a" 0%nat [] eq_refl).
Defined.
